(** * BSE propofol demo (Marsh three-compartment PK): model and properties

    Shallow embedding of [demo/bse-propofol/bse_pk.js].  JavaScript numbers
    are IEEE-754 binary64 values, so every number of the program is a
    primitive [float]: the arithmetic below rounds exactly as the script
    does, including signed zeros, infinities and NaN. *)

From Stdlib Require Import ZArith QArith Qabs List Bool Lia Floats String Ascii.
Import ListNotations.

Set Warnings "-inexact-float".

Local Open Scope float_scope.

(** ** The JavaScript built-ins the script calls *)

Module JS.

(** [a > b] and [a >= b]: both are false as soon as one side is NaN. *)
Definition gtb (a b : float) : bool := b <? a.
Definition geb (a b : float) : bool := b <=? a.

(** [Number.isFinite]. *)
Definition Number_isFinite (x : float) : bool := is_finite x.

(** [-0] is the zero whose sign bit is set. *)
Definition is_neg_zero (x : float) : bool := is_zero x && get_sign x.

(** [Math.max(a, b)]: NaN if either is NaN, [+0] above [-0]. *)
Definition Math_max (a b : float) : float :=
  if is_nan a || is_nan b then nan
  else if a <? b then b
  else if b <? a then a
  else if is_neg_zero a then b else a.

(** [Math.min(a, b)]: NaN if either is NaN, [-0] below [+0]. *)
Definition Math_min (a b : float) : float :=
  if is_nan a || is_nan b then nan
  else if a <? b then a
  else if b <? a then b
  else if is_neg_zero b then b else a.

(** The double that holds the integer [n]; exact for [|n| <= 2^53]. *)
Definition of_Z (n : Z) : float :=
  SF2Prim (binary_normalize prec emax n 0 false).

(** [Math.ceil]: the least integral double not below [x]; a negative
    argument above [-1] gives [-0], and zeros, infinities and NaN are
    returned unchanged.  A double whose exponent is not negative is
    already integral. *)
Definition Math_ceil (x : float) : float :=
  match Prim2SF x with
  | S754_finite s m e =>
      if (0 <=? e)%Z then x
      else
        let k := (2 ^ (- e))%Z in
        if s then
          let n := (Z.pos m / k)%Z in
          if (n =? 0)%Z then neg_zero else of_Z (- n)
        else of_Z ((Z.pos m + k - 1) / k)
  | _ => x
  end.

(** A loop counter [i] that starts at 0 and is bumped by [i++] holds an
    integer; doubles represent the integers up to [2^53] exactly and
    [2^53 + 1] rounds back to [2^53], so the counter is that integer and
    [i++] saturates there. *)
Definition incr (i : Z) : Z :=
  if (i <? 9007199254740992)%Z then (i + 1)%Z else i.

(** [i < x] for an integer counter [i] and a double [x], decided on the
    exact values. *)
Definition Z_ltb_float (i : Z) (x : float) : bool :=
  match Prim2SF x with
  | S754_nan => false
  | S754_infinity s => negb s
  | S754_zero _ => (i <? 0)%Z
  | S754_finite s m e =>
      let v := if s then Z.neg m else Z.pos m in
      if (0 <=? e)%Z then (i <? v * 2 ^ e)%Z
      else (i * 2 ^ (- e) <? v)%Z
  end.

(** The bound [x] of a loop [for (i = 0; i < x; i++)], read once before the
    loop: [Some n] when a counter [i >= 0] passes the test [i < x] exactly
    when [i < n], [None] when it always passes ([x] is [+Infinity]). *)
Definition counter_limit (x : float) : option Z :=
  match Prim2SF x with
  | S754_infinity false => None
  | S754_finite false m e =>
      if (0 <=? e)%Z then Some (Z.pos m * 2 ^ e)%Z
      else Some ((Z.pos m + 2 ^ (- e) - 1) / 2 ^ (- e))%Z
  | _ => Some 0%Z
  end.

(** The test [i < x] against the bound read before the loop. *)
Definition below (i : Z) (limit : option Z) : bool :=
  match limit with
  | Some n => (i <? n)%Z
  | None => true
  end.

(** The text [x.toFixed(4)] produces.  For a finite [|x| < 10^21] it is
    the decimal numeral of [n / 10^4], where [n] is the integer nearest
    to [|x| * 10^4] (the larger one on a tie), behind a minus sign when
    [x < 0]; otherwise it is [String(x)], which reads back as [x]. *)
Inductive fixed_text : Type :=
| Fixed (neg : bool) (n : Z)
| Plain (x : float).

Definition toFixed4 (x : float) : fixed_text :=
  match Prim2SF x with
  | S754_zero _ => Fixed false 0
  | S754_finite s m e =>
      if (0 <=? e)%Z then
        if (Z.pos m * 2 ^ e <? 10 ^ 21)%Z
        then Fixed s (Z.pos m * 2 ^ e * 10000)
        else Plain x
      else
        let k := (2 ^ (- e))%Z in
        if (Z.pos m <? 10 ^ 21 * k)%Z
        then Fixed s ((2 * (Z.pos m * 10000) + k) / (2 * k))
        else Plain x
  | _ => Plain x
  end.

Definition digit (d : Z) : string :=
  String (ascii_of_nat (48 + Z.to_nat d)) EmptyString.

Fixpoint digits_of (fuel : nat) (n : Z) : string :=
  match fuel with
  | O => EmptyString
  | S fuel' =>
      if (n <? 10)%Z then digit n
      else (digits_of fuel' (n / 10) ++ digit (n mod 10))%string
  end.

(** The characters of a [Fixed] text. *)
Definition render (neg : bool) (n : Z) : string :=
  ((if neg then "-" else "") ++ digits_of 22 (n / 10000) ++ "."
    ++ digit (n / 1000 mod 10) ++ digit (n / 100 mod 10)
    ++ digit (n / 10 mod 10) ++ digit (n mod 10))%string.

(** What the input surface holds once the text is read back by
    [parseFloat]: the double nearest to [n / 10^4]. *)
Definition read_back (s : fixed_text) : float :=
  match s with
  | Fixed neg n =>
      let v := SF2Prim (SFdiv prec emax
                          (binary_normalize prec emax n 0 false)
                          (Prim2SF 10000)) in
      if neg then - v else v
  | Plain x => x
  end.

End JS.

(** ** Parameters *)

(** The six fields of [p], named after the element ids of the page. *)
Record Params : Type := mkParams {
  weight : float;
  bolus_mg : float;
  infusion_mg_min : float;
  infusion_duration_min : float;
  t_end_min : float;
  dt_min : float
}.

(** Marsh rate constants (1/min) and volumes (L/kg). *)
Definition k10 : float := 0.119.
Definition k12 : float := 0.112.
Definition k21 : float := 0.055.
Definition k13 : float := 0.042.
Definition k31 : float := 0.0033.

Definition V1_per_kg : float := 0.228.
Definition V2_per_kg : float := 0.463.
Definition V3_per_kg : float := 2.893.

Definition MAX_STEPS : float := 20000.

(** One guardrail of [readParams]:
    [if (!Number.isFinite(x) || x <= 0) x = d]. *)
Definition guard_pos (x d : float) : float :=
  if negb (JS.Number_isFinite x) || (x <=? 0) then d else x.

(** [if (!Number.isFinite(x) || x < 0) x = d]. *)
Definition guard_nonneg (x d : float) : float :=
  if negb (JS.Number_isFinite x) || (x <? 0) then d else x.

(** The guardrail block of [readParams].  The argument holds what
    [parseFloat(inputs[id].value)] gave for each id: NaN for a field that
    is empty or not a number. *)
Definition guardrails (raw : Params) : Params :=
  {| weight := guard_pos (weight raw) 70;
     bolus_mg := guard_nonneg (bolus_mg raw) 0;
     infusion_mg_min := guard_nonneg (infusion_mg_min raw) 0;
     infusion_duration_min := guard_nonneg (infusion_duration_min raw) 0;
     t_end_min := guard_pos (t_end_min raw) 240;
     dt_min := guard_pos (dt_min raw) 0.2 |}.

(** What [readParams] writes back to the page when it adjusts the step:
    [inputs.dt_min.value] and [displays.dt_min.innerText]; [None] when it
    leaves them alone. *)
Record Reflected : Type := mkReflected {
  input_dt_value : option JS.fixed_text;
  display_dt_text : option JS.fixed_text
}.

Definition set_dt (p : Params) (d : float) : Params :=
  {| weight := weight p;
     bolus_mg := bolus_mg p;
     infusion_mg_min := infusion_mg_min p;
     infusion_duration_min := infusion_duration_min p;
     t_end_min := t_end_min p;
     dt_min := d |}.

(** The step cap of [readParams], on the guarded parameters. *)
Definition cap_steps (p : Params) : Params * Reflected :=
  let steps := t_end_min p / dt_min p in
  if JS.gtb steps MAX_STEPS then
    let p' := set_dt p (t_end_min p / MAX_STEPS) in
    let txt := JS.toFixed4 (dt_min p') in
    (p', {| input_dt_value := Some txt; display_dt_text := Some txt |})
  else (p, {| input_dt_value := None; display_dt_text := None |}).

Definition readParams_ui (raw : Params) : Params * Reflected :=
  cap_steps (guardrails raw).

Definition readParams (raw : Params) : Params := fst (readParams_ui raw).

(** What [readParams] shows beside a field as it reads it:
    [Number.isFinite(p[id]) ? p[id] : 0]. *)
Definition shown_value (x : float) : float :=
  if JS.Number_isFinite x then x else 0.

(** ** The integrator *)

Definition doseRate (t : float) (p : Params) : float :=
  if (infusion_mg_min p <=? 0) || (infusion_duration_min p <=? 0) then 0
  else if t <=? infusion_duration_min p then infusion_mg_min p else 0.

Definition deriv (t A1 A2 A3 : float) (p : Params) : float * float * float :=
  let input := doseRate t p in
  let dA1 := input + k21 * A2 + k31 * A3 - (k10 + k12 + k13) * A1 in
  let dA2 := k12 * A1 - k21 * A2 in
  let dA3 := k13 * A1 - k31 * A3 in
  (dA1, dA2, dA3).

(** The variables the loop of [solveRK4] updates. *)
Record State : Type := mkState {
  st_t : float;
  st_A1 : float;
  st_A2 : float;
  st_A3 : float
}.

(** The update of the three masses in one pass of the loop, with step [h]. *)
Definition rk4_masses (h : float) (s : State) (p : Params)
  : float * float * float :=
  let t := st_t s in
  let A1 := st_A1 s in
  let A2 := st_A2 s in
  let A3 := st_A3 s in
  let '(k1_0, k1_1, k1_2) := deriv t A1 A2 A3 p in
  let '(k2_0, k2_1, k2_2) :=
    deriv (t + 0.5 * h) (A1 + 0.5 * h * k1_0) (A2 + 0.5 * h * k1_1)
          (A3 + 0.5 * h * k1_2) p in
  let '(k3_0, k3_1, k3_2) :=
    deriv (t + 0.5 * h) (A1 + 0.5 * h * k2_0) (A2 + 0.5 * h * k2_1)
          (A3 + 0.5 * h * k2_2) p in
  let '(k4_0, k4_1, k4_2) :=
    deriv (t + h) (A1 + h * k3_0) (A2 + h * k3_1) (A3 + h * k3_2) p in
  (A1 + (h / 6) * (k1_0 + 2 * k2_0 + 2 * k3_0 + k4_0),
   A2 + (h / 6) * (k1_1 + 2 * k2_1 + 2 * k3_1 + k4_1),
   A3 + (h / 6) * (k1_2 + 2 * k2_2 + 2 * k3_2 + k4_2)).

(** The step the loop takes from [s]. *)
Definition step_size (s : State) (p : Params) : float :=
  JS.Math_min (dt_min p) (t_end_min p - st_t s).

(** One pass of the loop body below the [break]. *)
Definition rk4_step (s : State) (p : Params) : State :=
  let h := step_size s p in
  let '(A1, A2, A3) := rk4_masses h s p in
  {| st_t := st_t s + h;
     st_A1 := JS.Math_max 0 A1;
     st_A2 := JS.Math_max 0 A2;
     st_A3 := JS.Math_max 0 A3 |}.

Definition init_state (p : Params) : State :=
  {| st_t := 0; st_A1 := bolus_mg p; st_A2 := 0; st_A3 := 0 |}.

Definition nSteps (p : Params) : float :=
  JS.Math_ceil (t_end_min p / dt_min p).

(** The [for] loop of [solveRK4], with the bound [limit] of its counter
    read from [nSteps] before the loop.  [acc] holds the states pushed so
    far, latest first; the result is [None] when [fuel] passes do not reach
    the exit of the loop. *)
Fixpoint rk4_loop (fuel : nat) (p : Params) (limit : option Z) (i : Z)
    (s : State) (acc : list State) : option (list State) :=
  match fuel with
  | O => None
  | S fuel' =>
      if JS.below i limit then
        if JS.geb (st_t s) (t_end_min p) then Some acc
        else
          let s' := rk4_step s p in
          rk4_loop fuel' p limit (JS.incr i) s' (s' :: acc)
      else Some acc
  end.

(** The object [solveRK4] returns. *)
Record Sol : Type := mkSol {
  sol_t : list float;
  sol_A1 : list float;
  sol_A2 : list float;
  sol_A3 : list float;
  sol_C1 : list float
}.

(** The states in the order they were pushed. *)
Definition states_fuel (fuel : nat) (p : Params) : option (list State) :=
  option_map (fun l => rev_append l [])
    (rk4_loop fuel p (JS.counter_limit (nSteps p)) 0%Z (init_state p)
       [init_state p]).

Definition V1 (p : Params) : float := V1_per_kg * weight p.

Definition sol_of_states (p : Params) (l : list State) : Sol :=
  {| sol_t := map st_t l;
     sol_A1 := map st_A1 l;
     sol_A2 := map st_A2 l;
     sol_A3 := map st_A3 l;
     sol_C1 := map (fun a => a / V1 p) (map st_A1 l) |}.

Definition solveRK4_fuel (fuel : nat) (p : Params) : option Sol :=
  option_map (sol_of_states p) (states_fuel fuel p).

(** ** The metrics *)

(** The three accumulators of [computeMetrics]. *)
Record Metrics : Type := mkMetrics {
  cmax : float;
  tmax : float;
  auc : float
}.

(** [a[i]] as a number: an index past the end gives [undefined], which
    arithmetic reads as NaN.  (The sequences of a trace of [solveRK4] have
    the same length, so [computeMetrics] reads no index past the end.) *)
Definition at_index (a : list float) (i : nat) : float := nth i a nan.

Definition metrics_body (sol : Sol) (i : nat) (m : Metrics) : Metrics :=
  let c := at_index (sol_C1 sol) i in
  let '(cm, tm) :=
    if JS.gtb c (cmax m) then (c, at_index (sol_t sol) i)
    else (cmax m, tmax m) in
  let a :=
    match i with
    | O => auc m
    | S j =>
        let dt := at_index (sol_t sol) i - at_index (sol_t sol) j in
        auc m + 0.5 * (at_index (sol_C1 sol) i + at_index (sol_C1 sol) j) * dt
    end in
  {| cmax := cm; tmax := tm; auc := a |}.

(** [n] passes of the loop of [computeMetrics], from index [i]. *)
Fixpoint metrics_loop (sol : Sol) (n i : nat) (m : Metrics) : Metrics :=
  match n with
  | O => m
  | S n' => metrics_loop sol n' (S i) (metrics_body sol i m)
  end.

(** The values [computeMetrics] holds when it formats them for the page. *)
Definition computeMetrics (sol : Sol) : Metrics :=
  metrics_loop sol (List.length (sol_C1 sol)) 0
    {| cmax := neg_infinity; tmax := 0; auc := 0 |}.

(** What [out_cmax] shows: the number, or a dash when [cmax >= 0] fails. *)
Definition cmax_shown (m : Metrics) : option float :=
  if JS.geb (cmax m) 0 then Some (cmax m) else None.

(** ** The update of the page *)

(** [update], up to the drawing of the plots: what [readParams] writes back
    to the page, the trace handed to [renderPlots] and the metrics of
    [computeMetrics]; [None] when [fuel] passes do not end the loop of
    [solveRK4]. *)
Definition update (fuel : nat) (raw : Params)
  : option (Reflected * Sol * Metrics) :=
  let '(p, ui) := readParams_ui raw in
  option_map (fun sol => (ui, sol, computeMetrics sol)) (solveRK4_fuel fuel p).

(** ** Vocabulary of the properties *)

(** A field that is a positive (resp. non-negative) real number. *)
Definition positive_real (x : float) : bool := is_finite x && (0 <? x).
Definition nonneg_real (x : float) : bool := is_finite x && (0 <=? x).

(** The constraints of the data model on a parameter set. *)
Definition normalizedb (p : Params) : bool :=
  positive_real (weight p) && nonneg_real (bolus_mg p)
  && nonneg_real (infusion_mg_min p) && nonneg_real (infusion_duration_min p)
  && positive_real (t_end_min p) && positive_real (dt_min p).

Definition normalized (p : Params) : Prop := normalizedb p = true.

(** The parameter set every guardrail falls back to. *)
Definition defaults : Params :=
  {| weight := 70; bolus_mg := 0; infusion_mg_min := 0;
     infusion_duration_min := 0; t_end_min := 240; dt_min := 0.2 |}.

(** A raw record whose six fields are all unreadable. *)
Definition all_missing : Params :=
  {| weight := nan; bolus_mg := nan; infusion_mg_min := nan;
     infusion_duration_min := nan; t_end_min := nan; dt_min := nan |}.

(** The parameter set with another weight. *)
Definition set_weight (p : Params) (w : float) : Params :=
  {| weight := w;
     bolus_mg := bolus_mg p;
     infusion_mg_min := infusion_mg_min p;
     infusion_duration_min := infusion_duration_min p;
     t_end_min := t_end_min p;
     dt_min := dt_min p |}.

(** A mass that is not below zero: a number [>= 0]. *)
Definition nonneg (x : float) : Prop := (0 <=? x) = true.

(** A mass that is never negative but may be NaN. *)
Definition not_negative (x : float) : Prop :=
  (x <? 0) = false /\ (is_nan x = true \/ (0 <=? x) = true).

(** [x] is [+0] or [-0]. *)
Definition zero_valued (x : float) : Prop := is_zero x = true.

(** A concentration that takes part in the maximum: a number above
    [-Infinity]. *)
Definition above_neg_inf (x : float) : Prop := (neg_infinity <? x) = true.

(** [m] holds the maximum of the concentrations of [sol] and the time of
    the first index that attains it. *)
Definition peak_at_first_max (sol : Sol) (m : Metrics) : Prop :=
  exists k : nat,
    (k < List.length (sol_C1 sol))%nat /\
    cmax m = at_index (sol_C1 sol) k /\
    tmax m = at_index (sol_t sol) k /\
    (forall j, (j < List.length (sol_C1 sol))%nat ->
               (at_index (sol_C1 sol) j <=? cmax m) = true) /\
    (forall j, (j < k)%nat -> (at_index (sol_C1 sol) j <? cmax m) = true).

(** The exact value of [|x|] for a finite double, as a rational. *)
Definition abs_exact (x : spec_float) : Q :=
  match x with
  | S754_finite _ m e =>
      if (0 <=? e)%Z then inject_Z (Z.pos m * 2 ^ e)
      else Qmake (Z.pos m) (Z.to_pos (2 ^ (- e)))
  | _ => 0%Q
  end.

(** The rational a [Fixed] text denotes, sign apart. *)
Definition fixed_exact (n : Z) : Q := Qmake n 10000.

(** ** Vocabulary of the binary64 format

    What the proofs say about the value [Prim2SF x] of a double. *)

(** [x] is a zero, a finite number or an infinity whose sign bit is [s]. *)
Definition signed (s : bool) (x : spec_float) : Prop :=
  match x with
  | S754_zero s' | S754_infinity s' | S754_finite s' _ _ => s' = s
  | S754_nan => False
  end.

(** [x] is a zero or a finite number. *)
Definition finite_or_zero (x : spec_float) : Prop :=
  match x with
  | S754_zero _ | S754_finite _ _ _ => True
  | _ => False
  end.

(** [x] is [+0] or a positive finite number. *)
Definition finite_nonneg (x : spec_float) : Prop :=
  match x with
  | S754_zero false | S754_finite false _ _ => True
  | _ => False
  end.

(** [x] is NaN or not below zero: a zero, a positive number or
    [+Infinity]. *)
Definition nan_or_nonneg (x : spec_float) : Prop :=
  match x with
  | S754_infinity true | S754_finite true _ _ => False
  | _ => True
  end.

(** The position of the leading bit of a finite number: [m * 2^e] lies
    below [2^(magnitude x)]; [-1074] for the other values. *)
Definition magnitude (x : spec_float) : Z :=
  match x with
  | S754_finite _ m e => (Zdigits2 (Z.pos m) + e)%Z
  | _ => (-1074)%Z
  end.

(** The exact value of a double, sign apart, in units of [2^-1074], the
    least positive double: every finite double is a multiple of it. *)
Definition scaled (x : spec_float) : Z :=
  match x with
  | S754_finite _ m e => (Z.pos m * 2 ^ (e + 1074))%Z
  | _ => 0%Z
  end.

(** The exponent, in the same units, of the last bit the format keeps of
    a value [N]. *)
Definition grid (N : Z) : Z := Z.max (Zdigits2 N - 53) 0.

(** [r] is what rounding makes of [N / 2^g]: the quotient or its successor,
    and the quotient when the division is exact. *)
Definition rounded (N g r : Z) : Prop :=
  (N / 2 ^ g <= r <= N / 2 ^ g + 1)%Z /\ (N mod 2 ^ g = 0 -> r = N / 2 ^ g)%Z.

(** A shift record whose round and sticky bits are clear. *)
Definition exact_record (mrs : shr_record) : Prop :=
  shr_r mrs = false /\ shr_s mrs = false /\ (0 <= shr_m mrs)%Z.

(** [MAX_STEPS] in the format: [20000 = 5497558138880000 * 2^-38]. *)
Definition cap_number : spec_float := S754_finite false 5497558138880000 (-38).

Definition F_zero (x : float) : Prop := exists s, Prim2SF x = S754_zero s.
Definition F_finz (x : float) : Prop := finite_or_zero (Prim2SF x).
Definition F_fnn (x : float) : Prop := finite_nonneg (Prim2SF x).
Definition F_nn (x : float) : Prop := signed false (Prim2SF x).

(** The exact value of a number of the script, in units of [2^-1074]. *)
Definition sc (x : float) : Z := scaled (Prim2SF x).

(** ** Vocabulary of the loops *)

(** The three masses of a state are never negative. *)
Definition masses_not_negative (s : State) : Prop :=
  not_negative (st_A1 s) /\ not_negative (st_A2 s) /\ not_negative (st_A3 s).

(** The counter leaves the loop of [solveRK4] after [n] passes at the
    latest: [n] is an integer a double counts up to, and [n < nSteps] fails. *)
Definition counter_bound (p : Params) (n : Z) : Prop :=
  (0 <= n <= 2 ^ 53)%Z /\ JS.below n (JS.counter_limit (nSteps p)) = false.

(** No drug enters: the infusion term is [0] at every time. *)
Definition no_dose (p : Params) : Prop := forall t, doseRate t p = 0.

(** A state of the run without dose: the time is a number that is not
    negative and the three masses are zeros. *)
Definition zero_state (s : State) : Prop :=
  F_nn (st_t s) /\ F_zero (st_A1 s) /\ F_zero (st_A2 s) /\ F_zero (st_A3 s).

(** The time variable of the loop: a finite number that is not negative
    and not above the horizon; it is 0, or at least one full step, or the
    horizon. *)
Definition time_inv (p : Params) (t : float) : Prop :=
  F_fnn t /\ (sc t <= sc (t_end_min p))%Z
  /\ (sc t = 0 \/ sc (dt_min p) <= sc t \/ sc (t_end_min p) <= sc t)%Z.

(** A time stamp of a trace: a number from 0 to the horizon. *)
Definition within_horizon (p : Params) (t : float) : Prop :=
  (0 <=? t) = true /\ (t <=? t_end_min p) = true.

(** The peak found among the first [i] samples. *)
Definition peak_inv (sol : Sol) (i : nat) (m : Metrics) : Prop :=
  exists k : nat,
    (k < i)%nat /\
    cmax m = at_index (sol_C1 sol) k /\
    tmax m = at_index (sol_t sol) k /\
    (forall j, (j < i)%nat -> (at_index (sol_C1 sol) j <=? cmax m) = true) /\
    (forall j, (j < k)%nat -> (at_index (sol_C1 sol) j <? cmax m) = true).

(** What the page shows for the step reads back as the step in use. *)
Definition reflected_equals_effective (raw : Params) : Prop :=
  match input_dt_value (snd (readParams_ui raw)) with
  | Some txt => JS.read_back txt = dt_min (readParams raw)
  | None => True
  end.

(** ** Vocabulary of the traces *)

(** Consecutive entries of a list are related by [R]. *)
Fixpoint chain {A : Type} (R : A -> A -> Prop) (l : list A) : Prop :=
  match l with
  | a :: (b :: _) as tl => R a b /\ chain R tl
  | _ => True
  end.

(** One pass of the loop of [solveRK4] leads from [s] to [s']. *)
Definition pass (p : Params) (s s' : State) : Prop :=
  JS.geb (st_t s) (t_end_min p) = false /\ s' = rk4_step s p.

(** One of the masses of a state is NaN; all of them are. *)
Definition some_mass_nan (s : State) : Prop :=
  is_nan (st_A1 s) = true \/ is_nan (st_A2 s) = true
  \/ is_nan (st_A3 s) = true.

Definition all_masses_nan (s : State) : Prop :=
  is_nan (st_A1 s) = true /\ is_nan (st_A2 s) = true
  /\ is_nan (st_A3 s) = true.

(** The horizon is less than [2^50] steps long. *)
Definition step_resolved (p : Params) : Prop :=
  (sc (t_end_min p) < 2 ^ 50 * sc (dt_min p))%Z.

(** What the loop of [computeMetrics] holds after the first [i] samples of
    a trace whose concentrations are never negative: nothing yet, every
    sample so far being NaN, or a sample that is not negative and its
    time. *)
Definition peak_found (sol : Sol) (i : nat) (m : Metrics) : Prop :=
  (cmax m = neg_infinity /\ tmax m = 0
   /\ forall j, (j < i)%nat -> is_nan (at_index (sol_C1 sol) j) = true)
  \/ (exists k, (k < i)%nat
                /\ cmax m = at_index (sol_C1 sol) k
                /\ tmax m = at_index (sol_t sol) k
                /\ (0 <=? cmax m) = true).

(** ** Inputs used as examples *)

(** A horizon of 4.9 min with a step of 0.0001 min: 49000 steps asked. *)
Definition raw_short_horizon : Params :=
  {| weight := 70; bolus_mg := 100; infusion_mg_min := 0;
     infusion_duration_min := 0; t_end_min := 4.9; dt_min := 0.0001 |}.

(** One step as long as the horizon, both near the largest double. *)
Definition raw_huge_step : Params :=
  {| weight := 70; bolus_mg := 100; infusion_mg_min := 0;
     infusion_duration_min := 0; t_end_min := 1e308; dt_min := 1e308 |}.

(** The smallest positive weight, and no dose. *)
Definition raw_tiny_weight : Params :=
  {| weight := 0x1p-1074; bolus_mg := 0; infusion_mg_min := 0;
     infusion_duration_min := 0; t_end_min := 1; dt_min := 0.5 |}.

(** A horizon of 1 min with a step of 0.000001 min. *)
Definition raw_unit_horizon : Params :=
  {| weight := 70; bolus_mg := 100; infusion_mg_min := 0;
     infusion_duration_min := 0; t_end_min := 1; dt_min := 0.000001 |}.

(** A bolus followed by an infusion of 10 mg/min over 30 min. *)
Definition raw_infusion : Params :=
  {| weight := 70; bolus_mg := 100; infusion_mg_min := 10;
     infusion_duration_min := 30; t_end_min := 1; dt_min := 0.5 |}.

(** No dose at all, two steps. *)
Definition raw_no_dose : Params :=
  {| weight := 70; bolus_mg := 0; infusion_mg_min := 0;
     infusion_duration_min := 30; t_end_min := 1; dt_min := 0.5 |}.

(** A trace of one sample whose concentration is NaN. *)
Definition nan_sample : Sol :=
  {| sol_t := [5]; sol_A1 := [0]; sol_A2 := [0]; sol_A3 := [0];
     sol_C1 := [nan] |}.

(** A trace whose largest concentration occurs twice. *)
Definition tie_sample : Sol :=
  {| sol_t := [1; 2; 3; 4]; sol_A1 := [0; 0; 0; 0]; sol_A2 := [0; 0; 0; 0];
     sol_A3 := [0; 0; 0; 0]; sol_C1 := [2; 7; 7; 1] |}.

(** A horizon of the least positive double with a step of 4 min. *)
Definition raw_tiny_horizon : Params :=
  {| weight := 70; bolus_mg := 100; infusion_mg_min := 0;
     infusion_duration_min := 0; t_end_min := 0x1p-1074; dt_min := 4 |}.

(** A bolus of 100 mg over a horizon of 1e308 min, in two steps. *)
Definition raw_overflow : Params :=
  {| weight := 70; bolus_mg := 100; infusion_mg_min := 0;
     infusion_duration_min := 0; t_end_min := 1e308; dt_min := 5e307 |}.

(** A horizon of 1 min with a step of 5 min. *)
Definition raw_long_step : Params :=
  {| weight := 70; bolus_mg := 100; infusion_mg_min := 10;
     infusion_duration_min := 30; t_end_min := 1; dt_min := 5 |}.

(** * Proofs *)

(** ** Tactics *)

(** Case analysis on the comparisons that [SFcompare] makes. *)
Ltac split_compare :=
  repeat match goal with
  | H : context [Pos.compare_cont Eq ?a ?b] |- _ =>
      change (Pos.compare_cont Eq a b) with (Pos.compare a b) in H
  | |- context [Pos.compare_cont Eq ?a ?b] =>
      change (Pos.compare_cont Eq a b) with (Pos.compare a b)
  end;
  repeat match goal with
  | H : context [Z.compare ?a ?b] |- _ => destruct (Z.compare_spec a b)
  | |- context [Z.compare ?a ?b] => destruct (Z.compare_spec a b)
  | H : context [Pos.compare ?a ?b] |- _ => destruct (Pos.compare_spec a b)
  | |- context [Pos.compare ?a ?b] => destruct (Pos.compare_spec a b)
  end.

Ltac order_cases :=
  simpl in *; try discriminate; try reflexivity; try lia;
  split_compare; subst; simpl in *;
  try discriminate; try reflexivity; try lia.

Ltac sf_cases x := destruct x as [[|]|[|]| |[|] ? ?].

(** ** Rounding in the binary64 format *)

Section Binary64.

Local Open Scope Z_scope.

(** *** Digits *)

Lemma digits2_pos_size (p : positive) : digits2_pos p = Pos.size p.
Proof. induction p; simpl; congruence. Qed.

Lemma Zdigits2_log2 (m : Z) : 0 < m -> Zdigits2 m = Z.log2 m + 1.
Proof.
  destruct m as [|p|p]; try lia. intros _. simpl.
  rewrite digits2_pos_size. destruct p; simpl; lia.
Qed.

Lemma Zdigits2_nonneg (m : Z) : 0 <= Zdigits2 m.
Proof. destruct m; simpl; lia. Qed.

Lemma Zdigits2_pos (m : Z) : 0 < m -> 0 < Zdigits2 m.
Proof. destruct m; simpl; lia. Qed.

Lemma Zdigits2_bounds (m : Z) :
  0 < m -> 2 ^ (Zdigits2 m - 1) <= m < 2 ^ Zdigits2 m.
Proof.
  intros Hm. rewrite Zdigits2_log2 by exact Hm.
  replace (Z.log2 m + 1 - 1) with (Z.log2 m) by lia.
  apply Z.log2_spec. exact Hm.
Qed.

Lemma Zdigits2_le (m n : Z) : 0 <= m <= n -> Zdigits2 m <= Zdigits2 n.
Proof.
  intros [Hm Hn]. destruct (Z.eq_dec m 0) as [->|Hne].
  - apply Zdigits2_nonneg.
  - rewrite !Zdigits2_log2 by lia.
    pose proof (Z.log2_le_mono m n Hn). lia.
Qed.

Lemma Zdigits2_lt_pow2 (m d : Z) : 0 <= m -> 0 <= d -> m < 2 ^ d -> Zdigits2 m <= d.
Proof.
  intros Hm Hd Hlt. destruct (Z.eq_dec m 0) as [->|Hne]; [simpl; lia|].
  rewrite Zdigits2_log2 by lia.
  apply Z.log2_lt_pow2 in Hlt; lia.
Qed.

Lemma Zdigits2_succ (m : Z) : 0 <= m -> Zdigits2 (m + 1) <= Zdigits2 m + 1.
Proof.
  intros Hm. destruct (Z.eq_dec m 0) as [->|Hne]; [simpl; lia|].
  rewrite !Zdigits2_log2 by lia.
  pose proof (Z.log2_succ_le m). unfold Z.succ in *. lia.
Qed.

Lemma Zdigits2_div_pow2 (m n : Z) :
  0 <= m -> 0 <= n -> Zdigits2 (m / 2 ^ n) <= Z.max 0 (Zdigits2 m - n).
Proof.
  intros Hm Hn. destruct (Z.eq_dec m 0) as [->|Hne].
  - rewrite Z.div_0_l by (apply Z.pow_nonzero; lia). simpl. lia.
  - assert (H2 : 0 < 2 ^ n) by (apply Z.pow_pos_nonneg; lia).
    destruct (Z.eq_dec (m / 2 ^ n) 0) as [E|E]; [rewrite E; simpl; lia|].
    assert (0 < m / 2 ^ n) by (pose proof (Z.div_pos m (2 ^ n) Hm H2); lia).
    assert (n <= Z.log2 m).
    { apply Z.log2_le_pow2; [lia|].
      pose proof (Z.mul_div_le m (2 ^ n) H2). nia. }
    rewrite !Zdigits2_log2 by lia.
    rewrite <- Z.shiftr_div_pow2 by lia.
    rewrite Z.log2_shiftr by lia. lia.
Qed.

Lemma Zdigits2_mul_pow2 (m n : Z) :
  0 < m -> 0 <= n -> Zdigits2 (m * 2 ^ n) = Zdigits2 m + n.
Proof.
  intros Hm Hn.
  assert (0 < 2 ^ n) by (apply Z.pow_pos_nonneg; lia).
  rewrite !Zdigits2_log2 by nia.
  rewrite Z.log2_mul_pow2 by lia. lia.
Qed.

(** *** Shifting right *)

Lemma shr_1_m (mrs : shr_record) :
  0 <= shr_m mrs -> shr_m (shr_1 mrs) = shr_m mrs / 2.
Proof.
  destruct mrs as [m r s]. simpl. intros Hm.
  destruct m as [|[p|p|]|p]; simpl; try lia; try reflexivity.
  - change (Z.pos p~1) with (2 * Z.pos p + 1).
    apply Z.div_unique with (r := 1); lia.
  - change (Z.pos p~0) with (2 * Z.pos p).
    apply Z.div_unique with (r := 0); lia.
Qed.

Lemma iter_shr_1_m (p : positive) :
  forall mrs, 0 <= shr_m mrs ->
              shr_m (iter_pos shr_1 p mrs) = shr_m mrs / 2 ^ Z.pos p.
Proof.
  induction p as [p IH|p IH|]; intros mrs Hm; simpl iter_pos.
  - assert (H1 : 0 <= shr_m (shr_1 mrs)).
    { rewrite shr_1_m by exact Hm. apply Z.div_pos; lia. }
    assert (H2 : 0 <= shr_m (iter_pos shr_1 p (shr_1 mrs))).
    { rewrite IH by exact H1. apply Z.div_pos; [exact H1|].
      apply Z.pow_pos_nonneg; lia. }
    rewrite IH by exact H2. rewrite IH by exact H1. rewrite shr_1_m by exact Hm.
    assert (0 < 2 ^ Z.pos p) by (apply Z.pow_pos_nonneg; lia).
    rewrite !Z.div_div by lia.
    f_equal. replace (Z.pos p~1) with (1 + Z.pos p + Z.pos p) by lia.
    rewrite !Z.pow_add_r by lia. change (2 ^ 1) with 2. ring.
  - assert (H2 : 0 <= shr_m (iter_pos shr_1 p mrs)).
    { rewrite IH by exact Hm. apply Z.div_pos; [exact Hm|].
      apply Z.pow_pos_nonneg; lia. }
    rewrite IH by exact H2. rewrite IH by exact Hm.
    assert (0 < 2 ^ Z.pos p) by (apply Z.pow_pos_nonneg; lia).
    rewrite Z.div_div by lia.
    f_equal. replace (Z.pos p~0) with (Z.pos p + Z.pos p) by lia.
    rewrite Z.pow_add_r by lia. reflexivity.
  - rewrite shr_1_m by exact Hm. reflexivity.
Qed.

Lemma fexp_eq (x : Z) : fexp prec emax x = Z.max (x - 53) (-1074).
Proof. reflexivity. Qed.

Lemma shr_record_of_loc_m (m : Z) (l : location) :
  shr_m (shr_record_of_loc m l) = m.
Proof. destruct l as [|[| |]]; reflexivity. Qed.

Lemma shr_fexp_spec (m e : Z) (l : location) :
  0 <= m ->
  let r := shr_fexp prec emax m e l in
  let e' := Z.max e (fexp prec emax (Zdigits2 m + e)) in
  0 <= shr_m (fst r) /\ snd r = e' /\ shr_m (fst r) = m / 2 ^ (e' - e).
Proof.
  intros Hm. unfold shr_fexp, shr. cbv zeta.
  set (f := fexp prec emax (Zdigits2 m + e)).
  destruct (f - e) as [|p|p] eqn:E; cbn [fst snd].
  - rewrite shr_record_of_loc_m. replace (Z.max e f) with e by lia.
    rewrite Z.sub_diag, Z.pow_0_r, Z.div_1_r. auto.
  - replace (Z.max e f) with (e + Z.pos p) by lia.
    replace (e + Z.pos p - e) with (Z.pos p) by lia.
    rewrite iter_shr_1_m by (rewrite shr_record_of_loc_m; exact Hm).
    rewrite shr_record_of_loc_m. repeat split.
    apply Z.div_pos; [exact Hm | apply Z.pow_pos_nonneg; lia].
  - rewrite shr_record_of_loc_m. replace (Z.max e f) with e by lia.
    rewrite Z.sub_diag, Z.pow_0_r, Z.div_1_r. auto.
Qed.

Lemma round_nearest_even_bounds (m : Z) (l : location) :
  m <= round_nearest_even m l <= m + 1.
Proof.
  destruct l as [|[| |]]; simpl; try lia. destruct (Z.even m); lia.
Qed.

(** The outcome of [binary_round_aux] on a non-negative mantissa. *)
Lemma binary_round_aux_spec (s : bool) (m e : Z) (l : location) :
  0 <= m ->
  let e1 := Z.max e (fexp prec emax (Zdigits2 m + e)) in
  let m1 := m / 2 ^ (e1 - e) in
  exists r,
    m1 <= r <= m1 + 1 /\
    let e2 := Z.max e1 (fexp prec emax (Zdigits2 r + e1)) in
    let m2 := r / 2 ^ (e2 - e1) in
    0 <= m2 /\
    binary_round_aux prec emax s m e l
    = match m2 with
      | Z0 => S754_zero s
      | Z.pos p => if e2 <=? 971 then S754_finite s p e2 else S754_infinity s
      | Z.neg _ => S754_nan
      end.
Proof.
  intros Hm. cbv zeta. unfold binary_round_aux.
  pose proof (shr_fexp_spec m e l Hm) as H1. cbv zeta in H1.
  destruct (shr_fexp prec emax m e l) as [mrs1 e1] eqn:E1.
  cbn [fst snd] in H1. destruct H1 as (H1a & H1b & H1c).
  set (r := round_nearest_even (shr_m mrs1) (loc_of_shr_record mrs1)).
  pose proof (round_nearest_even_bounds (shr_m mrs1) (loc_of_shr_record mrs1))
    as Hr. fold r in Hr.
  assert (Hr0 : 0 <= r) by lia.
  pose proof (shr_fexp_spec r e1 loc_Exact Hr0) as H2. cbv zeta in H2.
  destruct (shr_fexp prec emax r e1 loc_Exact) as [mrs2 e2] eqn:E2.
  cbn [fst snd] in H2. destruct H2 as (H2a & H2b & H2c).
  subst e1 e2.
  exists r. rewrite <- H1c. split; [exact Hr|].
  rewrite <- H2c. split; [exact H2a|]. reflexivity.
Qed.

Lemma binary_round_aux_signed (s : bool) (m e : Z) (l : location) :
  0 <= m -> signed s (binary_round_aux prec emax s m e l).
Proof.
  intros Hm. destruct (binary_round_aux_spec s m e l Hm) as (r & _ & H0 & ->).
  cbv zeta in *. destruct (r / _) as [|p|p]; simpl; try lia; auto.
  destruct (_ <=? 971); reflexivity.
Qed.

Lemma binary_round_aux_finite (s : bool) (m e : Z) (l : location) :
  0 <= m -> e <= 971 -> Zdigits2 m + e <= 1023 ->
  finite_or_zero (binary_round_aux prec emax s m e l)
  /\ magnitude (binary_round_aux prec emax s m e l)
     <= Z.max (Zdigits2 m + e) (-1074) + 1.
Proof.
  intros Hm He Hd.
  destruct (binary_round_aux_spec s m e l Hm) as (r & Hr & H0 & ->).
  cbv zeta in *.
  set (e1 := Z.max e (fexp prec emax (Zdigits2 m + e))) in *.
  set (m1 := m / 2 ^ (e1 - e)) in *.
  set (e2 := Z.max e1 (fexp prec emax (Zdigits2 r + e1))) in *.
  assert (He1 : e <= e1) by (unfold e1; lia).
  assert (Hm1 : 0 <= m1).
  { unfold m1. apply Z.div_pos; [exact Hm | apply Z.pow_pos_nonneg; lia]. }
  assert (Hd1 : Zdigits2 m1 + e1 <= Z.max (Zdigits2 m + e) e1).
  { pose proof (Zdigits2_div_pow2 m (e1 - e) Hm ltac:(lia)). fold m1 in H. lia. }
  assert (He1' : e1 <= Z.max (Zdigits2 m + e) (-1074)).
  { unfold e1. rewrite fexp_eq. pose proof (Zdigits2_nonneg m). lia. }
  assert (Hdr : Zdigits2 r + e1 <= Z.max (Zdigits2 m + e) (-1074) + 1).
  { pose proof (Zdigits2_le r (m1 + 1) ltac:(lia)).
    pose proof (Zdigits2_succ m1 Hm1). lia. }
  assert (He1'' : e1 <= 971) by (unfold e1; rewrite fexp_eq; lia).
  assert (He2 : e2 <= 971).
  { unfold e2. rewrite fexp_eq. lia. }
  destruct (r / 2 ^ (e2 - e1)) as [|p|p] eqn:E;
    [split; [exact I | cbn [magnitude]; lia] | | lia].
  assert (He12 : e1 <= e2) by (unfold e2; lia).
  pose proof (Zdigits2_div_pow2 r (e2 - e1) ltac:(lia) ltac:(lia)) as Hq.
  rewrite E in Hq.
  pose proof (Zdigits2_pos (Z.pos p) ltac:(lia)) as Hp.
  apply Z.leb_le in He2. rewrite He2. cbn [finite_or_zero magnitude].
  split; [exact I | lia].
Qed.

(** *** Valid doubles *)

Lemma valid_finite (s : bool) (m : positive) (e : Z) :
  valid_binary (S754_finite s m e) = true ->
  -1074 <= e <= 971 /\ Zdigits2 (Z.pos m) <= 53
  /\ (-1074 < e -> Zdigits2 (Z.pos m) = 53).
Proof.
  unfold SpecFloat.valid_binary, bounded, canonical_mantissa.
  rewrite andb_true_iff, Z.eqb_eq, Z.leb_le, fexp_eq.
  change (Z.pos (digits2_pos m)) with (Zdigits2 (Z.pos m)).
  change (emax - prec) with 971. lia.
Qed.

Lemma valid_magnitude (x : spec_float) :
  valid_binary x = true -> -1074 <= magnitude x <= 1024.
Proof.
  destruct x as [s|s| |s m e]; cbn [magnitude]; try lia.
  intros H. apply valid_finite in H.
  pose proof (Zdigits2_pos (Z.pos m) ltac:(lia)). lia.
Qed.

(** *** Aligning mantissas *)

Lemma shl_align_spec (m : positive) (e e' : Z) :
  let r := shl_align m e e' in
  snd r = Z.min e e' /\ Z.pos (fst r) = Z.pos m * 2 ^ (e - snd r).
Proof.
  unfold shl_align. destruct (e' - e) as [|p|p] eqn:E; cbn [fst snd].
  - replace (Z.min e e') with e by lia.
    rewrite Z.sub_diag, Z.pow_0_r. lia.
  - replace (Z.min e e') with e by lia.
    rewrite Z.sub_diag, Z.pow_0_r. lia.
  - replace (Z.min e e') with e' by lia. split; [reflexivity|].
    change (Pos.iter xO m p) with (shift_pos p m).
    rewrite shift_pos_correct, Z.pow_pos_fold.
    replace (e - e') with (Z.pos p) by lia. lia.
Qed.

Lemma aligned_digits (m : positive) (e e' : Z) :
  e' <= e ->
  Zdigits2 (Z.pos m * 2 ^ (e - e')) + e' = Zdigits2 (Z.pos m) + e.
Proof.
  intros H. rewrite Zdigits2_mul_pow2 by lia. lia.
Qed.

(** *** Rounding a signed mantissa *)

Lemma binary_round_signed (s : bool) (m : positive) (e : Z) :
  signed s (binary_round prec emax s m e).
Proof.
  unfold binary_round.
  destruct (shl_align m e _) as [mz ez]. apply binary_round_aux_signed. lia.
Qed.

Lemma binary_round_finite (s : bool) (m : positive) (e : Z) :
  e <= 971 -> Zdigits2 (Z.pos m) + e <= 1023 ->
  finite_or_zero (binary_round prec emax s m e)
  /\ magnitude (binary_round prec emax s m e)
     <= Z.max (Zdigits2 (Z.pos m) + e) (-1074) + 1.
Proof.
  intros He Hd. unfold binary_round.
  pose proof (shl_align_spec m e (fexp prec emax (Z.pos (digits2_pos m) + e)))
    as H. cbv zeta in H.
  destruct (shl_align m e _) as [mz ez]. cbn [fst snd] in H.
  destruct H as [Hez Hmz].
  assert (Hle : ez <= e) by lia.
  pose proof (aligned_digits m e ez Hle) as Hdig. rewrite <- Hmz in Hdig.
  rewrite <- Hdig. apply binary_round_aux_finite; lia.
Qed.

Lemma binary_normalize_signed (m e : Z) :
  0 <= m -> signed false (binary_normalize prec emax m e false).
Proof.
  destruct m as [|p|p]; intros H;
    [reflexivity | apply binary_round_signed | lia].
Qed.

Lemma binary_normalize_finite (m e : Z) :
  e <= 971 -> Zdigits2 m + e <= 1023 ->
  finite_or_zero (binary_normalize prec emax m e false)
  /\ magnitude (binary_normalize prec emax m e false)
     <= Z.max (Zdigits2 m + e) (-1074) + 1.
Proof.
  intros He Hd. destruct m as [|p|p]; cbn [binary_normalize].
  - split; [exact I|]. cbn [magnitude]. lia.
  - apply binary_round_finite; assumption.
  - apply binary_round_finite; assumption.
Qed.

(** *** Order and magnitude of valid doubles *)

Lemma finite_nonneg_signed (x : spec_float) : finite_nonneg x -> signed false x.
Proof. destruct x as [[|]|[|]| |[|] m e]; simpl; tauto. Qed.

Lemma finite_nonneg_finite (x : spec_float) :
  finite_nonneg x -> finite_or_zero x.
Proof. destruct x as [[|]|[|]| |[|] m e]; simpl; tauto. Qed.

Lemma lt_aligned (mx my : positive) (ex ey : Z) :
  valid_binary (S754_finite false mx ex) = true ->
  valid_binary (S754_finite false my ey) = true ->
  SFltb (S754_finite false mx ex) (S754_finite false my ey) = true ->
  Z.pos mx * 2 ^ (ex - Z.min ey ex) < Z.pos my * 2 ^ (ey - Z.min ey ex).
Proof.
  intros Hx Hy. apply valid_finite in Hx, Hy.
  unfold SFltb, SFcompare.
  change (Pos.compare_cont Eq mx my) with (Pos.compare mx my).
  destruct (Z.compare_spec ex ey) as [E|E|E]; try discriminate.
  - destruct (Pos.compare_spec mx my); try discriminate. intros _.
    subst. rewrite Z.min_id, Z.sub_diag, Z.pow_0_r. lia.
  - intros _. replace (Z.min ey ex) with ex by lia.
    rewrite Z.sub_diag, Z.pow_0_r.
    pose proof (Zdigits2_bounds (Z.pos mx) ltac:(lia)) as Bx.
    pose proof (Zdigits2_bounds (Z.pos my) ltac:(lia)) as By.
    assert (Hdy : Zdigits2 (Z.pos my) = 53) by lia.
    rewrite Hdy in By. change (2 ^ (53 - 1)) with 4503599627370496 in By.
    assert (Bx' : Z.pos mx < 2 ^ 53).
    { eapply Z.lt_le_trans; [apply Bx|]. apply Z.pow_le_mono_r; lia. }
    change (2 ^ 53) with 9007199254740992 in Bx'.
    assert (2 ^ 1 <= 2 ^ (ey - ex)) by (apply Z.pow_le_mono_r; lia).
    change (2 ^ 1) with 2 in *. nia.
Qed.

Lemma le_magnitude (x y : spec_float) :
  valid_binary x = true -> valid_binary y = true ->
  finite_nonneg x -> finite_nonneg y ->
  SFleb x y = true -> magnitude x <= magnitude y.
Proof.
  intros Hx Hy Fx Fy.
  destruct x as [[|]|[|]| |[|] mx ex]; try contradiction;
    destruct y as [[|]|[|]| |[|] my ey]; try contradiction;
    unfold SFleb, SFcompare; try discriminate; intros Hle.
  - pose proof (valid_magnitude _ Hy). cbn [magnitude] in *. lia.
  - apply valid_finite in Hx, Hy. cbn [magnitude].
    change (Pos.compare_cont Eq mx my) with (Pos.compare mx my) in Hle.
    destruct (Z.compare_spec ex ey) as [E|E|E]; try discriminate.
    + destruct (Pos.compare_spec mx my); try discriminate; subst.
      * lia.
      * pose proof (Zdigits2_le (Z.pos mx) (Z.pos my) ltac:(lia)). lia.
    + lia.
Qed.

Lemma signed_finite_nonneg (x : spec_float) :
  signed false x -> finite_or_zero x -> finite_nonneg x.
Proof. destruct x as [[|]|[|]| |[|] m e]; simpl; intros; congruence || tauto. Qed.

(** *** Sums of non-negative doubles *)

Lemma SFadd_nonneg (x y : spec_float) :
  finite_nonneg x -> finite_nonneg y -> signed false (SF64add x y).
Proof.
  destruct x as [[|]|[|]| |[|] mx ex]; try contradiction;
    destruct y as [[|]|[|]| |[|] my ey]; try contradiction;
    intros _ _; try reflexivity.
  unfold SF64add, SFadd. apply binary_normalize_signed. simpl. lia.
Qed.

Lemma aligned_pair (mx my : positive) (ex ey : Z) :
  let ez := Z.min ex ey in
  let ax := fst (shl_align mx ex ez) in
  let ay := fst (shl_align my ey ez) in
  Z.pos ax = Z.pos mx * 2 ^ (ex - ez)
  /\ Z.pos ay = Z.pos my * 2 ^ (ey - ez)
  /\ Zdigits2 (Z.pos ax) + ez = Zdigits2 (Z.pos mx) + ex
  /\ Zdigits2 (Z.pos ay) + ez = Zdigits2 (Z.pos my) + ey.
Proof.
  cbv zeta.
  pose proof (shl_align_spec mx ex (Z.min ex ey)) as Hx.
  pose proof (shl_align_spec my ey (Z.min ex ey)) as Hy.
  cbv zeta in Hx, Hy. destruct Hx as [Hx1 Hx2], Hy as [Hy1 Hy2].
  replace (Z.min ex (Z.min ex ey)) with (Z.min ex ey) in Hx1 by lia.
  replace (Z.min ey (Z.min ex ey)) with (Z.min ex ey) in Hy1 by lia.
  rewrite Hx1 in Hx2. rewrite Hy1 in Hy2.
  rewrite Hx2, Hy2. repeat split; apply aligned_digits; lia.
Qed.

(** *** Differences of non-negative doubles *)

Lemma SFsub_pos (x y : spec_float) :
  valid_binary x = true -> valid_binary y = true ->
  finite_nonneg x -> finite_nonneg y ->
  SFltb y x = true ->
  signed false (SF64sub x y)
  /\ (magnitude x <= 1022 ->
      finite_nonneg (SF64sub x y)
      /\ magnitude (SF64sub x y) <= magnitude x + 1).
Proof.
  intros Vx Vy Fx Fy.
  destruct x as [[|]|[|]| |[|] mx ex]; try contradiction;
    destruct y as [[|]|[|]| |[|] my ey]; try contradiction;
    try discriminate; intros Hlt.
  - cbn [SF64sub SFsub]. split; [reflexivity|]. intros _. split; [exact I|].
    cbn [magnitude]. lia.
  - pose proof (lt_aligned my mx ey ex Vy Vx Hlt) as Hd.
    unfold SF64sub, SFsub. cbn [cond_Zopp magnitude] in *.
    change (IntDef.Z.min ex ey) with (Z.min ex ey) in *.
    destruct (aligned_pair mx my ex ey) as (Hx & Hy & Da & _).
    cbv zeta in Hx, Hy, Da.
    set (ax := fst (shl_align mx ex (Z.min ex ey))) in *.
    set (ay := fst (shl_align my ey (Z.min ex ey))) in *.
    rewrite <- Hx, <- Hy in Hd.
    split; [apply binary_normalize_signed; lia|].
    intros Mx. apply valid_finite in Vx, Vy.
    pose proof (Zdigits2_le (Z.pos ax - Z.pos ay) (Z.pos ax) ltac:(lia)) as Hle.
    pose proof (Zdigits2_pos (Z.pos mx) ltac:(lia)) as Hpos.
    pose proof (binary_normalize_finite (Z.pos ax - Z.pos ay) (Z.min ex ey)
                  ltac:(lia) ltac:(lia)) as [Hf Hm].
    split.
    + apply signed_finite_nonneg; [apply binary_normalize_signed; lia | exact Hf].
    + lia.
Qed.

(** *** Products and quotients *)

Lemma SFmul_zero_l (x y : spec_float) :
  (exists s, x = S754_zero s) -> finite_or_zero y ->
  exists s, SF64mul x y = S754_zero s.
Proof.
  intros [s ->]. destruct y as [sy|sy| |sy my ey]; simpl; try tauto;
    intros _; eauto.
Qed.

Lemma SFmul_zero_r (x y : spec_float) :
  finite_or_zero x -> (exists s, y = S754_zero s) ->
  exists s, SF64mul x y = S754_zero s.
Proof.
  intros Hx [s ->]. destruct x as [sx|sx| |sx mx ex]; simpl in *; try tauto;
    eauto.
Qed.

Lemma SFadd_zero (x y : spec_float) :
  (exists s, x = S754_zero s) -> (exists s, y = S754_zero s) ->
  exists s, SF64add x y = S754_zero s.
Proof. intros [[|] ->] [[|] ->]; simpl; eauto. Qed.

Lemma SFsub_zero (x y : spec_float) :
  (exists s, x = S754_zero s) -> (exists s, y = S754_zero s) ->
  exists s, SF64sub x y = S754_zero s.
Proof. intros [[|] ->] [[|] ->]; simpl; eauto. Qed.

Lemma SFdiv_zero (x y : spec_float) :
  (exists s, x = S754_zero s) ->
  signed false y -> (forall s, y <> S754_zero s) ->
  exists s, SF64div x y = S754_zero s.
Proof.
  intros [s ->] Hy Hnz.
  destruct y as [sy|sy| |sy my ey]; simpl in *; try tauto; eauto.
  exfalso. eapply Hnz. reflexivity.
Qed.

Lemma SFmul_half (y : spec_float) :
  valid_binary y = true -> finite_nonneg y ->
  finite_or_zero (SF64mul (S754_finite false 4503599627370496 (-53)) y).
Proof.
  intros Vy Fy.
  destruct y as [[|]|[|]| |[|] my ey]; try contradiction; [exact I|].
  unfold SF64mul, SFmul. apply valid_finite in Vy.
  apply binary_round_aux_finite; try lia.
  rewrite Pos2Z.inj_mul. change (Z.pos 4503599627370496) with (2 ^ 52).
  rewrite Z.mul_comm, Zdigits2_mul_pow2 by lia. lia.
Qed.

Lemma SFmul_pos (x y : spec_float) :
  finite_nonneg x -> finite_nonneg y -> signed false (SF64mul x y).
Proof.
  destruct x as [[|]|[|]| |[|] mx ex]; try contradiction;
    destruct y as [[|]|[|]| |[|] my ey]; try contradiction;
    intros _ _; try reflexivity.
  unfold SF64mul, SFmul. cbn [xorb]. apply binary_round_aux_signed. lia.
Qed.

Lemma SFdiv_six (y : spec_float) :
  valid_binary y = true -> finite_nonneg y ->
  finite_or_zero (SF64div y (S754_finite false 6755399441055744 (-50))).
Proof.
  intros Vy Fy.
  destruct y as [[|]|[|]| |[|] my ey]; try contradiction; [exact I|].
  unfold SF64div, SFdiv, SFdiv_core_binary. apply valid_finite in Vy.
  set (d1 := Zdigits2 (Z.pos my)) in *.
  change (Zdigits2 (Z.pos 6755399441055744)) with 53.
  set (e' := Z.min (fexp prec emax (d1 + ey - (53 + -50))) (ey - -50)).
  set (s := ey - -50 - e').
  set (m' := match s with
             | 0 => Z.pos my
             | Z.pos _ => Z.shiftl (Z.pos my) s
             | Z.neg _ => 0
             end).
  assert (Hs : 0 <= s) by (unfold s, e'; lia).
  assert (Hm' : m' = Z.pos my * 2 ^ s).
  { unfold m'. destruct s as [|p|p] eqn:E; try lia.
    rewrite Z.shiftl_mul_pow2 by lia. reflexivity. }
  pose proof (Z_div_mod m' (Z.pos 6755399441055744) ltac:(lia)) as Hdiv.
  destruct (Z.div_eucl m' (Z.pos 6755399441055744)) as [q r].
  destruct Hdiv as [Hq Hr].
  assert (H2s : 0 < 2 ^ s) by (apply Z.pow_pos_nonneg; lia).
  assert (Hq0 : 0 <= q) by nia.
  assert (He' : e' <= 971) by (unfold e'; rewrite fexp_eq; lia).
  assert (Hqle : q <= m' / 2 ^ 52).
  { apply Z.div_le_lower_bound; [lia|].
    change (2 ^ 52) with 4503599627370496. nia. }
  pose proof (Zdigits2_le q (m' / 2 ^ 52) ltac:(lia)) as Hd.
  pose proof (Zdigits2_div_pow2 m' 52 ltac:(nia) ltac:(lia)) as Hd'.
  rewrite Hm' in Hd' at 2. rewrite Zdigits2_mul_pow2 in Hd' by lia.
  fold d1 in Hd'.
  apply binary_round_aux_finite; lia.
Qed.

(** *** Quotients of positive doubles *)

(** The quotient that [SFdiv] rounds. *)
Lemma SFdiv_core_spec (mx my : positive) (ex ey : Z) :
  let e' := Z.min (fexp prec emax (Zdigits2 (Z.pos mx) + ex
                                   - (Zdigits2 (Z.pos my) + ey))) (ex - ey) in
  let s := ex - ey - e' in
  0 <= s
  /\ SFdiv_core_binary prec emax (Z.pos mx) ex (Z.pos my) ey
     = ((Z.pos mx * 2 ^ s) / Z.pos my, e',
        new_location (Z.pos my) ((Z.pos mx * 2 ^ s) mod Z.pos my)).
Proof.
  cbv zeta. unfold SFdiv_core_binary.
  change (IntDef.Z.min) with Z.min.
  set (e' := Z.min _ _). set (s := ex - ey - e').
  assert (Hs : 0 <= s) by (unfold s, e'; lia).
  split; [exact Hs|].
  assert (Hm : match s with
               | 0 => Z.pos mx
               | Z.pos _ => Z.shiftl (Z.pos mx) s
               | Z.neg _ => 0
               end = Z.pos mx * 2 ^ s).
  { destruct s as [|p|p] eqn:E; try lia.
    rewrite Z.shiftl_mul_pow2 by lia. reflexivity. }
  rewrite Hm. unfold Z.div, Z.modulo.
  destruct (Z.div_eucl (Z.pos mx * 2 ^ s) (Z.pos my)) as [q r]. reflexivity.
Qed.

(** A mantissa that is not zero is not rounded to zero above the least
    exponent. *)
Lemma binary_round_aux_nonzero (s : bool) (m e : Z) (l : location) :
  1 <= m -> -1074 <= e ->
  forall s', binary_round_aux prec emax s m e l <> S754_zero s'.
Proof.
  intros Hm He s'.
  destruct (binary_round_aux_spec s m e l ltac:(lia)) as (r & Hr & H0 & ->).
  cbv zeta in *. rewrite !fexp_eq in *.
  set (e1 := Z.max e (Z.max (Zdigits2 m + e - 53) (-1074))) in *.
  set (m1 := m / 2 ^ (e1 - e)) in *.
  set (e2 := Z.max e1 (Z.max (Zdigits2 r + e1 - 53) (-1074))) in *.
  assert (Hm1 : 1 <= m1).
  { unfold m1. apply Z.div_le_lower_bound; [apply Z.pow_pos_nonneg; lia|].
    rewrite Z.mul_1_r.
    destruct (Z.le_gt_cases e1 e) as [Hle|Hgt].
    - replace (e1 - e) with 0 by (unfold e1 in *; lia). simpl. lia.
    - assert (e1 - e = Zdigits2 m - 53) by (unfold e1 in *; lia).
      pose proof (Zdigits2_bounds m ltac:(lia)) as [Hb _].
      etransitivity; [|exact Hb]. apply Z.pow_le_mono_r; lia. }
  assert (Hr1 : 1 <= r) by lia.
  assert (Hm2 : 1 <= r / 2 ^ (e2 - e1)).
  { apply Z.div_le_lower_bound; [apply Z.pow_pos_nonneg; unfold e2; lia|].
    rewrite Z.mul_1_r.
    destruct (Z.le_gt_cases e2 e1) as [Hle|Hgt].
    - replace (e2 - e1) with 0 by (unfold e2 in *; lia). simpl. lia.
    - assert (e2 - e1 = Zdigits2 r - 53) by (unfold e1, e2 in *; lia).
      pose proof (Zdigits2_bounds r ltac:(lia)) as [Hb _].
      etransitivity; [|exact Hb]. apply Z.pow_le_mono_r; lia. }
  destruct (r / 2 ^ (e2 - e1)) as [|p|p]; try lia.
  destruct (e2 <=? 971); discriminate.
Qed.

(** Nothing but a part above one half is rounded up to the least mantissa. *)
Lemma binary_round_aux_up (s : bool) (e : Z) :
  -1074 <= e ->
  forall s', binary_round_aux prec emax s 0 e (loc_Inexact Gt)
             <> S754_zero s'.
Proof.
  intros He s'. unfold binary_round_aux, shr_fexp, shr.
  cbn [Zdigits2 shr_record_of_loc]. rewrite !fexp_eq.
  destruct (Z.max (0 + e - 53) (-1074) - e) as [|p|p] eqn:E1; try lia;
    cbn [shr_m loc_of_shr_record round_nearest_even];
    change (0 + 1) with 1; cbn [Zdigits2 digits2_pos shr_record_of_loc];
    change (Z.pos 1) with 1; rewrite fexp_eq;
    destruct (Z.max (1 + e - 53) (-1074) - e) as [|q|q] eqn:E2; try lia;
    cbn [shr_m]; destruct (e <=? emax - prec); discriminate.
Qed.

(** A value below [2 ^ k] is rounded to at most [2 ^ k]. *)
Lemma binary_round_aux_below (s : bool) (m e k : Z) (l : location) :
  0 <= m -> e <= k -> -1074 <= k <= 971 -> m < 2 ^ (k - e) ->
  match binary_round_aux prec emax s m e l with
  | S754_zero _ => True
  | S754_finite _ mr er => e <= er /\ Z.pos mr * 2 ^ (er - e) <= 2 ^ (k - e)
  | _ => False
  end.
Proof.
  intros Hm Hek Hk Hlt.
  destruct (binary_round_aux_spec s m e l Hm) as (r & Hr & H0 & ->).
  cbv zeta in *. rewrite !fexp_eq in *.
  pose proof (Zdigits2_lt_pow2 m (k - e) Hm ltac:(lia) Hlt) as Hd.
  set (e1 := Z.max e (Z.max (Zdigits2 m + e - 53) (-1074))) in *.
  set (m1 := m / 2 ^ (e1 - e)) in *.
  assert (He1 : e <= e1 <= k) by (unfold e1; lia).
  assert (P1 : 0 < 2 ^ (e1 - e)) by (apply Z.pow_pos_nonneg; lia).
  assert (Hsplit : 2 ^ (k - e) = 2 ^ (k - e1) * 2 ^ (e1 - e)).
  { rewrite <- Z.pow_add_r by lia. f_equal. lia. }
  assert (Hm1 : 0 <= m1 < 2 ^ (k - e1)).
  { split; [apply Z.div_pos; lia|].
    apply Z.div_lt_upper_bound; [exact P1|]. rewrite Z.mul_comm. lia. }
  assert (Hrk : 0 <= r <= 2 ^ (k - e1)) by lia.
  assert (Hdr : Zdigits2 r <= k - e1 + 1).
  { apply Zdigits2_lt_pow2; try lia.
    rewrite Z.pow_add_r by lia. change (2 ^ 1) with 2. lia. }
  set (e2 := Z.max e1 (Z.max (Zdigits2 r + e1 - 53) (-1074))) in *.
  assert (He2 : e1 <= e2 <= k) by (unfold e2; lia).
  assert (P2 : 0 < 2 ^ (e2 - e1)) by (apply Z.pow_pos_nonneg; lia).
  pose proof (Z.mul_div_le r (2 ^ (e2 - e1)) P2) as Hm2.
  destruct (r / 2 ^ (e2 - e1)) as [|p|p] eqn:E; try lia.
  replace (e2 <=? 971) with true by (symmetry; apply Z.leb_le; lia).
  split; [lia|].
  replace (e2 - e) with ((e2 - e1) + (e1 - e)) by lia.
  rewrite Z.pow_add_r by lia. rewrite Hsplit. nia.
Qed.

Lemma SFdiv_signed (mx my : positive) (ex ey : Z) :
  signed false (SF64div (S754_finite false mx ex) (S754_finite false my ey)).
Proof.
  destruct (SFdiv_core_spec mx my ex ey) as [Hs Hc]. cbv zeta in Hs, Hc.
  unfold SF64div, SFdiv. cbn [xorb]. rewrite Hc.
  apply binary_round_aux_signed. apply Z.div_pos; [|lia].
  pose proof (Z.pow_nonneg 2 (ex - ey - Z.min (fexp prec emax
    (Zdigits2 (Z.pos mx) + ex - (Zdigits2 (Z.pos my) + ey))) (ex - ey))
    ltac:(lia)). nia.
Qed.

Lemma Zdigits2_div_pow2_eq (m n : Z) :
  0 <= n -> 1 <= m / 2 ^ n -> Zdigits2 (m / 2 ^ n) = Zdigits2 m - n.
Proof.
  intros Hn Hq.
  assert (H2 : 0 < 2 ^ n) by (apply Z.pow_pos_nonneg; lia).
  assert (Hm : 0 < m).
  { destruct (Z.lt_ge_cases 0 m) as [?|Hle]; [assumption|].
    pose proof (Z.div_le_upper_bound m (2 ^ n) 0 H2 ltac:(lia)). lia. }
  assert (n <= Z.log2 m).
  { apply Z.log2_le_pow2; [lia|].
    pose proof (Z.mul_div_le m (2 ^ n) H2). nia. }
  rewrite !Zdigits2_log2 by lia.
  rewrite <- Z.shiftr_div_pow2 by lia.
  rewrite Z.log2_shiftr by lia. lia.
Qed.

(** Rounding to nearest does not lower the position of the leading bit. *)
Lemma binary_round_aux_magnitude_ge (s s' : bool) (m e : Z) (l : location)
    (mr : positive) (er : Z) :
  1 <= m ->
  binary_round_aux prec emax s m e l = S754_finite s' mr er ->
  Zdigits2 m + e <= Zdigits2 (Z.pos mr) + er.
Proof.
  intros Hm.
  destruct (binary_round_aux_spec s m e l ltac:(lia)) as (r & Hr & H0 & ->).
  cbv zeta in *.
  set (e1 := Z.max e (fexp prec emax (Zdigits2 m + e))) in *.
  set (m1 := m / 2 ^ (e1 - e)) in *.
  set (e2 := Z.max e1 (fexp prec emax (Zdigits2 r + e1))) in *.
  assert (He1 : e <= e1) by (unfold e1; lia).
  assert (He2 : e1 <= e2) by (unfold e2; lia).
  assert (P1 : 0 < 2 ^ (e1 - e)) by (apply Z.pow_pos_nonneg; lia).
  destruct (r / 2 ^ (e2 - e1)) as [|p|p] eqn:E; try discriminate.
  destruct (e2 <=? 971); try discriminate.
  intros [= _ Hmr Her]. rewrite <- Hmr, <- Her.
  pose proof (Zdigits2_div_pow2_eq r (e2 - e1) ltac:(lia) ltac:(lia)) as Dr.
  rewrite E in Dr.
  assert (Hr1 : 1 <= r).
  { destruct (Z.lt_ge_cases 0 r) as [?|Hle]; [lia|].
    assert (r = 0) by (pose proof (Z.div_pos m (2 ^ (e1 - e))); unfold m1 in *;
                       lia).
    subst r. rewrite Z.div_0_l in E by (apply Z.pow_nonzero; lia).
    discriminate. }
  destruct (Z.lt_ge_cases m1 1) as [Hz|Hp].
  - assert (m < 2 ^ (e1 - e)).
    { destruct (Z.lt_ge_cases m (2 ^ (e1 - e))) as [?|Hge]; [assumption|].
      pose proof (Z.div_le_lower_bound m (2 ^ (e1 - e)) 1 P1 ltac:(lia)).
      unfold m1 in *. lia. }
    pose proof (Zdigits2_lt_pow2 m (e1 - e) ltac:(lia) ltac:(lia) H).
    pose proof (Zdigits2_pos r ltac:(lia)). lia.
  - pose proof (Zdigits2_div_pow2_eq m (e1 - e) ltac:(lia) Hp) as Dm.
    fold m1 in Dm.
    pose proof (Zdigits2_le m1 r ltac:(lia)). lia.
Qed.

(** The leading bit of a quotient of positive doubles. *)
Lemma SFdiv_magnitude (mx my : positive) (ex ey : Z) :
  valid_binary (S754_finite false mx ex) = true ->
  valid_binary (S754_finite false my ey) = true ->
  Zdigits2 (Z.pos mx) + ex - (Zdigits2 (Z.pos my) + ey) <= 1021 ->
  let r := SF64div (S754_finite false mx ex) (S754_finite false my ey) in
  finite_nonneg r
  /\ magnitude r
     <= Z.max (Zdigits2 (Z.pos mx) + ex - (Zdigits2 (Z.pos my) + ey) + 1)
              (-1074) + 1.
Proof.
  intros Vx Vy Hmag. cbv zeta.
  pose proof (valid_finite _ _ _ Vx) as (Hex & Hdx & Hcx).
  pose proof (valid_finite _ _ _ Vy) as (Hey & Hdy & Hcy).
  pose proof (Zdigits2_pos (Z.pos mx) ltac:(lia)) as Hdx0.
  pose proof (Zdigits2_pos (Z.pos my) ltac:(lia)) as Hdy0.
  destruct (SFdiv_core_spec mx my ex ey) as [Hs Hc]. cbv zeta in Hs, Hc.
  rewrite fexp_eq in *.
  set (dx := Zdigits2 (Z.pos mx)) in *. set (dy := Zdigits2 (Z.pos my)) in *.
  set (e' := Z.min (Z.max (dx + ex - (dy + ey) - 53) (-1074)) (ex - ey)) in *.
  set (s := ex - ey - e') in *.
  unfold SF64div, SFdiv. cbn [xorb]. rewrite Hc.
  set (a := Z.pos mx * 2 ^ s) in *.
  assert (P : 0 < 2 ^ s) by (apply Z.pow_pos_nonneg; lia).
  assert (Ha : 0 < a) by (unfold a; nia).
  assert (Hq0 : 0 <= a / Z.pos my) by (apply Z.div_pos; lia).
  assert (Hqle : a / Z.pos my <= a / 2 ^ (dy - 1)).
  { apply Z.div_le_compat_l; [lia|]. split; [apply Z.pow_pos_nonneg; lia|].
    apply (Zdigits2_bounds (Z.pos my)). lia. }
  pose proof (Zdigits2_le _ _ (conj Hq0 Hqle)) as Hd.
  pose proof (Zdigits2_div_pow2 a (dy - 1) ltac:(lia) ltac:(lia)) as Hd'.
  unfold a in Hd' at 2. rewrite Zdigits2_mul_pow2 in Hd' by lia.
  fold dx in Hd'.
  pose proof (binary_round_aux_signed false (a / Z.pos my) e'
                (new_location (Z.pos my) (a mod Z.pos my)) Hq0) as Hsg.
  destruct (binary_round_aux_finite false (a / Z.pos my) e'
              (new_location (Z.pos my) (a mod Z.pos my)) Hq0
              ltac:(unfold e'; lia) ltac:(unfold s, e' in *; lia))
    as [Hfin Hm].
  split.
  - destruct (binary_round_aux prec emax false _ e' _) as [b| | |b m e];
      try contradiction; cbn [signed] in Hsg; subst b; exact I.
  - unfold s, e' in *. lia.
Qed.

(** *** Doubles of integers *)

(** A canonical mantissa with nothing to round is kept. *)
Lemma binary_round_aux_exact (s : bool) (m : positive) (e : Z) :
  fexp prec emax (Zdigits2 (Z.pos m) + e) = e -> e <= 971 ->
  binary_round_aux prec emax s (Z.pos m) e loc_Exact = S754_finite s m e.
Proof.
  intros Hc He. unfold binary_round_aux, shr_fexp.
  rewrite Hc, Z.sub_diag.
  cbn [shr shr_record_of_loc shr_m loc_of_shr_record round_nearest_even].
  rewrite Hc, Z.sub_diag. cbn [shr shr_record_of_loc shr_m].
  change (emax - prec) with 971.
  rewrite (proj2 (Z.leb_le e 971) He). reflexivity.
Qed.

(** The double of a positive integer below [2^53] holds it exactly. *)
Lemma binary_normalize_int (n : positive) :
  Z.pos n < 2 ^ 53 ->
  exists mz ez,
    binary_normalize prec emax (Z.pos n) 0 false = S754_finite false mz ez
    /\ -52 <= ez <= 0 /\ Z.pos mz = Z.pos n * 2 ^ (- ez)
    /\ valid_binary (S754_finite false mz ez) = true.
Proof.
  intros Hn. cbn [binary_normalize]. unfold binary_round.
  pose proof (shl_align_spec n 0 (fexp prec emax (Z.pos (digits2_pos n) + 0)))
    as H. cbv zeta in H.
  destruct (shl_align n 0 _) as [mz ez]. cbn [fst snd] in H.
  destruct H as [Hez Hmz]. rewrite fexp_eq in Hez.
  change (Z.pos (digits2_pos n)) with (Zdigits2 (Z.pos n)) in Hez.
  pose proof (Zdigits2_pos (Z.pos n) ltac:(lia)) as Hd0.
  pose proof (Zdigits2_lt_pow2 (Z.pos n) 53 ltac:(lia) ltac:(lia) Hn) as Hd.
  assert (Ez : ez = Zdigits2 (Z.pos n) - 53) by lia.
  pose proof (aligned_digits n 0 ez ltac:(lia)) as Hdig. rewrite <- Hmz in Hdig.
  assert (Hc : fexp prec emax (Zdigits2 (Z.pos mz) + ez) = ez)
    by (rewrite fexp_eq; lia).
  exists mz, ez. split; [apply binary_round_aux_exact; [exact Hc | lia]|].
  split; [lia|]. split; [rewrite Hmz; f_equal; f_equal; lia|].
  unfold valid_binary, bounded, canonical_mantissa.
  change (Z.pos (digits2_pos mz)) with (Zdigits2 (Z.pos mz)).
  rewrite Hc, Z.eqb_refl. apply Z.leb_le. change (emax - prec) with 971. lia.
Qed.

(** *** Division by the step cap *)

(** A mantissa of a number below [2^14] does not reach the cap. *)
Lemma cap_not_passed (mr er e2 : Z) :
  0 < mr -> e2 <= er -> e2 <= -40 ->
  mr * 2 ^ (er - e2) <= 2 ^ (14 - e2) ->
  5497558138880000 * 2 ^ (-38 - Z.min er (-38))
  < mr * 2 ^ (er - Z.min er (-38)) ->
  False.
Proof.
  intros Hm Ber He2 B L.
  set (mu := Z.min er (-38)) in *.
  assert (Hmu : e2 <= mu <= er /\ mu <= -38) by (unfold mu; lia).
  clearbody mu.
  assert (Pa : 0 < 2 ^ (-38 - mu)) by (apply Z.pow_pos_nonneg; lia).
  assert (Pb : 0 < 2 ^ (mu - e2)) by (apply Z.pow_pos_nonneg; lia).
  assert (H1 : mr * 2 ^ (er - mu) <= 4503599627370496 * 2 ^ (-38 - mu)).
  { apply (Z.mul_le_mono_pos_r _ _ (2 ^ (mu - e2))); [exact Pb|].
    rewrite <- !Z.mul_assoc, <- !Z.pow_add_r by lia.
    replace (er - mu + (mu - e2)) with (er - e2) by lia.
    replace (-38 - mu + (mu - e2)) with (-38 - e2) by lia.
    change 4503599627370496 with (2 ^ 52). rewrite <- Z.pow_add_r by lia.
    replace (52 + (-38 - e2)) with (14 - e2) by lia. exact B. }
  lia.
Qed.

(** A horizon whose quotient by the cap is rounded to zero is at most
    [10000] times the least positive double, and then no quotient of it by
    a positive double exceeds the cap. *)
Lemma SFdiv_cap (mx my : positive) (ex ey : Z) :
  valid_binary (S754_finite false mx ex) = true ->
  valid_binary (S754_finite false my ey) = true ->
  valid_binary (SF64div (S754_finite false mx ex) (S754_finite false my ey))
  = true ->
  SFltb cap_number
        (SF64div (S754_finite false mx ex) (S754_finite false my ey)) = true ->
  exists m e,
    SF64div (S754_finite false mx ex) cap_number = S754_finite false m e.
Proof.
  intros Vx Vy Vq Hlt.
  pose proof (valid_finite _ _ _ Vx) as (Hex & Hdx & Hcx).
  pose proof (valid_finite _ _ _ Vy) as (Hey & Hdy & Hcy).
  pose proof (Zdigits2_pos (Z.pos mx) ltac:(lia)) as Hdx0.
  pose proof (Zdigits2_pos (Z.pos my) ltac:(lia)) as Hdy0.
  destruct (SFdiv_core_spec mx 5497558138880000 ex (-38)) as [Hs1 Hc1].
  cbv zeta in Hs1, Hc1.
  change (Zdigits2 (Z.pos 5497558138880000)) with 53 in *.
  rewrite fexp_eq in *.
  set (dx := Zdigits2 (Z.pos mx)) in *.
  set (e1 := Z.min (Z.max (dx + ex - (53 + -38) - 53) (-1074)) (ex - -38)) in *.
  set (s1 := ex - -38 - e1) in *.
  pose proof (Z_div_mod (Z.pos mx * 2 ^ s1) (Z.pos 5497558138880000)
                ltac:(lia)) as Hdiv.
  unfold Z.div, Z.modulo in Hc1.
  destruct (Z.div_eucl (Z.pos mx * 2 ^ s1) (Z.pos 5497558138880000))
    as [q1 r1].
  destruct Hdiv as [Hq1 Hr1].
  assert (P1 : 0 < 2 ^ s1) by (apply Z.pow_pos_nonneg; lia).
  assert (Hq0 : 0 <= q1) by nia.
  unfold SF64div at 1, SFdiv, cap_number. cbn [xorb]. rewrite Hc1.
  assert (Hqle : q1 <= (Z.pos mx * 2 ^ s1) / 2 ^ 52).
  { apply Z.div_le_lower_bound; [lia|].
    change (2 ^ 52) with 4503599627370496. nia. }
  pose proof (Zdigits2_le q1 _ (conj Hq0 Hqle)) as Hd.
  pose proof (Zdigits2_div_pow2 (Z.pos mx * 2 ^ s1) 52 ltac:(nia) ltac:(lia))
    as Hd'.
  rewrite Zdigits2_mul_pow2 in Hd' by lia. fold dx in Hd'.
  pose proof (binary_round_aux_signed false q1 e1
                (new_location (Z.pos 5497558138880000) r1) Hq0) as Hsg.
  destruct (binary_round_aux_finite false q1 e1
              (new_location (Z.pos 5497558138880000) r1) Hq0
              ltac:(unfold e1; lia) ltac:(unfold s1, e1 in *; lia))
    as [Hfin _].
  destruct (binary_round_aux prec emax false q1 e1
              (new_location (Z.pos 5497558138880000) r1))
    as [b| | |b m e] eqn:E; try contradiction; cbn [signed] in Hsg;
    subst b; [exfalso|eauto].
  (* the quotient by the cap is zero: the horizon is tiny *)
  assert (He1 : -1074 <= e1) by (unfold e1; lia).
  assert (Q : q1 = 0).
  { destruct (Z.eq_dec q1 0) as [Q|Q]; [exact Q|]. exfalso.
    apply (binary_round_aux_nonzero false q1 e1
             (new_location (Z.pos 5497558138880000) r1)
             ltac:(lia) He1 false). exact E. }
  subst q1.
  assert (R : 2 * r1 <= 5497558138880000).
  { destruct (Z.compare_spec (2 * r1) 5497558138880000) as [C|C|C];
      try lia. exfalso.
    assert (L : new_location (Z.pos 5497558138880000) r1 = loc_Inexact Gt).
    { unfold new_location. cbn [Z.even Pos.to_nat].
      change (Z.even (Z.pos 5497558138880000)) with true. cbv iota.
      unfold new_location_even.
      replace (r1 =? 0) with false by (symmetry; apply Z.eqb_neq; lia).
      f_equal. apply Z.compare_gt_iff. exact C. }
    rewrite L in E. exact (binary_round_aux_up false e1 He1 false E). }
  assert (M : Z.pos mx * 2 ^ s1 = r1) by lia.
  assert (D1 : dx + s1 <= 52).
  { unfold dx. rewrite <- (Zdigits2_mul_pow2 (Z.pos mx) s1) by lia.
    apply Zdigits2_lt_pow2; [lia|lia|].
    change (2 ^ 52) with 4503599627370496. lia. }
  assert (E1 : e1 = -1074) by (unfold s1, e1 in *; lia).
  assert (S1 : s1 = (ex + 1074) + 38) by (unfold s1; lia).
  assert (P : 0 < 2 ^ (ex + 1074)) by (apply Z.pow_pos_nonneg; lia).
  assert (T : Z.pos mx * 2 ^ (ex + 1074) <= 10000).
  { rewrite S1, Z.pow_add_r in M by lia.
    change (2 ^ 38) with 274877906944 in M. lia. }
  assert (Dx : dx + (ex + 1074) <= 14).
  { unfold dx. rewrite <- (Zdigits2_mul_pow2 (Z.pos mx) (ex + 1074)) by lia.
    apply Zdigits2_lt_pow2; [lia|lia|]. change (2 ^ 14) with 16384. lia. }
  (* so no quotient of it exceeds the cap *)
  clear E Hc1.
  destruct (SFdiv_core_spec mx my ex ey) as [Hs2 Hc2].
  cbv zeta in Hs2, Hc2. rewrite fexp_eq in *. fold dx in Hs2, Hc2.
  set (dy := Zdigits2 (Z.pos my)) in *.
  set (e2 := Z.min (Z.max (dx + ex - (dy + ey) - 53) (-1074)) (ex - ey)) in *.
  set (s2 := ex - ey - e2) in *.
  unfold SF64div, SFdiv in Hlt, Vq. cbn [xorb] in Hlt, Vq.
  rewrite Hc2 in Hlt, Vq.
  assert (P2 : 0 < 2 ^ s2) by (apply Z.pow_pos_nonneg; lia).
  assert (He2 : e2 <= -40) by (unfold e2; lia).
  assert (B0 : Z.pos mx < 2 ^ (14 - e2 - s2)).
  { assert (Z.pos mx < 2 ^ (14 - (ex + 1074))).
    { apply (Z.mul_lt_mono_pos_r (2 ^ (ex + 1074))); [exact P|].
      rewrite <- Z.pow_add_r by lia.
      replace (14 - (ex + 1074) + (ex + 1074)) with 14 by lia.
      change (2 ^ 14) with 16384. lia. }
    eapply Z.lt_le_trans; [eassumption|].
    apply Z.pow_le_mono_r; unfold s2; lia. }
  assert (B1 : Z.pos mx * 2 ^ s2 < 2 ^ (14 - e2)).
  { replace (14 - e2) with ((14 - e2 - s2) + s2) by lia.
    rewrite Z.pow_add_r by (unfold s2; lia).
    apply Z.mul_lt_mono_pos_r; assumption. }
  assert (B2 : 0 <= Z.pos mx * 2 ^ s2 / Z.pos my < 2 ^ (14 - e2)).
  { split; [apply Z.div_pos; lia|].
    apply Z.div_lt_upper_bound; [lia|].
    assert (0 < 2 ^ (14 - e2)) by (apply Z.pow_pos_nonneg; lia). nia. }
  pose proof (binary_round_aux_below false _ e2 14
                (new_location (Z.pos my) ((Z.pos mx * 2 ^ s2) mod Z.pos my))
                (proj1 B2) ltac:(lia) ltac:(lia) (proj2 B2)) as B.
  pose proof (binary_round_aux_signed false _ e2
                (new_location (Z.pos my) ((Z.pos mx * 2 ^ s2) mod Z.pos my))
                (proj1 B2)) as Sg.
  destruct (binary_round_aux prec emax false _ e2 _)
    as [b| | |b mr er] eqn:E; try contradiction; cbn [signed] in Sg; subst b.
  - discriminate.
  - destruct B as [Ber B].
    assert (Vc : valid_binary cap_number = true) by reflexivity.
    pose proof (lt_aligned _ _ _ _ Vc Vq Hlt) as L.
    exact (cap_not_passed _ er e2 (Pos2Z.is_pos mr) Ber He2 B L).
Qed.

(** The step the cap installs has its leading bit at most 16 places below
    that of the horizon. *)
Lemma SFdiv_cap_magnitude (mx m : positive) (ex e : Z) :
  valid_binary (S754_finite false mx ex) = true ->
  valid_binary (S754_finite false m e) = true ->
  SF64div (S754_finite false mx ex) cap_number = S754_finite false m e ->
  Zdigits2 (Z.pos mx) + ex - 16 <= Zdigits2 (Z.pos m) + e.
Proof.
  intros Vx Vr.
  pose proof (valid_finite _ _ _ Vx) as (Hex & Hdx & Hcx).
  pose proof (valid_finite _ _ _ Vr) as (He & Hd & Hc).
  pose proof (Zdigits2_pos (Z.pos mx) ltac:(lia)) as Hdx0.
  pose proof (Zdigits2_pos (Z.pos m) ltac:(lia)) as Hd0.
  destruct (SFdiv_core_spec mx 5497558138880000 ex (-38)) as [Hs1 Hc1].
  cbv zeta in Hs1, Hc1.
  change (Zdigits2 (Z.pos 5497558138880000)) with 53 in *.
  rewrite fexp_eq in *.
  set (dx := Zdigits2 (Z.pos mx)) in *.
  set (e1 := Z.min (Z.max (dx + ex - (53 + -38) - 53) (-1074)) (ex - -38)) in *.
  set (s1 := ex - -38 - e1) in *.
  unfold SF64div, SFdiv, cap_number. cbn [xorb]. rewrite Hc1.
  set (a := Z.pos mx * 2 ^ s1) in *.
  assert (P : 0 < 2 ^ s1) by (apply Z.pow_pos_nonneg; lia).
  assert (Ha : 0 < a) by (unfold a; nia).
  assert (Da : Zdigits2 a = dx + s1)
    by (unfold a; rewrite Zdigits2_mul_pow2 by lia; reflexivity).
  intros E.
  destruct (Z.lt_ge_cases (a / 5497558138880000) 1) as [Hz|Hp].
  - assert (a < 5497558138880000).
    { destruct (Z.lt_ge_cases a 5497558138880000) as [?|Hge]; [assumption|].
      pose proof (Z.div_le_lower_bound a 5497558138880000 1 ltac:(lia)
                    ltac:(lia)). lia. }
    pose proof (Zdigits2_lt_pow2 a 53 ltac:(lia) ltac:(lia)
                  ltac:(change (2 ^ 53) with 9007199254740992; lia)).
    unfold s1, e1 in *. lia.
  - pose proof (binary_round_aux_magnitude_ge _ _ _ _ _ _ _ Hp E) as G.
    assert (Zdigits2 a - 53 <= Zdigits2 (a / 5497558138880000)).
    { destruct (Z.lt_ge_cases (a / 2 ^ 53) 1) as [Hz'|Hp'].
      - assert (a < 2 ^ 53).
        { destruct (Z.lt_ge_cases a (2 ^ 53)) as [?|Hge]; [assumption|].
          pose proof (Z.div_le_lower_bound a (2 ^ 53) 1 ltac:(lia)
                        ltac:(lia)). lia. }
        pose proof (Zdigits2_lt_pow2 a 53 ltac:(lia) ltac:(lia) H).
        pose proof (Zdigits2_pos (a / 5497558138880000) ltac:(lia)). lia.
      - rewrite <- (Zdigits2_div_pow2_eq a 53 ltac:(lia) Hp').
        apply Zdigits2_le. split; [lia|].
        apply Z.div_le_compat_l; [lia|].
        change (2 ^ 53) with 9007199254740992. lia. }
    unfold s1, e1 in *. lia.
Qed.

(** *** Exact values of sums and differences *)

(** Nothing is lost by shifting out bits that are zero. *)
Lemma shr_1_exact (mrs : shr_record) :
  exact_record mrs -> (2 | shr_m mrs) -> exact_record (shr_1 mrs).
Proof.
  destruct mrs as [m r s]. unfold exact_record. cbn [shr_r shr_s shr_m].
  intros (-> & -> & Hm) [q Hq].
  destruct m as [|[p|p|]|p]; cbn; try lia; repeat split; try lia.
Qed.

Lemma divide_pow2_div (m a b : Z) :
  0 <= a -> 0 <= b -> (2 ^ (a + b) | m) -> (2 ^ b | m / 2 ^ a).
Proof.
  intros Ha Hb [q Hq]. exists q. subst m.
  rewrite Z.pow_add_r by lia.
  replace (q * (2 ^ a * 2 ^ b)) with (q * 2 ^ b * 2 ^ a) by ring.
  apply Z.div_mul. apply Z.pow_nonzero; lia.
Qed.

Lemma divide_pow2_le (m a b : Z) :
  0 <= a <= b -> (2 ^ b | m) -> (2 ^ a | m).
Proof.
  intros Hab [q Hq]. exists (q * 2 ^ (b - a)). subst m.
  replace b with ((b - a) + a) at 1 by lia.
  rewrite Z.pow_add_r by lia. ring.
Qed.

Lemma iter_shr_1_exact (p : positive) :
  forall mrs, exact_record mrs -> (2 ^ Z.pos p | shr_m mrs) ->
              exact_record (iter_pos shr_1 p mrs).
Proof.
  induction p as [p IH|p IH|]; intros mrs Hx Hd; simpl iter_pos.
  - assert (H1 : exact_record (shr_1 mrs)).
    { apply shr_1_exact; [exact Hx|].
      apply (divide_pow2_le _ 1 (Z.pos p~1)); [lia | exact Hd]. }
    assert (D1 : (2 ^ (Z.pos p + Z.pos p) | shr_m (shr_1 mrs))).
    { rewrite shr_1_m by apply Hx. change 2 with (2 ^ 1) at 2.
      apply divide_pow2_div; try lia.
      replace (1 + (Z.pos p + Z.pos p)) with (Z.pos p~1) by lia. exact Hd. }
    apply IH.
    + apply IH; [exact H1|].
      apply (divide_pow2_le _ _ (Z.pos p + Z.pos p)); [lia | exact D1].
    + rewrite iter_shr_1_m by apply H1. apply divide_pow2_div; try lia.
      exact D1.
  - assert (D1 : (2 ^ (Z.pos p + Z.pos p) | shr_m mrs)).
    { replace (Z.pos p + Z.pos p) with (Z.pos p~0) by lia. exact Hd. }
    apply IH.
    + apply IH; [exact Hx|].
      apply (divide_pow2_le _ _ (Z.pos p + Z.pos p)); [lia | exact D1].
    + rewrite iter_shr_1_m by apply Hx. apply divide_pow2_div; try lia.
      exact D1.
  - apply shr_1_exact; [exact Hx|]. exact Hd.
Qed.

Lemma shr_fexp_exact (m e : Z) :
  0 <= m ->
  (2 ^ (Z.max e (fexp prec emax (Zdigits2 m + e)) - e) | m) ->
  loc_of_shr_record (fst (shr_fexp prec emax m e loc_Exact)) = loc_Exact.
Proof.
  intros Hm. unfold shr_fexp, shr.
  set (f := fexp prec emax (Zdigits2 m + e)).
  destruct (f - e) as [|p|p] eqn:E; cbn [fst shr_record_of_loc];
    try reflexivity.
  replace (Z.max e f - e) with (Z.pos p) by lia. intros Hd.
  destruct (iter_shr_1_exact p {| shr_m := m; shr_r := false; shr_s := false |})
    as (Hr & Hs & _).
  - repeat split. exact Hm.
  - exact Hd.
  - destruct (iter_pos shr_1 p _) as [m' r' s']. cbn in Hr, Hs. subst.
    reflexivity.
Qed.

(** A multiple of [2^g] below [2^T], with a factor of [2^k] at least. *)
Lemma pow2_below (r g k T : Z) :
  0 <= k -> 0 <= g -> 2 ^ k <= r -> r * 2 ^ g < 2 ^ T -> k + g < T.
Proof.
  intros Hk Hg Hr Hlt.
  destruct (Z.lt_ge_cases (k + g) T) as [H|H]; [exact H|exfalso].
  apply (Z.lt_irrefl (2 ^ T)). eapply Z.le_lt_trans; [|exact Hlt].
  transitivity (2 ^ (k + g)); [apply Z.pow_le_mono_r; lia|].
  rewrite Z.pow_add_r by lia.
  apply Z.mul_le_mono_nonneg_r; [apply Z.pow_nonneg; lia | exact Hr].
Qed.

(** The value a rounding returns, whatever was cut off before it: with
    [e1] the exponent of the format for the input, the multiple [r * 2^e1]
    just below or just above the input, and the input itself when it is
    such a multiple and nothing was cut off. *)
Lemma binary_round_aux_value_loc (s : bool) (m e : Z) (l : location) :
  0 <= m -> e <= fexp prec emax (Zdigits2 m + e) ->
  let e1 := fexp prec emax (Zdigits2 m + e) in
  let z := binary_round_aux prec emax s m e l in
  exists r,
    m / 2 ^ (e1 - e) <= r <= m / 2 ^ (e1 - e) + 1
    /\ (l = loc_Exact -> (2 ^ (e1 - e) | m) -> r = m / 2 ^ (e1 - e))
    /\ (r * 2 ^ (e1 + 1074) < 2 ^ 2098 ->
        finite_or_zero z /\ signed s z /\ scaled z = r * 2 ^ (e1 + 1074)).
Proof.
  intros Hm Hc. cbv zeta. unfold binary_round_aux.
  pose proof (shr_fexp_spec m e l Hm) as H1. cbv zeta in H1.
  pose proof (shr_fexp_exact m e Hm) as Hx.
  set (e1 := fexp prec emax (Zdigits2 m + e)) in *.
  replace (Z.max e e1) with e1 in * by lia.
  destruct (shr_fexp prec emax m e l) as [mrs1 e1'] eqn:E1.
  cbn [fst snd] in H1. destruct H1 as (H1a & H1b & H1c). subst e1'.
  set (m1 := m / 2 ^ (e1 - e)) in *.
  set (r := round_nearest_even (shr_m mrs1) (loc_of_shr_record mrs1)).
  pose proof (round_nearest_even_bounds (shr_m mrs1) (loc_of_shr_record mrs1))
    as Hr. fold r in Hr. rewrite H1c in Hr.
  assert (Hr0 : 0 <= r) by lia.
  pose proof (shr_fexp_spec r e1 loc_Exact Hr0) as H2. cbv zeta in H2.
  destruct (shr_fexp prec emax r e1 loc_Exact) as [mrs2 e2] eqn:E2.
  cbn [fst snd] in H2. destruct H2 as (H2a & H2b & H2c).
  rewrite <- H2b in H2c.
  exists r. split; [exact Hr|]. split.
  { intros -> Hd. rewrite E1 in Hx. cbn [fst] in Hx.
    unfold r. rewrite (Hx Hd). cbn [round_nearest_even]. exact H1c. }
  intros Hlt.
  assert (He1 : -1074 <= e1) by (unfold e1; rewrite fexp_eq; lia).
  assert (Hk : 0 <= e1 - e) by lia.
  assert (P1 : 0 < 2 ^ (e1 - e)) by (apply Z.pow_pos_nonneg; lia).
  assert (Pg : 0 < 2 ^ (e1 + 1074)) by (apply Z.pow_pos_nonneg; lia).
  assert (Hd1 : Zdigits2 m1 <= 53).
  { pose proof (Zdigits2_div_pow2 m (e1 - e) Hm Hk) as H. fold m1 in H.
    unfold e1 in *. rewrite fexp_eq in *. lia. }
  assert (Hm1 : m1 < 2 ^ 53).
  { destruct (Z.eq_dec m1 0) as [->|Hne]; [reflexivity|].
    pose proof (Zdigits2_bounds m1 ltac:(lia)) as [_ Hb].
    eapply Z.lt_le_trans; [exact Hb|]. apply Z.pow_le_mono_r; lia. }
  assert (Hbig : -1074 < e1 -> 2 ^ 52 <= r).
  { intros Hgt.
    assert (Ee : e1 = Zdigits2 m + e - 53)
      by (unfold e1 in *; rewrite fexp_eq in *; lia).
    assert (Hm0 : 0 < m).
    { destruct (Z.eq_dec m 0) as [->|]; [|lia]. simpl in Ee. lia. }
    pose proof (Zdigits2_bounds m Hm0) as [Hlo _].
    assert (1 <= m1).
    { apply Z.div_le_lower_bound; [exact P1|]. rewrite Z.mul_1_r.
      etransitivity; [|exact Hlo]. apply Z.pow_le_mono_r; lia. }
    pose proof (Zdigits2_div_pow2_eq m (e1 - e) Hk H) as Hd. fold m1 in Hd.
    pose proof (Zdigits2_bounds m1 ltac:(lia)) as [Hlo1 _].
    replace (Zdigits2 m1 - 1) with 52 in Hlo1 by lia. lia. }
  change (2 ^ 53) with 9007199254740992 in Hm1.
  change (2 ^ 52) with 4503599627370496 in Hbig.
  destruct (Z.eq_dec r 9007199254740992) as [Er|Nr].
  - (* the mantissa was rounded up to 2^53 *)
    assert (E2' : e2 = e1 + 1).
    { rewrite H2b, Er, fexp_eq. change (Zdigits2 9007199254740992) with 54.
      lia. }
    assert (M2 : shr_m mrs2 = 4503599627370496).
    { rewrite H2c, E2', Er. replace (e1 + 1 - e1) with 1 by lia. reflexivity. }
    rewrite M2.
    pose proof (pow2_below r (e1 + 1074) 53 2098 ltac:(lia) ltac:(lia)
                  ltac:(rewrite Er; reflexivity) Hlt) as Htop.
    clear Hlt.
    replace (e2 <=? emax - prec) with true
      by (symmetry; apply Z.leb_le; change (emax - prec) with 971; lia).
    cbn [finite_or_zero signed scaled]. repeat split.
    rewrite E2', Er. replace (e1 + 1 + 1074) with (1 + (e1 + 1074)) by lia.
    rewrite Z.pow_add_r by lia. change (2 ^ 1) with 2. lia.
  - assert (Hr53 : r < 9007199254740992) by lia.
    assert (Hdr : Zdigits2 r <= 53).
    { apply Zdigits2_lt_pow2; [lia | lia|].
      change (2 ^ 53) with 9007199254740992. exact Hr53. }
    assert (E2' : e2 = e1) by (rewrite H2b, fexp_eq; lia).
    assert (M2 : shr_m mrs2 = r).
    { rewrite H2c, E2', Z.sub_diag, Z.pow_0_r, Z.div_1_r. reflexivity. }
    rewrite M2, E2'.
    destruct r as [|p|p] eqn:Ep; try lia.
    + cbn [finite_or_zero signed scaled]. repeat split.
    + assert (e1 <= 971).
      { destruct (Z.le_gt_cases e1 971) as [?|Hgt]; [assumption|exfalso].
        specialize (Hbig ltac:(lia)).
        pose proof (pow2_below (Z.pos p) (e1 + 1074) 52 2098 ltac:(lia)
                      ltac:(lia) Hbig Hlt) as Htop.
        clear Hlt. lia. }
      clear Hlt.
      replace (e1 <=? emax - prec) with true
        by (symmetry; apply Z.leb_le; change (emax - prec) with 971; lia).
      cbn [finite_or_zero signed scaled]. repeat split.
Qed.

(** The same when nothing was cut off. *)
Lemma binary_round_aux_value (s : bool) (m e : Z) :
  0 <= m -> -1074 <= e -> e <= fexp prec emax (Zdigits2 m + e) ->
  let e1 := fexp prec emax (Zdigits2 m + e) in
  let z := binary_round_aux prec emax s m e loc_Exact in
  exists r,
    m / 2 ^ (e1 - e) <= r <= m / 2 ^ (e1 - e) + 1
    /\ ((2 ^ (e1 - e) | m) -> r = m / 2 ^ (e1 - e))
    /\ (r * 2 ^ (e1 + 1074) < 2 ^ 2098 ->
        finite_or_zero z /\ signed s z /\ scaled z = r * 2 ^ (e1 + 1074)).
Proof.
  intros Hm _ Hc.
  destruct (binary_round_aux_value_loc s m e loc_Exact Hm Hc)
    as (r & Hr & Hx & Hz).
  exists r. auto.
Qed.

Lemma binary_round_value (s : bool) (p : positive) (e : Z) :
  -1074 <= e ->
  let N := Z.pos p * 2 ^ (e + 1074) in
  let z := binary_round prec emax s p e in
  exists r,
    rounded N (grid N) r
    /\ (r * 2 ^ grid N < 2 ^ 2098 ->
        finite_or_zero z /\ signed s z /\ scaled z = r * 2 ^ grid N).
Proof.
  intros He. cbv zeta. unfold binary_round.
  pose proof (shl_align_spec p e (fexp prec emax (Z.pos (digits2_pos p) + e)))
    as H. cbv zeta in H.
  destruct (shl_align p e _) as [mz ez]. cbn [fst snd] in H.
  destruct H as [Hez Hmz].
  change (Z.pos (digits2_pos p)) with (Zdigits2 (Z.pos p)) in Hez.
  pose proof (aligned_digits p e ez ltac:(lia)) as Hdig. rewrite <- Hmz in Hdig.
  set (e1 := fexp prec emax (Zdigits2 (Z.pos p) + e)) in *.
  assert (He1 : -1074 <= e1) by (unfold e1; rewrite fexp_eq; lia).
  destruct (binary_round_aux_value s (Z.pos mz) ez ltac:(lia) ltac:(lia))
    as (r & Hr & Hx & Hz).
  { rewrite Hdig. fold e1. lia. }
  cbv zeta in Hz. rewrite Hdig in Hr, Hx, Hz. fold e1 in Hr, Hx, Hz.
  set (N := Z.pos p * 2 ^ (e + 1074)).
  assert (Pa : 0 < 2 ^ (ez + 1074)) by (apply Z.pow_pos_nonneg; lia).
  assert (Pk : 0 < 2 ^ (e1 - ez)) by (apply Z.pow_pos_nonneg; lia).
  assert (HN : N = Z.pos mz * 2 ^ (ez + 1074)).
  { unfold N. rewrite Hmz, <- Z.mul_assoc, <- Z.pow_add_r by lia.
    f_equal. f_equal. lia. }
  assert (Hg : grid N = e1 + 1074).
  { unfold grid, N. rewrite Zdigits2_mul_pow2 by lia.
    unfold e1. rewrite fexp_eq. lia. }
  assert (Hsplit : 2 ^ (e1 + 1074) = 2 ^ (e1 - ez) * 2 ^ (ez + 1074)).
  { rewrite <- Z.pow_add_r by lia. f_equal. lia. }
  assert (Hq : N / 2 ^ (e1 + 1074) = Z.pos mz / 2 ^ (e1 - ez)).
  { rewrite HN, Hsplit. apply Z.div_mul_cancel_r; lia. }
  rewrite Hg. exists r. unfold rounded. rewrite Hq.
  split; [split; [exact Hr|]|exact Hz].
  clear Hz. intros Hmod. apply Hx.
  apply Z.mod_divide in Hmod; [|lia]. destruct Hmod as [q Hq'].
  exists q. rewrite HN, Hsplit in Hq'.
  apply (Z.mul_cancel_r _ _ (2 ^ (ez + 1074))); [lia|].
  rewrite Hq'. ring.
Qed.

(** The exact value of a double is below [2^1024]. *)
Lemma scaled_below_top (b : bool) (m : positive) (e : Z) :
  valid_binary (S754_finite b m e) = true ->
  scaled (S754_finite b m e) < 2 ^ 2098.
Proof.
  intros V. pose proof (valid_finite _ _ _ V) as (He & Hd & _).
  pose proof (Zdigits2_bounds (Z.pos m) ltac:(lia)) as [_ Hb].
  pose proof (Zdigits2_pos (Z.pos m) ltac:(lia)) as Hd0.
  cbn [scaled].
  assert (P : 0 < 2 ^ (e + 1074)) by (apply Z.pow_pos_nonneg; lia).
  assert (2 ^ Zdigits2 (Z.pos m) * 2 ^ (e + 1074) <= 2 ^ 2098).
  { rewrite <- Z.pow_add_r by lia. apply Z.pow_le_mono_r; lia. }
  eapply Z.lt_le_trans; [|exact H].
  apply Z.mul_lt_mono_pos_r; [exact P | exact Hb].
Qed.

(** A rounded value does not pass a double above the exact one. *)
Lemma rounded_le (N r : Z) (mt : positive) (et : Z) :
  valid_binary (S754_finite false mt et) = true ->
  0 <= N <= scaled (S754_finite false mt et) ->
  rounded N (grid N) r ->
  r * 2 ^ grid N <= scaled (S754_finite false mt et)
  /\ r * 2 ^ grid N < 2 ^ 2098.
Proof.
  intros V HN [Hr Hx]. cbn [scaled] in *.
  pose proof (valid_finite _ _ _ V) as (He & Hd & Hc).
  pose proof (Zdigits2_pos (Z.pos mt) ltac:(lia)) as Hd0.
  set (sT := Z.pos mt * 2 ^ (et + 1074)) in *.
  set (g := grid N) in *.
  assert (Pt : 0 < 2 ^ (et + 1074)) by (apply Z.pow_pos_nonneg; lia).
  assert (Hg : 0 <= g <= et + 1074).
  { unfold g, grid.
    pose proof (Zdigits2_le N sT ltac:(lia)) as Hle.
    unfold sT in Hle at 1. rewrite Zdigits2_mul_pow2 in Hle by lia. lia. }
  assert (Pg : 0 < 2 ^ g) by (apply Z.pow_pos_nonneg; lia).
  assert (HT : sT = (Z.pos mt * 2 ^ (et + 1074 - g)) * 2 ^ g).
  { unfold sT. rewrite <- Z.mul_assoc, <- Z.pow_add_r by lia.
    f_equal. f_equal. lia. }
  set (c := Z.pos mt * 2 ^ (et + 1074 - g)) in *.
  assert (H : r * 2 ^ g <= sT).
  { destruct (Z.eq_dec (N mod 2 ^ g) 0) as [E|E].
    - rewrite (Hx E). pose proof (Z.mul_div_le N (2 ^ g) Pg). lia.
    - assert (N / 2 ^ g < c).
      { apply Z.div_lt_upper_bound; [exact Pg|].
        destruct (Z.eq_dec N (2 ^ g * c)) as [E'|]; [|lia].
        exfalso. apply E. rewrite E', Z.mul_comm. apply Z.mod_mul. lia. }
      rewrite HT. apply Z.mul_le_mono_nonneg_r; lia. }
  split; [exact H|].
  exact (Z.le_lt_trans _ _ _ H (scaled_below_top false mt et V)).
Qed.

(** A rounded value does not fall below a double under the exact one. *)
Lemma rounded_ge (N r : Z) (y : spec_float) :
  valid_binary y = true -> scaled y <= N -> rounded N (grid N) r ->
  scaled y <= r * 2 ^ grid N.
Proof.
  intros V HN [Hr _].
  set (g := grid N) in *.
  assert (Hg0 : 0 <= g) by (unfold g, grid; lia).
  assert (Pg : 0 < 2 ^ g) by (apply Z.pow_pos_nonneg; lia).
  assert (Hfl : scaled y <= N / 2 ^ g * 2 ^ g);
    [|apply Z.le_trans with (1 := Hfl); apply Z.mul_le_mono_nonneg_r; lia].
  destruct y as [b|b| |b my ey]; cbn [scaled] in *;
    try (apply Z.mul_nonneg_nonneg; [apply Z.div_pos|]; lia).
  pose proof (valid_finite _ _ _ V) as (He & Hd & Hc).
  pose proof (Zdigits2_pos (Z.pos my) ltac:(lia)) as Hd0.
  set (sY := Z.pos my * 2 ^ (ey + 1074)) in *.
  assert (Py : 0 < 2 ^ (ey + 1074)) by (apply Z.pow_pos_nonneg; lia).
  assert (HsY : 0 < sY) by (unfold sY; nia).
  assert (DY : Zdigits2 sY = Zdigits2 (Z.pos my) + (ey + 1074))
    by (unfold sY; apply Zdigits2_mul_pow2; lia).
  pose proof (Zdigits2_le sY N ltac:(lia)) as Hle.
  destruct (Z.eq_dec g 0) as [E0|E0].
  { rewrite E0, Z.pow_0_r, Z.div_1_r. lia. }
  assert (Eg : g = Zdigits2 N - 53) by (unfold g, grid in *; lia).
  destruct (Z.eq_dec (Zdigits2 sY) (Zdigits2 N)) as [E|E].
  - assert (Ey : ey + 1074 = g) by lia.
    unfold sY. rewrite Ey. apply Z.mul_le_mono_nonneg_r; [lia|].
    apply Z.div_le_lower_bound; [exact Pg|]. unfold sY in HN.
    rewrite Ey in HN. lia.
  - pose proof (Zdigits2_bounds sY HsY) as [_ Hb].
    pose proof (Zdigits2_bounds N ltac:(lia)) as [Hlo _].
    assert (H52 : 2 ^ (Zdigits2 N - 1) = 2 ^ 52 * 2 ^ g).
    { rewrite <- Z.pow_add_r by lia. f_equal. lia. }
    assert (2 ^ Zdigits2 sY <= 2 ^ (Zdigits2 N - 1))
      by (apply Z.pow_le_mono_r; lia).
    assert (2 ^ 52 <= N / 2 ^ g).
    { apply Z.div_le_lower_bound; [exact Pg|]. lia. }
    assert (2 ^ 52 * 2 ^ g <= N / 2 ^ g * 2 ^ g)
      by (apply Z.mul_le_mono_nonneg_r; lia).
    lia.
Qed.

(** A double with the lower exponent is the smaller one, when the other has
    a full mantissa. *)
Lemma lower_exponent_lt (m n : positive) (e f : Z) :
  -1074 <= e < f -> Zdigits2 (Z.pos m) <= 53 ->
  Zdigits2 (Z.pos n) = 53 ->
  Z.pos m * 2 ^ (e + 1074) < Z.pos n * 2 ^ (f + 1074).
Proof.
  intros Hef Dm Dn.
  pose proof (Zdigits2_bounds (Z.pos m) ltac:(lia)) as [_ Um].
  pose proof (Zdigits2_bounds (Z.pos n) ltac:(lia)) as [Ln _].
  rewrite Dn in Ln. change (2 ^ (53 - 1)) with 4503599627370496 in Ln.
  assert (Hm : Z.pos m < 9007199254740992).
  { eapply Z.lt_le_trans; [exact Um|]. change 9007199254740992 with (2 ^ 53).
    apply Z.pow_le_mono_r; lia. }
  assert (Pe : 0 < 2 ^ (e + 1074)) by (apply Z.pow_pos_nonneg; lia).
  assert (Pk : 0 < 2 ^ (f - e - 1)) by (apply Z.pow_pos_nonneg; lia).
  replace (f + 1074) with ((f - e - 1) + 1 + (e + 1074)) by lia.
  rewrite (Z.pow_add_r 2 (f - e - 1 + 1) (e + 1074)) by lia.
  rewrite (Z.pow_add_r 2 (f - e - 1) 1) by lia. change (2 ^ 1) with 2.
  rewrite !Z.mul_assoc. apply Z.mul_lt_mono_pos_r; [exact Pe|].
  assert (4503599627370496 * 1 <= Z.pos n * 2 ^ (f - e - 1))
    by (apply Z.mul_le_mono_nonneg; lia).
  lia.
Qed.

(** The order of valid doubles is the order of their values. *)
Lemma SFcompare_scaled (mx my : positive) (ex ey : Z) :
  valid_binary (S754_finite false mx ex) = true ->
  valid_binary (S754_finite false my ey) = true ->
  SFcompare (S754_finite false mx ex) (S754_finite false my ey)
  = Some (scaled (S754_finite false mx ex) ?= scaled (S754_finite false my ey)).
Proof.
  intros Vx Vy.
  pose proof (valid_finite _ _ _ Vx) as (Hex & Hdx & Hcx).
  pose proof (valid_finite _ _ _ Vy) as (Hey & Hdy & Hcy).
  pose proof (Zdigits2_bounds (Z.pos mx) ltac:(lia)) as [Lx Ux].
  pose proof (Zdigits2_bounds (Z.pos my) ltac:(lia)) as [Ly Uy].
  assert (Px : 0 < 2 ^ (ex + 1074)) by (apply Z.pow_pos_nonneg; lia).
  assert (Py : 0 < 2 ^ (ey + 1074)) by (apply Z.pow_pos_nonneg; lia).
  pose proof lower_exponent_lt as Hlt.
  cbn [SFcompare scaled].
  change (Pos.compare_cont Eq mx my) with (Pos.compare mx my).
  destruct (Z.compare_spec ex ey) as [E|E|E].
  - subst ey. f_equal. symmetry.
    destruct (Pos.compare_spec mx my) as [C|C|C].
    + subst my. apply Z.compare_refl.
    + apply Z.compare_lt_iff. apply Z.mul_lt_mono_pos_r; lia.
    + apply Z.compare_gt_iff. apply Z.mul_lt_mono_pos_r; lia.
  - f_equal. symmetry. apply Z.compare_lt_iff. apply Hlt; lia.
  - f_equal. symmetry. apply Z.compare_gt_iff. apply Hlt; lia.
Qed.

Lemma binary_normalize_value (M e : Z) :
  -1074 <= e -> M <> 0 ->
  let N := Z.abs M * 2 ^ (e + 1074) in
  let z := binary_normalize prec emax M e false in
  exists r,
    rounded N (grid N) r
    /\ (r * 2 ^ grid N < 2 ^ 2098 ->
        finite_or_zero z /\ signed (M <? 0) z /\ scaled z = r * 2 ^ grid N).
Proof.
  intros He HM. destruct M as [|p|p]; [congruence| |];
    cbn [binary_normalize Z.abs]; apply binary_round_value; exact He.
Qed.

(** The value of a sum of positive doubles. *)
Lemma SFadd_value (mx my : positive) (ex ey : Z) :
  valid_binary (S754_finite false mx ex) = true ->
  valid_binary (S754_finite false my ey) = true ->
  let N := scaled (S754_finite false mx ex)
           + scaled (S754_finite false my ey) in
  let z := SF64add (S754_finite false mx ex) (S754_finite false my ey) in
  exists r,
    rounded N (grid N) r
    /\ (r * 2 ^ grid N < 2 ^ 2098 ->
        finite_nonneg z /\ scaled z = r * 2 ^ grid N).
Proof.
  intros Vx Vy. cbv zeta.
  pose proof (valid_finite _ _ _ Vx) as (Hex & _).
  pose proof (valid_finite _ _ _ Vy) as (Hey & _).
  unfold SF64add, SFadd. cbn [cond_Zopp scaled].
  change (IntDef.Z.min ex ey) with (Z.min ex ey).
  destruct (aligned_pair mx my ex ey) as (Hx & Hy & _). cbv zeta in Hx, Hy.
  set (ax := fst (shl_align mx ex (Z.min ex ey))) in *.
  set (ay := fst (shl_align my ey (Z.min ex ey))) in *.
  destruct (binary_normalize_value (Z.pos ax + Z.pos ay) (Z.min ex ey)
              ltac:(lia) ltac:(lia)) as (r & Hr & Hz).
  cbv zeta in Hz.
  assert (EN : Z.abs (Z.pos ax + Z.pos ay) * 2 ^ (Z.min ex ey + 1074)
               = Z.pos mx * 2 ^ (ex + 1074) + Z.pos my * 2 ^ (ey + 1074)).
  { rewrite Z.abs_eq by lia. rewrite Hx, Hy, Z.mul_add_distr_r.
    rewrite <- !Z.mul_assoc, <- !Z.pow_add_r by lia.
    f_equal; f_equal; f_equal; lia. }
  rewrite EN in Hr, Hz. exists r. split; [exact Hr|].
  intros Hlt. destruct (Hz Hlt) as (Hf & Hs & Hv).
  replace (Z.pos ax + Z.pos ay <? 0) with false in Hs
    by (symmetry; apply Z.ltb_ge; lia).
  split; [|exact Hv].
  destruct (binary_normalize prec emax _ _ false) as [b|b| |b m e];
    try contradiction; cbn [signed] in Hs; subst b; exact I.
Qed.

(** The value of a difference of positive doubles. *)
Lemma SFsub_value (mx my : positive) (ex ey : Z) :
  valid_binary (S754_finite false mx ex) = true ->
  valid_binary (S754_finite false my ey) = true ->
  scaled (S754_finite false mx ex) <> scaled (S754_finite false my ey) ->
  let N := Z.abs (scaled (S754_finite false mx ex)
                  - scaled (S754_finite false my ey)) in
  let z := SF64sub (S754_finite false mx ex) (S754_finite false my ey) in
  exists r,
    rounded N (grid N) r
    /\ (r * 2 ^ grid N < 2 ^ 2098 ->
        finite_or_zero z
        /\ signed (scaled (S754_finite false mx ex)
                   <? scaled (S754_finite false my ey)) z
        /\ scaled z = r * 2 ^ grid N).
Proof.
  intros Vx Vy Hne. cbv zeta.
  pose proof (valid_finite _ _ _ Vx) as (Hex & _).
  pose proof (valid_finite _ _ _ Vy) as (Hey & _).
  unfold SF64sub, SFsub. cbn [cond_Zopp scaled] in *.
  change (IntDef.Z.min ex ey) with (Z.min ex ey).
  destruct (aligned_pair mx my ex ey) as (Hx & Hy & _). cbv zeta in Hx, Hy.
  set (ax := fst (shl_align mx ex (Z.min ex ey))) in *.
  set (ay := fst (shl_align my ey (Z.min ex ey))) in *.
  assert (Pz : 0 < 2 ^ (Z.min ex ey + 1074)) by (apply Z.pow_pos_nonneg; lia).
  assert (Ex : Z.pos mx * 2 ^ (ex + 1074)
               = Z.pos ax * 2 ^ (Z.min ex ey + 1074)).
  { rewrite Hx, <- Z.mul_assoc, <- Z.pow_add_r by lia.
    f_equal; f_equal; lia. }
  assert (Ey : Z.pos my * 2 ^ (ey + 1074)
               = Z.pos ay * 2 ^ (Z.min ex ey + 1074)).
  { rewrite Hy, <- Z.mul_assoc, <- Z.pow_add_r by lia.
    f_equal; f_equal; lia. }
  rewrite Ex, Ey in *.
  assert (Hd : Z.pos ax - Z.pos ay <> 0) by (intros E; apply Hne; nia).
  destruct (binary_normalize_value (Z.pos ax - Z.pos ay) (Z.min ex ey)
              ltac:(lia) Hd) as (r & Hr & Hz).
  cbv zeta in Hz.
  assert (EN : Z.abs (Z.pos ax - Z.pos ay) * 2 ^ (Z.min ex ey + 1074)
               = Z.abs (Z.pos ax * 2 ^ (Z.min ex ey + 1074)
                        - Z.pos ay * 2 ^ (Z.min ex ey + 1074))).
  { rewrite <- Z.mul_sub_distr_r, Z.abs_mul.
    rewrite (Z.abs_eq (2 ^ _)) by lia. reflexivity. }
  rewrite EN in Hr, Hz. exists r. split; [exact Hr|].
  intros Hlt. destruct (Hz Hlt) as (Hf & Hs & Hv).
  split; [exact Hf|]. split; [|exact Hv].
  replace (Z.pos ax * 2 ^ (Z.min ex ey + 1074)
           <? Z.pos ay * 2 ^ (Z.min ex ey + 1074))
    with (Z.pos ax - Z.pos ay <? 0); [exact Hs|].
  destruct (Z.ltb_spec (Z.pos ax - Z.pos ay) 0);
    symmetry; [apply Z.ltb_lt | apply Z.ltb_ge]; nia.
Qed.

Lemma scaled_nonneg (x : spec_float) : 0 <= scaled x.
Proof.
  destruct x as [b|b| |b m e]; cbn [scaled]; try lia;
    pose proof (Z.pow_nonneg 2 (e + 1074) ltac:(lia)); nia.
Qed.

Lemma scaled_pos (b : bool) (m : positive) (e : Z) :
  valid_binary (S754_finite b m e) = true -> 0 < scaled (S754_finite b m e).
Proof.
  intros V. apply valid_finite in V. cbn [scaled].
  pose proof (Z.pow_pos_nonneg 2 (e + 1074) ltac:(lia) ltac:(lia)). nia.
Qed.

Lemma scaled_divide (b : bool) (m : positive) (e g : Z) :
  0 <= g <= e + 1074 -> (2 ^ g | scaled (S754_finite b m e)).
Proof.
  intros Hg. cbn [scaled]. exists (Z.pos m * 2 ^ (e + 1074 - g)).
  rewrite <- Z.mul_assoc, <- Z.pow_add_r by lia. f_equal. f_equal. lia.
Qed.

(** The grid of a value below a valid double is at least as fine as the
    grid of that double. *)
Lemma grid_le_exponent (N : Z) (b : bool) (m : positive) (e : Z) :
  valid_binary (S754_finite b m e) = true ->
  0 <= N <= scaled (S754_finite b m e) -> 0 <= grid N <= e + 1074.
Proof.
  intros V HN. pose proof (valid_finite _ _ _ V) as (He & Hd & _).
  cbn [scaled] in HN. unfold grid.
  pose proof (Zdigits2_le N _ HN) as Hle.
  rewrite Zdigits2_mul_pow2 in Hle by lia. lia.
Qed.

Lemma SFcompare_nonneg (x y : spec_float) :
  valid_binary x = true -> valid_binary y = true ->
  finite_nonneg x -> finite_nonneg y ->
  SFcompare x y = Some (scaled x ?= scaled y).
Proof.
  intros Vx Vy Fx Fy.
  destruct x as [[|]|[|]| |[|] mx ex]; try contradiction;
    destruct y as [[|]|[|]| |[|] my ey]; try contradiction.
  - reflexivity.
  - pose proof (scaled_pos _ _ _ Vy) as H. cbn [SFcompare].
    f_equal. symmetry. apply Z.compare_lt_iff. exact H.
  - pose proof (scaled_pos _ _ _ Vx) as H. cbn [SFcompare].
    f_equal. symmetry. apply Z.compare_gt_iff. exact H.
  - now apply SFcompare_scaled.
Qed.

Lemma SFleb_scaled (x y : spec_float) :
  valid_binary x = true -> valid_binary y = true ->
  finite_nonneg x -> finite_nonneg y ->
  SFleb x y = (scaled x <=? scaled y).
Proof.
  intros Vx Vy Fx Fy. unfold SFleb.
  rewrite (SFcompare_nonneg x y Vx Vy Fx Fy). unfold Z.leb.
  destruct (scaled x ?= scaled y); reflexivity.
Qed.

Lemma SFltb_scaled (x y : spec_float) :
  valid_binary x = true -> valid_binary y = true ->
  finite_nonneg x -> finite_nonneg y ->
  SFltb x y = (scaled x <? scaled y).
Proof.
  intros Vx Vy Fx Fy. unfold SFltb.
  rewrite (SFcompare_nonneg x y Vx Vy Fx Fy). unfold Z.ltb.
  destruct (scaled x ?= scaled y); reflexivity.
Qed.

(** A sum that lies between two doubles is rounded to a double between
    them. *)
Lemma SFadd_between (x y lo : spec_float) (mh : positive) (eh : Z) :
  valid_binary x = true -> valid_binary y = true ->
  valid_binary lo = true -> valid_binary (S754_finite false mh eh) = true ->
  finite_nonneg x -> finite_nonneg y ->
  scaled lo <= scaled x + scaled y <= scaled (S754_finite false mh eh) ->
  finite_nonneg (SF64add x y)
  /\ scaled lo <= scaled (SF64add x y) <= scaled (S754_finite false mh eh).
Proof.
  intros Vx Vy Vl Vh Fx Fy H.
  destruct x as [[|]|[|]| |[|] mx ex]; try contradiction;
    destruct y as [[|]|[|]| |[|] my ey]; try contradiction;
    try (cbn [SF64add SFadd finite_nonneg scaled] in *;
         split; [exact I | lia]).
  destruct (SFadd_value mx my ex ey Vx Vy) as (r & Hr & Hz). cbv zeta in Hz.
  pose proof (scaled_pos _ _ _ Vx). pose proof (scaled_pos _ _ _ Vy).
  set (N := scaled (S754_finite false mx ex)
            + scaled (S754_finite false my ey)) in *.
  assert (HN : 0 <= N <= scaled (S754_finite false mh eh)) by lia.
  destruct (rounded_le N r mh eh Vh HN Hr) as [Hle Hlt].
  pose proof (rounded_ge N r lo Vl ltac:(lia) Hr) as Hge.
  destruct (Hz Hlt) as [Hf Hv]. rewrite Hv. auto.
Qed.

(** A difference that its subtrahend bounds is exact. *)
Lemma SFsub_exact (mx my : positive) (ex ey : Z) :
  valid_binary (S754_finite false mx ex) = true ->
  valid_binary (S754_finite false my ey) = true ->
  scaled (S754_finite false my ey) < scaled (S754_finite false mx ex) ->
  scaled (S754_finite false mx ex) - scaled (S754_finite false my ey)
  <= scaled (S754_finite false my ey) ->
  finite_nonneg (SF64sub (S754_finite false mx ex) (S754_finite false my ey))
  /\ scaled (SF64sub (S754_finite false mx ex) (S754_finite false my ey))
     = scaled (S754_finite false mx ex) - scaled (S754_finite false my ey).
Proof.
  intros Vx Vy Hlt Hle.
  destruct (SFsub_value mx my ex ey Vx Vy ltac:(lia)) as (r & [Hr Hx] & Hz).
  cbv zeta in Hz.
  set (sx := scaled (S754_finite false mx ex)) in *.
  set (sy := scaled (S754_finite false my ey)) in *.
  rewrite Z.abs_eq in * by lia.
  set (N := sx - sy) in *. set (g := grid N) in *. revert Hz.
  pose proof (grid_le_exponent N false mx ex Vx ltac:(fold sx; lia)) as Gx.
  pose proof (grid_le_exponent N false my ey Vy ltac:(fold sy; lia)) as Gy.
  fold g in Gx, Gy.
  assert (Pg : 0 < 2 ^ g) by (apply Z.pow_pos_nonneg; lia).
  assert (Hd : (2 ^ g | N)).
  { apply Z.divide_sub_r; apply scaled_divide; assumption. }
  assert (Hmod : N mod 2 ^ g = 0) by (apply Z.mod_divide; [lia | exact Hd]).
  specialize (Hx Hmod).
  assert (Er : r * 2 ^ g = N).
  { rewrite Hx. destruct Hd as [q Hq]. rewrite Hq.
    rewrite Z.div_mul by lia. reflexivity. }
  assert (HN : r * 2 ^ g < 2 ^ 2098).
  { assert (HNy : 0 <= N <= scaled (S754_finite false my ey))
      by (fold sy; lia).
    destruct (rounded_le N r my ey Vy HNy (conj Hr (fun _ => Hx)))
      as [_ H]. exact H. }
  intros Hz. destruct (Hz HN) as (Hf & Hs & Hv). clear Hz HN.
  replace (sx <? sy) with false in Hs by (symmetry; apply Z.ltb_ge; lia).
  split; [|lia].
  destruct (SF64sub _ _) as [b|b| |b m e]; try contradiction;
    cbn [signed] in Hs; subst b; exact I.
Qed.

(** A difference of doubles that are not negative is finite, and at most
    the minuend when that is the larger one. *)
Lemma SFsub_bounded (x y : spec_float) :
  valid_binary x = true -> valid_binary y = true ->
  finite_nonneg x -> finite_nonneg y ->
  finite_or_zero (SF64sub x y)
  /\ (scaled y < scaled x ->
      finite_nonneg (SF64sub x y) /\ scaled (SF64sub x y) <= scaled x).
Proof.
  intros Vx Vy Fx Fy.
  destruct x as [[|]|[|]| |[|] mx ex]; try contradiction;
    destruct y as [[|]|[|]| |[|] my ey]; try contradiction.
  - split; [exact I|]. cbn [scaled]. lia.
  - split; [exact I|]. intros H.
    pose proof (scaled_pos _ _ _ Vy) as Hp. cbn [scaled] in *. lia.
  - split; [exact I|]. intros _. unfold SF64sub. cbn [SFsub].
    split; [exact I | lia].
  - set (sx := scaled (S754_finite false mx ex)).
    set (sy := scaled (S754_finite false my ey)).
    destruct (Z.eq_dec sx sy) as [E|Hne].
    { (* equal values are the same double, and their difference is zero *)
      assert (Hc := SFcompare_scaled mx my ex ey Vx Vy).
      fold sx sy in Hc. rewrite E, Z.compare_refl in Hc.
      cbn [SFcompare] in Hc.
      change (Pos.compare_cont Eq mx my) with (Pos.compare mx my) in Hc.
      destruct (Z.compare_spec ex ey) as [Ee|Ee|Ee]; try discriminate.
      destruct (Pos.compare_spec mx my) as [Em|Em|Em]; try discriminate.
      subst. unfold SF64sub, SFsub. cbn [cond_Zopp].
      rewrite Z.sub_diag. cbn [binary_normalize finite_or_zero].
      split; [exact I | lia]. }
    destruct (SFsub_value mx my ex ey Vx Vy Hne) as (r & Hr & Hz).
    cbv zeta in Hz. fold sx sy in Hr, Hz.
    pose proof (scaled_pos _ _ _ Vx) as Px. fold sx in Px.
    pose proof (scaled_pos _ _ _ Vy) as Py. fold sy in Py.
    destruct (Z.lt_ge_cases sy sx) as [Hlt|Hge].
    + assert (HN : 0 <= Z.abs (sx - sy) <= scaled (S754_finite false mx ex))
        by (fold sx; lia).
      destruct (rounded_le _ r mx ex Vx HN Hr) as [Hle Hb].
      destruct (Hz Hb) as (Hf & Hs & Hv).
      split; [exact Hf|]. intros _.
      replace (sx <? sy) with false in Hs by (symmetry; apply Z.ltb_ge; lia).
      split; [|fold sx in Hle; lia].
      destruct (SF64sub _ _) as [b|b| |b m e]; try contradiction;
        cbn [signed] in Hs; subst b; exact I.
    + assert (HN : 0 <= Z.abs (sx - sy) <= scaled (S754_finite false my ey))
        by (fold sy; lia).
      destruct (rounded_le _ r my ey Vy HN Hr) as [Hle Hb].
      destruct (Hz Hb) as (Hf & _). split; [exact Hf | lia].
Qed.

End Binary64.

(** ** Comparisons of doubles *)

Lemma SFlt_le_false (x y : spec_float) :
  SFltb x y = true -> SFleb y x = false.
Proof. unfold SFltb, SFleb. sf_cases x; sf_cases y; intros H; order_cases. Qed.

Lemma SFlt_le (x y : spec_float) : SFltb x y = true -> SFleb x y = true.
Proof. unfold SFltb, SFleb. sf_cases x; sf_cases y; intros H; order_cases. Qed.

Lemma SFlt_asym (x y : spec_float) : SFltb x y = true -> SFltb y x = false.
Proof. unfold SFltb. sf_cases x; sf_cases y; intros H; order_cases. Qed.

Lemma SFle_false_lt (x y : spec_float) :
  x <> S754_nan -> y <> S754_nan -> SFleb x y = false -> SFltb y x = true.
Proof.
  unfold SFltb, SFleb. sf_cases x; sf_cases y; intros Hx Hy H;
    try congruence; order_cases.
Qed.

Lemma SFlt_false_le (x y : spec_float) :
  x <> S754_nan -> y <> S754_nan -> SFltb y x = false -> SFleb x y = true.
Proof.
  unfold SFltb, SFleb. sf_cases x; sf_cases y; intros Hx Hy H;
    try congruence; order_cases.
Qed.

Lemma SFle_lt_trans (a b c : spec_float) :
  SFleb a b = true -> SFltb b c = true -> SFltb a c = true.
Proof.
  unfold SFleb, SFltb. sf_cases a; sf_cases b; sf_cases c; intros H1 H2;
    order_cases.
Qed.

Lemma SFle_refl (x : spec_float) : x <> S754_nan -> SFleb x x = true.
Proof.
  unfold SFleb. sf_cases x; intros Hx; try congruence; order_cases.
Qed.

Lemma SFlt_not_nan_r (x y : spec_float) : SFltb x y = true -> y <> S754_nan.
Proof. unfold SFltb. sf_cases x; sf_cases y; intros H; order_cases; congruence. Qed.

Lemma SFle_not_nan_r (x y : spec_float) : SFleb x y = true -> y <> S754_nan.
Proof. unfold SFleb. sf_cases x; sf_cases y; intros H; order_cases; congruence. Qed.

(** The same facts on primitive floats. *)

Lemma is_nan_spec (x : float) :
  is_nan x = false -> Prim2SF x <> S754_nan.
Proof.
  unfold is_nan. rewrite FloatAxioms.eqb_spec. intros H E. rewrite E in H. discriminate.
Qed.

Lemma not_nan_is_nan (x : float) :
  Prim2SF x <> S754_nan -> is_nan x = false.
Proof.
  unfold is_nan. rewrite FloatAxioms.eqb_spec. intros H.
  destruct (Prim2SF x) as [[|]|[|]| |[|] m e]; try congruence; try reflexivity;
    unfold SFeqb; simpl; rewrite Z.compare_refl;
    change (Pos.compare_cont Eq m m) with (Pos.compare m m);
    rewrite Pos.compare_refl; reflexivity.
Qed.

Lemma is_finite_not_nan (x : float) : is_finite x = true -> is_nan x = false.
Proof.
  unfold is_finite. destruct (is_nan x); simpl; [discriminate | reflexivity].
Qed.

Lemma ltb_leb_false (x y : float) : (x <? y) = true -> (y <=? x) = false.
Proof. rewrite FloatAxioms.ltb_spec, FloatAxioms.leb_spec. apply SFlt_le_false. Qed.

Lemma ltb_leb (x y : float) : (x <? y) = true -> (x <=? y) = true.
Proof. rewrite FloatAxioms.ltb_spec, FloatAxioms.leb_spec. apply SFlt_le. Qed.

Lemma ltb_asym (x y : float) : (x <? y) = true -> (y <? x) = false.
Proof. rewrite !FloatAxioms.ltb_spec. apply SFlt_asym. Qed.

Lemma leb_false_ltb (x y : float) :
  is_nan x = false -> is_nan y = false -> (x <=? y) = false -> (y <? x) = true.
Proof.
  intros Hx Hy. rewrite FloatAxioms.ltb_spec, FloatAxioms.leb_spec.
  apply SFle_false_lt; now apply is_nan_spec.
Qed.

Lemma ltb_false_leb (x y : float) :
  is_nan x = false -> is_nan y = false -> (y <? x) = false -> (x <=? y) = true.
Proof.
  intros Hx Hy. rewrite FloatAxioms.ltb_spec, FloatAxioms.leb_spec.
  apply SFlt_false_le; now apply is_nan_spec.
Qed.

Lemma leb_ltb_trans (a b c : float) :
  (a <=? b) = true -> (b <? c) = true -> (a <? c) = true.
Proof. rewrite !FloatAxioms.ltb_spec, FloatAxioms.leb_spec. apply SFle_lt_trans. Qed.

Lemma leb_refl (x : float) : is_nan x = false -> (x <=? x) = true.
Proof. intros H. rewrite FloatAxioms.leb_spec. apply SFle_refl. now apply is_nan_spec. Qed.

Lemma ltb_not_nan_r (x y : float) : (x <? y) = true -> is_nan y = false.
Proof.
  rewrite FloatAxioms.ltb_spec. intros H. apply not_nan_is_nan. eapply SFlt_not_nan_r; eauto.
Qed.

Lemma leb_not_nan_r (x y : float) : (x <=? y) = true -> is_nan y = false.
Proof.
  rewrite FloatAxioms.leb_spec. intros H. apply not_nan_is_nan. eapply SFle_not_nan_r; eauto.
Qed.

(** ** The normalizer, the integrator and the metrics *)

(** *** The guardrails *)

Lemma guard_pos_ok (x d : float) :
  positive_real d = true -> positive_real (guard_pos x d) = true.
Proof.
  intros Hd. unfold guard_pos, JS.Number_isFinite.
  destruct (is_finite x) eqn:Hf; simpl; [|exact Hd].
  destruct (x <=? 0) eqn:Hle; [exact Hd|].
  unfold positive_real. rewrite Hf. simpl.
  apply leb_false_ltb; auto using is_finite_not_nan.
Qed.

Lemma guard_nonneg_ok (x d : float) :
  nonneg_real d = true -> nonneg_real (guard_nonneg x d) = true.
Proof.
  intros Hd. unfold guard_nonneg, JS.Number_isFinite.
  destruct (is_finite x) eqn:Hf; simpl; [|exact Hd].
  destruct (x <? 0) eqn:Hlt; [exact Hd|].
  unfold nonneg_real. rewrite Hf. simpl.
  apply ltb_false_leb; auto using is_finite_not_nan.
Qed.

Lemma guard_pos_keeps (x d : float) :
  guard_pos x d = if positive_real x then x else d.
Proof.
  unfold guard_pos, positive_real, JS.Number_isFinite.
  destruct (is_finite x) eqn:Hf; simpl; [|reflexivity].
  destruct (x <=? 0) eqn:Hle.
  - destruct (0 <? x) eqn:Hlt; [|reflexivity].
    apply ltb_leb_false in Hlt. congruence.
  - rewrite leb_false_ltb; auto using is_finite_not_nan.
Qed.

Lemma guard_nonneg_keeps (x d : float) :
  guard_nonneg x d = if nonneg_real x then x else d.
Proof.
  unfold guard_nonneg, nonneg_real, JS.Number_isFinite.
  destruct (is_finite x) eqn:Hf; simpl; [|reflexivity].
  destruct (x <? 0) eqn:Hlt.
  - destruct (0 <=? x) eqn:Hle; [|reflexivity].
    apply ltb_leb_false in Hlt. congruence.
  - rewrite ltb_false_leb; auto using is_finite_not_nan.
Qed.

Lemma guardrails_ok (raw : Params) : normalized (guardrails raw).
Proof.
  unfold normalized, normalizedb, guardrails; simpl.
  rewrite !guard_pos_ok, !guard_nonneg_ok by reflexivity. reflexivity.
Qed.

(** *** doseRate *)
Lemma normalized_fields (p : Params) :
  normalized p ->
  positive_real (weight p) = true /\ nonneg_real (bolus_mg p) = true /\
  nonneg_real (infusion_mg_min p) = true /\
  nonneg_real (infusion_duration_min p) = true /\
  positive_real (t_end_min p) = true /\ positive_real (dt_min p) = true.
Proof.
  unfold normalized, normalizedb. rewrite !andb_true_iff. tauto.
Qed.

Lemma nonneg_real_not_nan (x : float) : nonneg_real x = true -> is_nan x = false.
Proof.
  unfold nonneg_real. rewrite andb_true_iff. intros [H _].
  now apply is_finite_not_nan.
Qed.

(** Claim C6.  For a normalized parameter set and a time [t >= 0], the
    infusion term is the infusion rate when the rate and the duration are
    positive and [t <= infusion_duration_min] (the bound included), and it is
    [0] when the rate is [<= 0], the duration is [<= 0] or
    [t > infusion_duration_min]; one of the two cases always applies. *)
Theorem doseRate_cases (p : Params) (t : float) :
  normalized p -> (0 <=? t) = true ->
  ((0 <? infusion_mg_min p) = true ->
   (0 <? infusion_duration_min p) = true ->
   (t <=? infusion_duration_min p) = true ->
   doseRate t p = infusion_mg_min p)
  /\ ((infusion_mg_min p <=? 0) = true
      \/ (infusion_duration_min p <=? 0) = true
      \/ (infusion_duration_min p <? t) = true ->
      doseRate t p = 0)
  /\ (((0 <? infusion_mg_min p) = true
       /\ (0 <? infusion_duration_min p) = true
       /\ (t <=? infusion_duration_min p) = true)
      \/ (infusion_mg_min p <=? 0) = true
      \/ (infusion_duration_min p <=? 0) = true
      \/ (infusion_duration_min p <? t) = true).
Proof.
  intros Hn Ht.
  destruct (normalized_fields p Hn) as (_ & _ & Hr & Hd & _ & _).
  apply nonneg_real_not_nan in Hr, Hd.
  pose proof (leb_not_nan_r _ _ Ht) as Htn.
  assert (Hz : is_nan 0 = false) by reflexivity.
  unfold doseRate. repeat split.
  - intros H1 H2 H3.
    rewrite (ltb_leb_false _ _ H1), (ltb_leb_false _ _ H2), H3. reflexivity.
  - intros [H | [H | H]].
    + rewrite H. reflexivity.
    + rewrite H, orb_true_r. reflexivity.
    + rewrite (ltb_leb_false _ _ H).
      destruct (_ || _); reflexivity.
  - destruct (infusion_mg_min p <=? 0) eqn:E1; [tauto|].
    destruct (infusion_duration_min p <=? 0) eqn:E2; [tauto|].
    destruct (t <=? infusion_duration_min p) eqn:E3.
    + left. repeat split; auto using leb_false_ltb.
    + right. right. right. auto using leb_false_ltb.
Qed.

(** The infusion of 10 mg/min over 30 min is still on at [t = 30] and off
    just after. *)
Lemma doseRate_cases_witness :
  normalized (readParams raw_infusion)
  /\ (0 <=? 30) = true
  /\ doseRate 30 (readParams raw_infusion) = 10
  /\ doseRate 30.000000000000004 (readParams raw_infusion) = 0.
Proof.
  assert (Hn : normalized (readParams raw_infusion))
    by (vm_compute; reflexivity).
  split; [exact Hn|]. split; [reflexivity|]. split.
  - apply (doseRate_cases (readParams raw_infusion) 30 Hn); reflexivity.
  - apply (doseRate_cases (readParams raw_infusion) 30.000000000000004 Hn).
    + reflexivity.
    + right. right. reflexivity.
Defined.

(** *** The loop of solveRK4 *)

Lemma rk4_loop_acc (fuel : nat) (p : Params) (limit : option Z) :
  forall i s acc,
    rk4_loop fuel p limit i s acc
    = option_map (fun l => l ++ acc) (rk4_loop fuel p limit i s []).
Proof.
  induction fuel as [|fuel IH]; intros i s acc; simpl; [reflexivity|].
  destruct (JS.below i limit); [|reflexivity].
  destruct (JS.geb (st_t s) (t_end_min p)); [reflexivity|].
  rewrite IH. rewrite (IH _ _ [rk4_step s p]).
  destruct (rk4_loop fuel p limit (JS.incr i) (rk4_step s p) []); simpl;
    [|reflexivity].
  now rewrite <- app_assoc.
Qed.

(** A property of the states that every pass of the loop establishes holds
    of every state pushed. *)
Lemma rk4_loop_Forall (P : State -> Prop) (p : Params) (limit : option Z) :
  (forall s, P s -> JS.geb (st_t s) (t_end_min p) = false ->
             P (rk4_step s p)) ->
  forall fuel i s acc l,
    P s -> Forall P acc ->
    rk4_loop fuel p limit i s acc = Some l -> Forall P l.
Proof.
  intros Hstep. induction fuel as [|fuel IH]; intros i s acc l Hs Hacc;
    simpl; [discriminate|].
  destruct (JS.below i limit); [|congruence].
  destruct (JS.geb (st_t s) (t_end_min p)) eqn:Hge; [congruence|].
  apply IH; auto.
Qed.

Lemma states_fuel_Forall (P : State -> Prop) (p : Params) :
  (forall s, P s -> JS.geb (st_t s) (t_end_min p) = false ->
             P (rk4_step s p)) ->
  P (init_state p) ->
  forall fuel l, states_fuel fuel p = Some l -> Forall P l.
Proof.
  intros Hstep H0 fuel l. unfold states_fuel.
  destruct (rk4_loop fuel p _ 0 (init_state p) [init_state p]) as [l'|] eqn:E;
    simpl; [|discriminate].
  intros [= <-]. rewrite <- rev_alt. apply Forall_rev.
  eapply rk4_loop_Forall; [exact Hstep | exact H0 | | exact E].
  constructor; [exact H0 | constructor].
Qed.

(** The first state of a trace is the initial state. *)
Lemma states_fuel_head (fuel : nat) (p : Params) (l : list State) :
  states_fuel fuel p = Some l -> exists l', l = init_state p :: l'.
Proof.
  unfold states_fuel. rewrite rk4_loop_acc.
  destruct (rk4_loop fuel p _ 0 (init_state p) []) as [l''|]; [|discriminate].
  cbn [option_map]. intros [= <-].
  rewrite <- rev_alt, rev_app_distr. simpl. eauto.
Qed.

(** More fuel does not change a run that has ended. *)
Lemma rk4_loop_fuel (p : Params) (limit : option Z) :
  forall fuel fuel' i s acc l,
    (fuel <= fuel')%nat ->
    rk4_loop fuel p limit i s acc = Some l ->
    rk4_loop fuel' p limit i s acc = Some l.
Proof.
  induction fuel as [|fuel IH]; intros fuel' i s acc l Hle; [discriminate|].
  destruct fuel' as [|fuel']; [lia|]. cbn [rk4_loop].
  destruct (JS.below i limit); [|auto].
  destruct (JS.geb (st_t s) (t_end_min p)); [auto|].
  apply IH. lia.
Qed.

Lemma solveRK4_fuel_more (p : Params) (fuel fuel' : nat) (sol : Sol) :
  (fuel <= fuel')%nat ->
  solveRK4_fuel fuel p = Some sol -> solveRK4_fuel fuel' p = Some sol.
Proof.
  intros Hle. unfold solveRK4_fuel, states_fuel.
  destruct (rk4_loop fuel p _ 0 (init_state p) [init_state p]) as [l|] eqn:E;
    [|discriminate].
  rewrite (rk4_loop_fuel p _ fuel fuel' _ _ _ l Hle E). auto.
Qed.

(** The sequences of a trace have the same length. *)
Lemma solveRK4_lengths (p : Params) (fuel : nat) (sol : Sol) :
  solveRK4_fuel fuel p = Some sol ->
  List.length (sol_A1 sol) = List.length (sol_t sol)
  /\ List.length (sol_A2 sol) = List.length (sol_t sol)
  /\ List.length (sol_A3 sol) = List.length (sol_t sol)
  /\ List.length (sol_C1 sol) = List.length (sol_t sol).
Proof.
  unfold solveRK4_fuel. destruct (states_fuel fuel p) as [l|]; [|discriminate].
  intros [= <-]. cbn. now rewrite !length_map.
Qed.

(** The bound read before the loop decides [i < x] for a counter. *)
Lemma counter_limit_spec (i : Z) (x : float) :
  (0 <= i)%Z -> JS.below i (JS.counter_limit x) = JS.Z_ltb_float i x.
Proof.
  intros Hi. unfold JS.counter_limit, JS.Z_ltb_float, JS.below.
  destruct (Prim2SF x) as [s|[|]| |[|] m e]; try reflexivity.
  - apply Z.ltb_ge. exact Hi.
  - apply Z.ltb_ge. exact Hi.
  - destruct (0 <=? e)%Z eqn:He.
    + apply Z.leb_le in He. rewrite (proj2 (Z.ltb_ge i 0)) by exact Hi.
      symmetry. apply Z.ltb_ge.
      pose proof (Z.pow_nonneg 2 e ltac:(lia)). nia.
    + apply Z.leb_gt in He. rewrite (proj2 (Z.ltb_ge i 0)) by exact Hi.
      symmetry. apply Z.ltb_ge.
      pose proof (Z.pow_pos_nonneg 2 (- e) ltac:(lia) ltac:(lia)). nia.
  - destruct (0 <=? e)%Z eqn:He; [reflexivity|].
    apply Z.leb_gt in He.
    assert (Hk : (0 < 2 ^ (- e))%Z) by (apply Z.pow_pos_nonneg; lia).
    set (k := (2 ^ (- e))%Z) in *.
    pose proof (Z.mul_div_le (Z.pos m + k - 1) k Hk) as H1.
    pose proof (Z.mul_succ_div_gt (Z.pos m + k - 1) k Hk) as H2.
    destruct (i * k <? Z.pos m)%Z eqn:E.
    + apply Z.ltb_lt in E. apply Z.ltb_lt. nia.
    + apply Z.ltb_ge in E. apply Z.ltb_ge. nia.
Qed.

Lemma below_mono (i j : Z) (limit : option Z) :
  (i <= j)%Z -> JS.below i limit = false -> JS.below j limit = false.
Proof.
  destruct limit as [n|]; simpl; [|discriminate].
  rewrite !Z.ltb_ge. lia.
Qed.

Lemma rk4_loop_terminates (p : Params) (limit : option Z) (n : Z) :
  (0 <= n <= 2 ^ 53)%Z -> JS.below n limit = false ->
  forall k i s acc,
    (0 <= i)%Z -> (n - i <= Z.of_nat k)%Z ->
    exists l, rk4_loop (S k) p limit i s acc = Some l.
Proof.
  intros Hn Hb. induction k as [|k IH]; intros i s acc Hi Hk.
  - simpl. rewrite (below_mono n i) by (auto; lia). eauto.
  - cbn [rk4_loop].
    destruct (JS.below i limit) eqn:Hlt; [|eauto].
    destruct (JS.geb (st_t s) (t_end_min p)); [eauto|].
    assert (i < n)%Z.
    { destruct (Z.lt_ge_cases i n) as [?|Hge]; auto.
      rewrite (below_mono n i) in Hlt by (auto; lia). discriminate. }
    change (2 ^ 53)%Z with 9007199254740992%Z in Hn.
    apply IH.
    + unfold JS.incr. destruct (i <? 9007199254740992)%Z; lia.
    + unfold JS.incr. destruct (i <? 9007199254740992)%Z eqn:E.
      * lia.
      * apply Z.ltb_ge in E. lia.
Qed.

Lemma solveRK4_terminates (p : Params) (n : Z) :
  counter_bound p n ->
  exists sol, solveRK4_fuel (S (Z.to_nat n)) p = Some sol.
Proof.
  intros [Hn Hb]. unfold solveRK4_fuel, states_fuel.
  destruct (rk4_loop_terminates p _ n Hn Hb (Z.to_nat n) 0%Z (init_state p)
              [init_state p]) as [l Hl].
  - lia.
  - lia.
  - rewrite Hl. simpl. eauto.
Qed.

(** *** Weight *)

Lemma rk4_loop_weight (fuel : nat) (p : Params) (w : float)
    (limit : option Z) :
  forall i s acc,
    rk4_loop fuel (set_weight p w) limit i s acc
    = rk4_loop fuel p limit i s acc.
Proof.
  induction fuel as [|fuel IH]; intros i s acc; [reflexivity|].
  cbn [rk4_loop].
  change (t_end_min (set_weight p w)) with (t_end_min p).
  change (rk4_step s (set_weight p w)) with (rk4_step s p).
  now rewrite IH.
Qed.

(** Claim C10.  Two parameter sets that differ only in the weight give
    the same time, A1, A2 and A3 sequences (and the run of one ends exactly
    when the run of the other does); the weight enters only the C1 sequence,
    each A1 divided by [V1_per_kg * weight]. *)
Theorem weight_only_scales_C1 (fuel : nat) (p : Params) (w : float) :
  match solveRK4_fuel fuel p, solveRK4_fuel fuel (set_weight p w) with
  | Some sol, Some sol' =>
      sol_t sol' = sol_t sol /\ sol_A1 sol' = sol_A1 sol
      /\ sol_A2 sol' = sol_A2 sol /\ sol_A3 sol' = sol_A3 sol
      /\ sol_C1 sol = map (fun a => a / (V1_per_kg * weight p)) (sol_A1 sol)
      /\ sol_C1 sol' = map (fun a => a / (V1_per_kg * w)) (sol_A1 sol)
  | None, None => True
  | _, _ => False
  end.
Proof.
  unfold solveRK4_fuel, states_fuel.
  change (init_state (set_weight p w)) with (init_state p).
  change (nSteps (set_weight p w)) with (nSteps p).
  rewrite rk4_loop_weight.
  destruct (rk4_loop fuel p _ 0 (init_state p) [init_state p]) as [l|]; simpl;
    auto 10.
Qed.

(** *** Metrics *)

Lemma metrics_body_first (sol : Sol) (m : Metrics) :
  cmax m = neg_infinity ->
  above_neg_inf (at_index (sol_C1 sol) 0) ->
  peak_inv sol 1 (metrics_body sol 0 m).
Proof.
  intros Hm Hc. unfold metrics_body, JS.gtb. rewrite Hm.
  unfold above_neg_inf in Hc. rewrite Hc.
  exists 0%nat. cbn [cmax tmax]. repeat split; auto.
  - intros j Hj. replace j with 0%nat by lia.
    apply leb_refl. eapply ltb_not_nan_r; eauto.
  - intros j Hj. lia.
Qed.

Lemma metrics_body_next (sol : Sol) (i : nat) (m : Metrics) :
  peak_inv sol i m ->
  above_neg_inf (at_index (sol_C1 sol) i) ->
  peak_inv sol (S i) (metrics_body sol i m).
Proof.
  intros (k & Hk & Hc & Ht & Hle & Hlt) Hi.
  pose proof (ltb_not_nan_r _ _ Hi) as Hin.
  unfold metrics_body, JS.gtb.
  destruct (cmax m <? at_index (sol_C1 sol) i) eqn:E.
  - exists i. cbn [cmax tmax]. repeat split; auto.
    + intros j Hj. destruct (Nat.eq_dec j i) as [->|Hne].
      * now apply leb_refl.
      * apply ltb_leb. eapply leb_ltb_trans; [apply Hle; lia | exact E].
    + intros j Hj. eapply leb_ltb_trans; [apply Hle; lia | exact E].
  - exists k. cbn [cmax tmax]. repeat split; auto.
    intros j Hj. destruct (Nat.eq_dec j i) as [->|Hne].
    + apply ltb_false_leb; auto.
      eapply leb_not_nan_r. apply (Hle k Hk).
    + apply Hle. lia.
Qed.

Lemma metrics_loop_peak (sol : Sol) :
  forall n i m,
    peak_inv sol i m ->
    (forall j, (i <= j < i + n)%nat -> above_neg_inf (at_index (sol_C1 sol) j)) ->
    peak_inv sol (i + n) (metrics_loop sol n i m).
Proof.
  induction n as [|n IH]; intros i m Hinv Hall; simpl.
  - now rewrite Nat.add_0_r.
  - replace (i + S n)%nat with (S i + n)%nat by lia.
    apply IH.
    + apply metrics_body_next; auto. apply Hall. lia.
    + intros j Hj. apply Hall. lia.
Qed.

Lemma Forall_at_index (P : float -> Prop) (l : list float) (j : nat) :
  Forall P l -> (j < List.length l)%nat -> P (at_index l j).
Proof.
  intros HF Hj. rewrite Forall_forall in HF. apply HF.
  unfold at_index. now apply nth_In.
Qed.

(** Claim C5, as amended.  For a trace that is not empty and whose
    concentrations are all numbers above [-Infinity] (none is NaN),
    [cmax] is the largest concentration and [tmax] is the time of the first
    index that attains it: every sample is [<= cmax] and every sample before
    that index is [< cmax]. *)
Theorem computeMetrics_peak (sol : Sol) :
  sol_C1 sol <> [] ->
  Forall above_neg_inf (sol_C1 sol) ->
  peak_at_first_max sol (computeMetrics sol).
Proof.
  intros Hne Hall. unfold computeMetrics, peak_at_first_max.
  destruct (List.length (sol_C1 sol)) as [|n] eqn:Hlen.
  - destruct (sol_C1 sol); [congruence | discriminate].
  - cbn [metrics_loop].
    assert (Hat : forall j, (j < S n)%nat ->
                            above_neg_inf (at_index (sol_C1 sol) j)).
    { intros j Hj. apply Forall_at_index; auto. lia. }
    pose proof (metrics_loop_peak sol n 1
                  (metrics_body sol 0
                     {| cmax := neg_infinity; tmax := 0; auc := 0 |})) as H.
    replace (1 + n)%nat with (S n) in H by lia.
    apply H.
    + apply metrics_body_first; [reflexivity | apply Hat; lia].
    + intros j Hj. apply Hat. lia.
Qed.

(** With the maximum 7 at the times 2 and 3, [tmax] is 2. *)
Lemma computeMetrics_peak_witness :
  sol_C1 tie_sample <> []
  /\ Forall above_neg_inf (sol_C1 tie_sample)
  /\ peak_at_first_max tie_sample (computeMetrics tie_sample)
  /\ computeMetrics tie_sample = {| cmax := 7; tmax := 2; auc := 15.5 |}.
Proof.
  assert (H1 : sol_C1 tie_sample <> []) by discriminate.
  assert (H2 : Forall above_neg_inf (sol_C1 tie_sample))
    by (repeat constructor).
  split; [exact H1|]. split; [exact H2|].
  split; [exact (computeMetrics_peak tie_sample H1 H2) | reflexivity].
Defined.

(** Claim C9, as amended.  For a trace without points the metrics are
    [cmax = -Infinity], [tmax = 0] and [auc = 0]; the page shows a dash for
    that [cmax], and the number [0] for a concentration of zero, so the two
    are told apart.  For a trace of one point whose concentration is a number
    above [-Infinity], [auc = 0] and [cmax] and [tmax] are the concentration
    and the time of that point. *)
Theorem computeMetrics_degenerate :
  (forall ts a1 a2 a3,
      let m := computeMetrics (mkSol ts a1 a2 a3 []) in
      m = {| cmax := neg_infinity; tmax := 0; auc := 0 |}
      /\ cmax_shown m = None
      /\ cmax_shown {| cmax := 0; tmax := 0; auc := 0 |} = Some 0)
  /\ (forall t0 c0 a1 a2 a3,
         above_neg_inf c0 ->
         computeMetrics (mkSol [t0] a1 a2 a3 [c0])
         = {| cmax := c0; tmax := t0; auc := 0 |}).
Proof.
  split.
  - intros. repeat split.
  - intros t0 c0 a1 a2 a3 Hc. unfold computeMetrics.
    cbn [sol_C1 List.length metrics_loop].
    unfold metrics_body, JS.gtb, at_index.
    cbn [sol_C1 sol_t nth cmax tmax auc].
    unfold above_neg_inf in Hc. rewrite Hc. reflexivity.
Qed.

(** *** Classes of doubles *)

Lemma zero_valued_F_zero (x : float) : zero_valued x <-> F_zero x.
Proof.
  unfold zero_valued, is_zero, F_zero. rewrite FloatAxioms.eqb_spec.
  change (Prim2SF PrimFloat.zero) with (S754_zero false).
  destruct (Prim2SF x) as [[|]|[|]| |[|] m e]; split;
    try discriminate; try (intros [s H]; discriminate); eauto.
Qed.

Lemma F_fnn_finz (x : float) : F_fnn x -> F_finz x.
Proof. apply finite_nonneg_finite. Qed.

Lemma F_fnn_nn (x : float) : F_fnn x -> F_nn x.
Proof. apply finite_nonneg_signed. Qed.

Lemma F_nn_not_nan (x : float) : F_nn x -> is_nan x = false.
Proof.
  intros H. apply not_nan_is_nan. intros E. unfold F_nn in H.
  rewrite E in H. exact H.
Qed.

Lemma F_zero_not_nan (x : float) : F_zero x -> is_nan x = false.
Proof.
  intros [s H]. apply not_nan_is_nan. rewrite H. discriminate.
Qed.

Lemma is_finite_spec (x : float) :
  is_finite x = true -> finite_or_zero (Prim2SF x).
Proof.
  unfold is_finite, is_nan, is_infinity.
  rewrite !FloatAxioms.eqb_spec, abs_spec.
  change (Prim2SF infinity) with (S754_infinity false).
  destruct (Prim2SF x) as [[|]|[|]| |[|] m e]; try discriminate; intros _;
    exact I.
Qed.

Lemma positive_real_fnn (x : float) :
  positive_real x = true ->
  exists m e, Prim2SF x = S754_finite false m e.
Proof.
  unfold positive_real. rewrite andb_true_iff, FloatAxioms.ltb_spec.
  intros [Hf H]. apply is_finite_spec in Hf.
  change (Prim2SF 0) with (S754_zero false) in H.
  destruct (Prim2SF x) as [[|]|[|]| |[|] m e]; try discriminate;
    try contradiction; eauto.
Qed.

Lemma positive_real_F_fnn (x : float) : positive_real x = true -> F_fnn x.
Proof.
  intros H. destruct (positive_real_fnn x H) as (m & e & E).
  unfold F_fnn. rewrite E. exact I.
Qed.

(** *** The step cap *)

Lemma fnn_positive_real (x : float) (m : positive) (e : Z) :
  Prim2SF x = S754_finite false m e -> positive_real x = true.
Proof.
  intros E. unfold positive_real, is_finite, is_infinity.
  rewrite not_nan_is_nan by (rewrite E; discriminate).
  rewrite FloatAxioms.eqb_spec, abs_spec, FloatAxioms.ltb_spec, E.
  reflexivity.
Qed.

(** The step the cap installs is a positive number: a horizon small enough
    for [t_end / 20000] to be rounded to zero never asks for more than
    20000 steps. *)
Lemma capped_step_positive (T dt : float) :
  positive_real T = true -> positive_real dt = true ->
  JS.gtb (T / dt) MAX_STEPS = true ->
  positive_real (T / MAX_STEPS) = true.
Proof.
  intros HT Hdt Hgt.
  destruct (positive_real_fnn T HT) as (mx & ex & ET).
  destruct (positive_real_fnn dt Hdt) as (my & ey & ED).
  unfold JS.gtb in Hgt. rewrite FloatAxioms.ltb_spec, div_spec, ET, ED in Hgt.
  pose proof (Prim2SF_valid T) as VT. rewrite ET in VT.
  pose proof (Prim2SF_valid dt) as VD. rewrite ED in VD.
  pose proof (Prim2SF_valid (T / dt)) as VQ. rewrite div_spec, ET, ED in VQ.
  destruct (SFdiv_cap mx my ex ey VT VD VQ Hgt) as (m & e & E).
  apply (fnn_positive_real _ m e). rewrite div_spec, ET. exact E.
Qed.

Lemma cap_steps_normalized (p : Params) :
  normalized p -> normalized (fst (cap_steps p)).
Proof.
  intros Hp. unfold cap_steps.
  destruct (JS.gtb (t_end_min p / dt_min p) MAX_STEPS) eqn:G; [|exact Hp].
  destruct (normalized_fields p Hp) as (Hw & Hb & Hr & Hd & HT & Hdt).
  unfold normalized, normalizedb. cbn [fst set_dt weight bolus_mg
    infusion_mg_min infusion_duration_min t_end_min dt_min].
  rewrite Hw, Hb, Hr, Hd, HT, (capped_step_positive _ _ HT Hdt G).
  reflexivity.
Qed.

Lemma readParams_ok (raw : Params) : normalized (readParams raw).
Proof.
  unfold readParams, readParams_ui. apply cap_steps_normalized.
  apply guardrails_ok.
Qed.

(** Claim C1.  Whatever the six raw fields hold (NaN for a field that is
    missing or not a number, an infinity, a value out of range), the
    guardrail block of [readParams] returns a parameter set that meets every
    constraint of the data model: weight, horizon and step are finite and
    positive, the bolus, the infusion rate and the infusion duration are
    finite and not negative.  A field that already meets its constraint is
    kept; any other is replaced by its default (70, 0, 0, 0, 240, 0.2).  The
    constraints still hold of what [readParams] returns once the step cap
    has been applied.  Both are total functions: no error is signalled. *)
Theorem guardrails_normalized (raw : Params) :
  normalized (guardrails raw)
  /\ weight (guardrails raw)
       = (if positive_real (weight raw) then weight raw else 70)
  /\ bolus_mg (guardrails raw)
       = (if nonneg_real (bolus_mg raw) then bolus_mg raw else 0)
  /\ infusion_mg_min (guardrails raw)
       = (if nonneg_real (infusion_mg_min raw) then infusion_mg_min raw else 0)
  /\ infusion_duration_min (guardrails raw)
       = (if nonneg_real (infusion_duration_min raw)
          then infusion_duration_min raw else 0)
  /\ t_end_min (guardrails raw)
       = (if positive_real (t_end_min raw) then t_end_min raw else 240)
  /\ dt_min (guardrails raw)
       = (if positive_real (dt_min raw) then dt_min raw else 0.2)
  /\ normalized (readParams raw).
Proof.
  split; [apply guardrails_ok|].
  unfold guardrails; simpl.
  repeat split; auto using guard_pos_keeps, guard_nonneg_keeps.
  apply readParams_ok.
Qed.

(** *** The number of passes of the loop *)

(** A loop bounded by the double of an integer [n] runs [n] times at most. *)
Lemma counter_limit_of_Z (n : Z) :
  (0 <= n < 2 ^ 53)%Z -> JS.counter_limit (JS.of_Z n) = Some n.
Proof.
  intros [H0 Hn]. unfold JS.counter_limit, JS.of_Z.
  destruct n as [|n|n]; try lia.
  - cbn [binary_normalize]. rewrite Prim2SF_SF2Prim by reflexivity.
    reflexivity.
  - destruct (binary_normalize_int n Hn) as (mz & ez & -> & Hez & Hmz & V).
    rewrite Prim2SF_SF2Prim by exact V.
    destruct (0 <=? ez)%Z eqn:E.
    + apply Z.leb_le in E. assert (ez = 0)%Z by lia. subst ez.
      f_equal. rewrite Hmz. simpl. lia.
    + f_equal. rewrite Hmz.
      assert (0 < 2 ^ (- ez))%Z by (apply Z.pow_pos_nonneg; lia).
      symmetry. apply Z.div_unique with (r := (2 ^ (- ez) - 1)%Z); lia.
Qed.

(** The loop bound [Math.ceil(x)] of a number below [2^k]. *)
Lemma counter_limit_ceil (x : float) (k : Z) :
  finite_nonneg (Prim2SF x) -> (magnitude (Prim2SF x) <= k)%Z ->
  (0 <= k <= 52)%Z ->
  exists n, JS.counter_limit (JS.Math_ceil x) = Some n /\ (0 <= n <= 2 ^ k)%Z.
Proof.
  intros Hf Hm Hk.
  assert (P : (0 < 2 ^ k)%Z) by (apply Z.pow_pos_nonneg; lia).
  destruct (Prim2SF x) as [[|]|[|]| |[|] m e] eqn:E; try contradiction.
  - exists 0%Z. unfold JS.Math_ceil. rewrite E. unfold JS.counter_limit.
    rewrite E. split; [reflexivity | lia].
  - cbn [magnitude] in Hm.
    pose proof (Zdigits2_bounds (Z.pos m) ltac:(lia)) as [_ Hb].
    pose proof (Zdigits2_pos (Z.pos m) ltac:(lia)) as Hd.
    unfold JS.Math_ceil. rewrite E.
    destruct (0 <=? e)%Z eqn:He.
    + apply Z.leb_le in He. unfold JS.counter_limit. rewrite E.
      rewrite (proj2 (Z.leb_le 0 e) He).
      exists (Z.pos m * 2 ^ e)%Z. split; [reflexivity|].
      assert (0 < 2 ^ e)%Z by (apply Z.pow_pos_nonneg; lia).
      assert (2 ^ Zdigits2 (Z.pos m) * 2 ^ e <= 2 ^ k)%Z.
      { rewrite <- Z.pow_add_r by lia. apply Z.pow_le_mono_r; lia. }
      nia.
    + apply Z.leb_gt in He.
      set (K := (2 ^ (- e))%Z).
      assert (HK : (0 < K)%Z) by (apply Z.pow_pos_nonneg; lia).
      assert (Hle : (Z.pos m < K * 2 ^ k)%Z).
      { unfold K. rewrite <- Z.pow_add_r by lia.
        eapply Z.lt_le_trans; [exact Hb|]. apply Z.pow_le_mono_r; lia. }
      assert (Hn : (0 <= (Z.pos m + K - 1) / K <= 2 ^ k)%Z).
      { split; [apply Z.div_pos; lia|].
        apply Z.lt_succ_r. apply Z.div_lt_upper_bound; [exact HK|]. lia. }
      exists ((Z.pos m + K - 1) / K)%Z. split; [|exact Hn].
      apply counter_limit_of_Z. split; [lia|].
      eapply Z.le_lt_trans; [apply Hn|]. apply Z.pow_lt_mono_r; lia.
Qed.

(** Without the cap, the quotient [t_end / dt] is at most [20000]. *)
Lemma steps_uncapped (T dt : float) :
  positive_real T = true -> positive_real dt = true ->
  JS.gtb (T / dt) MAX_STEPS = false ->
  finite_nonneg (Prim2SF (T / dt))
  /\ (magnitude (Prim2SF (T / dt)) <= 15)%Z.
Proof.
  intros HT Hdt Hgt.
  destruct (positive_real_fnn T HT) as (mx & ex & ET).
  destruct (positive_real_fnn dt Hdt) as (my & ey & ED).
  unfold JS.gtb in Hgt. rewrite FloatAxioms.ltb_spec in Hgt.
  pose proof (Prim2SF_valid (T / dt)) as VQ.
  pose proof (SFdiv_signed mx my ex ey) as Sg.
  rewrite div_spec, ET, ED in *.
  change (Prim2SF MAX_STEPS) with cap_number in Hgt.
  destruct (SF64div _ _) as [b|b| |b m e] eqn:E; try contradiction;
    cbn [signed] in Sg; subst b.
  - split; [exact I | cbn [magnitude]; lia].
  - discriminate.
  - split; [exact I|].
    change 15%Z with (magnitude cap_number).
    apply le_magnitude; try reflexivity; try assumption.
    apply SFlt_false_le; [discriminate | discriminate | exact Hgt].
Qed.

(** With the cap, the quotient [t_end / dt] is below [2^18]. *)
Lemma steps_capped (T : float) :
  positive_real T = true -> positive_real (T / MAX_STEPS) = true ->
  finite_nonneg (Prim2SF (T / (T / MAX_STEPS)))
  /\ (magnitude (Prim2SF (T / (T / MAX_STEPS))) <= 18)%Z.
Proof.
  intros HT Hdt.
  destruct (positive_real_fnn T HT) as (mx & ex & ET).
  destruct (positive_real_fnn _ Hdt) as (my & ey & ED).
  pose proof (Prim2SF_valid T) as VT. rewrite ET in VT.
  pose proof (Prim2SF_valid (T / MAX_STEPS)) as VD. rewrite ED in VD.
  assert (E : SF64div (S754_finite false mx ex) cap_number
              = S754_finite false my ey).
  { rewrite <- ED, div_spec, ET. reflexivity. }
  pose proof (SFdiv_cap_magnitude mx my ex ey VT VD E) as G.
  rewrite (div_spec T), ET, ED.
  destruct (SFdiv_magnitude mx my ex ey VT VD ltac:(lia)) as [Hf Hm].
  split; [exact Hf | lia].
Qed.

(** Every parameter set [readParams] returns bounds the loop counter of
    [solveRK4]. *)
Lemma readParams_counter_bound (raw : Params) :
  counter_bound (readParams raw) (2 ^ 18).
Proof.
  unfold readParams, readParams_ui.
  pose proof (guardrails_ok raw) as Hp.
  set (p := guardrails raw) in *.
  destruct (normalized_fields p Hp) as (_ & _ & _ & _ & HT & Hdt).
  assert (B : forall n, (0 <= n <= 2 ^ 18)%Z ->
              JS.below (2 ^ 18) (Some n) = false).
  { intros n Hn. apply Z.ltb_ge. lia. }
  unfold counter_bound, cap_steps, nSteps.
  split; [split; [lia | apply Z.pow_le_mono_r; lia]|].
  destruct (JS.gtb (t_end_min p / dt_min p) MAX_STEPS) eqn:G;
    cbn [fst set_dt t_end_min dt_min].
  - pose proof (capped_step_positive _ _ HT Hdt G) as Hc.
    destruct (steps_capped _ HT Hc) as [Hf Hm].
    destruct (counter_limit_ceil _ 18 Hf Hm ltac:(lia)) as (n & -> & Hn).
    apply B. exact Hn.
  - destruct (steps_uncapped _ _ HT Hdt G) as [Hf Hm].
    destruct (counter_limit_ceil _ 15 Hf Hm ltac:(lia)) as (n & -> & Hn).
    apply B. split; [lia|]. etransitivity; [apply Hn|].
    apply Z.pow_le_mono_r; lia.
Qed.

(** [solveRK4] returns on every parameter set [readParams] produces. *)
Lemma solveRK4_total (raw : Params) :
  exists sol,
    solveRK4_fuel (S (Z.to_nat (2 ^ 18))) (readParams raw) = Some sol.
Proof. apply solveRK4_terminates. apply readParams_counter_bound. Qed.

(** *** Masses are never negative *)

Lemma Math_max_0_not_negative (x : float) : not_negative (JS.Math_max 0 x).
Proof.
  unfold JS.Math_max, not_negative.
  change (is_nan 0) with false. cbn [orb].
  destruct (is_nan x) eqn:Hn; [split; [reflexivity | left; reflexivity]|].
  destruct (0 <? x) eqn:H1.
  - split; [now apply ltb_asym | right; now apply ltb_leb].
  - destruct (x <? 0) eqn:H2; split; try reflexivity; right; reflexivity.
Qed.

Lemma nonneg_not_negative (x : float) : nonneg x -> not_negative x.
Proof.
  unfold nonneg, not_negative. intros H. split; [|now right].
  destruct (x <? 0) eqn:E; [|reflexivity].
  apply ltb_leb_false in E. congruence.
Qed.

Lemma rk4_step_not_negative (s : State) (p : Params) :
  masses_not_negative (rk4_step s p).
Proof.
  unfold rk4_step. destruct (rk4_masses _ s p) as [[a1 a2] a3].
  repeat split; apply Math_max_0_not_negative.
Qed.

Lemma solveRK4_fuel_states (fuel : nat) (p : Params) (sol : Sol) :
  solveRK4_fuel fuel p = Some sol ->
  exists l, states_fuel fuel p = Some l /\ sol = sol_of_states p l.
Proof.
  unfold solveRK4_fuel. destruct (states_fuel fuel p) as [l|]; simpl;
    [|discriminate].
  intros [= <-]. eauto.
Qed.

(** Claim C4, as amended.  For a normalized parameter set, no mass of the
    trace is ever negative: at every index each of A1, A2 and A3 is either
    [>= 0] or NaN, and [A < 0] never holds.  (The clamp [Math.max(0, A)]
    returns NaN for a NaN, which an overflow in the update can produce.)
    The trace exists as soon as the loop counter is bounded, which it is,
    by [2^18], for every parameter set that [readParams] returns. *)
Theorem masses_never_negative (p : Params) :
  normalized p ->
  (forall fuel sol,
      solveRK4_fuel fuel p = Some sol ->
      Forall not_negative (sol_A1 sol)
      /\ Forall not_negative (sol_A2 sol)
      /\ Forall not_negative (sol_A3 sol))
  /\ (forall n, counter_bound p n ->
                exists sol, solveRK4_fuel (S (Z.to_nat n)) p = Some sol)
  /\ (forall raw, p = readParams raw -> counter_bound p (2 ^ 18)).
Proof.
  intros Hn. split; [|split; [apply solveRK4_terminates|]].
  2: { intros raw ->. apply readParams_counter_bound. }
  intros fuel sol Hsol.
  destruct (solveRK4_fuel_states _ _ _ Hsol) as (l & Hl & ->).
  assert (HF : Forall masses_not_negative l).
  { eapply states_fuel_Forall; [| |exact Hl].
    - intros s _ _. apply rk4_step_not_negative.
    - destruct (normalized_fields p Hn) as (_ & Hb & _).
      unfold nonneg_real in Hb. apply andb_true_iff in Hb as [_ Hb].
      split; [apply nonneg_not_negative; exact Hb|].
      split; apply nonneg_not_negative; reflexivity. }
  simpl. rewrite !Forall_map.
  repeat split; eapply Forall_impl; try exact HF; intros s Hs; apply Hs.
Qed.

Lemma masses_never_negative_witness :
  normalized (readParams raw_infusion)
  /\ exists sol,
       solveRK4_fuel 3 (readParams raw_infusion) = Some sol
       /\ Forall not_negative (sol_A1 sol)
       /\ Forall not_negative (sol_A2 sol)
       /\ Forall not_negative (sol_A3 sol).
Proof.
  assert (Hn : normalized (readParams raw_infusion))
    by (vm_compute; reflexivity).
  split; [exact Hn|].
  destruct (masses_never_negative (readParams raw_infusion) Hn)
    as (H1 & H2 & _).
  destruct (H2 2%Z) as [sol Hsol].
  - split; [lia | vm_compute; reflexivity].
  - exists sol. split; [exact Hsol | exact (H1 _ _ Hsol)].
Defined.

(** *** Arithmetic on zeros *)

Lemma F_zero_add (a b : float) : F_zero a -> F_zero b -> F_zero (a + b).
Proof. unfold F_zero. rewrite add_spec. apply SFadd_zero. Qed.

Lemma F_zero_sub (a b : float) : F_zero a -> F_zero b -> F_zero (a - b).
Proof. unfold F_zero. rewrite sub_spec. apply SFsub_zero. Qed.

Lemma F_zero_mul_l (a b : float) : F_zero a -> F_finz b -> F_zero (a * b).
Proof. unfold F_zero, F_finz. rewrite mul_spec. apply SFmul_zero_l. Qed.

Lemma F_zero_mul_r (a b : float) : F_finz a -> F_zero b -> F_zero (a * b).
Proof. unfold F_zero, F_finz. rewrite mul_spec. apply SFmul_zero_r. Qed.

Lemma F_finz_half (h : float) : F_fnn h -> F_finz (0.5 * h).
Proof.
  unfold F_fnn, F_finz. rewrite mul_spec. intros H.
  change (Prim2SF 0.5) with (S754_finite false 4503599627370496 (-53)).
  apply SFmul_half; [apply Prim2SF_valid | exact H].
Qed.

Lemma F_finz_sixth (h : float) : F_fnn h -> F_finz (h / 6).
Proof.
  unfold F_fnn, F_finz. rewrite div_spec. intros H.
  change (Prim2SF 6) with (S754_finite false 6755399441055744 (-50)).
  apply SFdiv_six; [apply Prim2SF_valid | exact H].
Qed.

Lemma F_zero_0 : F_zero 0.
Proof. exists false. reflexivity. Qed.

Lemma Math_max_0_zero (a : float) : F_zero a -> JS.Math_max 0 a = 0.
Proof.
  intros Ha. unfold JS.Math_max.
  rewrite (F_zero_not_nan a Ha). change (is_nan 0) with false. cbn [orb].
  rewrite !FloatAxioms.ltb_spec. destruct Ha as [s Hs]. rewrite Hs.
  change (Prim2SF 0) with (S754_zero false).
  destruct s; reflexivity.
Qed.

(** *** The derivative without dose *)

Lemma no_dose_of_zero (p : Params) :
  zero_valued (infusion_mg_min p) \/ zero_valued (infusion_duration_min p) ->
  no_dose p.
Proof.
  intros H t. unfold doseRate.
  assert (Hz : forall x, zero_valued x -> (x <=? 0) = true).
  { intros x Hx. apply zero_valued_F_zero in Hx as [s Hs].
    rewrite FloatAxioms.leb_spec, Hs. destruct s; reflexivity. }
  destruct H as [H|H]; rewrite (Hz _ H); [reflexivity|].
  rewrite orb_true_r. reflexivity.
Qed.

(** Goals of the form [F_zero e], for [e] built from zeros by sums,
    differences and products with finite factors. *)
Ltac zero_arith :=
  repeat first
    [ assumption
    | apply F_zero_0
    | apply F_zero_add
    | apply F_zero_sub
    | apply F_zero_mul_r; [first [assumption | exact I] |]
    | apply F_zero_mul_l; [| first [assumption | exact I]] ].

Lemma deriv_zero (t A1 A2 A3 : float) (p : Params) :
  no_dose p -> F_zero A1 -> F_zero A2 -> F_zero A3 ->
  F_zero (fst (fst (deriv t A1 A2 A3 p)))
  /\ F_zero (snd (fst (deriv t A1 A2 A3 p)))
  /\ F_zero (snd (deriv t A1 A2 A3 p)).
Proof.
  intros Hd H1 H2 H3. unfold deriv. cbn [fst snd]. rewrite Hd.
  repeat split; zero_arith.
Qed.

Lemma rk4_masses_zero (h : float) (s : State) (p : Params) :
  no_dose p -> F_fnn h ->
  F_zero (st_A1 s) -> F_zero (st_A2 s) -> F_zero (st_A3 s) ->
  F_zero (fst (fst (rk4_masses h s p)))
  /\ F_zero (snd (fst (rk4_masses h s p)))
  /\ F_zero (snd (rk4_masses h s p)).
Proof.
  intros Hd Hh H1 H2 H3. unfold rk4_masses.
  pose proof (F_finz_half h Hh) as Hhalf.
  pose proof (F_finz_sixth h Hh) as Hsixth.
  pose proof (F_fnn_finz h Hh) as Hfin.
  destruct (deriv (st_t s) (st_A1 s) (st_A2 s) (st_A3 s) p)
    as [[k10' k11'] k12'] eqn:E1.
  pose proof (deriv_zero (st_t s) _ _ _ p Hd H1 H2 H3) as K1.
  rewrite E1 in K1. cbn [fst snd] in K1. destruct K1 as (K10 & K11 & K12).
  match goal with |- context [deriv ?t ?a ?b ?c p] =>
    destruct (deriv t a b c p) as [[k20' k21'] k22'] eqn:E2;
    assert (K2 : F_zero k20' /\ F_zero k21' /\ F_zero k22')
      by (pose proof (deriv_zero t a b c p Hd) as K; rewrite E2 in K;
          cbn [fst snd] in K; apply K; zero_arith)
  end.
  destruct K2 as (K20 & K21 & K22).
  match goal with |- context [deriv ?t ?a ?b ?c p] =>
    destruct (deriv t a b c p) as [[k30' k31'] k32'] eqn:E3;
    assert (K3 : F_zero k30' /\ F_zero k31' /\ F_zero k32')
      by (pose proof (deriv_zero t a b c p Hd) as K; rewrite E3 in K;
          cbn [fst snd] in K; apply K; zero_arith)
  end.
  destruct K3 as (K30 & K31 & K32).
  match goal with |- context [deriv ?t ?a ?b ?c p] =>
    destruct (deriv t a b c p) as [[k40' k41'] k42'] eqn:E4;
    assert (K4 : F_zero k40' /\ F_zero k41' /\ F_zero k42')
      by (pose proof (deriv_zero t a b c p Hd) as K; rewrite E4 in K;
          cbn [fst snd] in K; apply K; zero_arith)
  end.
  destruct K4 as (K40 & K41 & K42).
  cbn [fst snd]. repeat split; zero_arith.
Qed.

(** *** The time variable *)

Lemma Math_min_cases (a b : float) :
  is_nan a = false -> is_nan b = false ->
  (JS.Math_min a b = a /\ (a <=? b) = true)
  \/ (JS.Math_min a b = b /\ (a <? b) = false).
Proof.
  intros Ha Hb. unfold JS.Math_min. rewrite Ha, Hb. cbn [orb].
  destruct (a <? b) eqn:E1.
  - left. split; [reflexivity | now apply ltb_leb].
  - destruct (b <? a) eqn:E2; [right; auto|].
    destruct (JS.is_neg_zero b); [right; auto|].
    left. split; [reflexivity | now apply ltb_false_leb].
Qed.

(** The loop takes a step only from a time below the horizon. *)
Lemma step_time_below (t T : float) :
  positive_real T = true -> F_nn t -> JS.geb t T = false ->
  F_fnn t /\ SFltb (Prim2SF t) (Prim2SF T) = true.
Proof.
  intros HT Ht Hge. unfold JS.geb in Hge.
  destruct (positive_real_fnn T HT) as (m & e & ET).
  assert (Hlt : (t <? T) = true).
  { apply leb_false_ltb; auto using F_nn_not_nan.
    apply not_nan_is_nan. rewrite ET. discriminate. }
  rewrite FloatAxioms.ltb_spec in Hlt. split; [|exact Hlt].
  unfold F_fnn, F_nn in *. rewrite ET in Hlt.
  destruct (Prim2SF t) as [[|]|[|]| |[|] mt et]; try discriminate;
    try contradiction; try exact I; simpl in Ht; congruence.
Qed.

Lemma remaining_nn (t T : float) :
  positive_real T = true -> F_fnn t ->
  SFltb (Prim2SF t) (Prim2SF T) = true ->
  F_nn (T - t).
Proof.
  intros HT Ht Hlt. unfold F_nn. rewrite sub_spec.
  apply SFsub_pos; auto using Prim2SF_valid.
  now apply positive_real_F_fnn.
Qed.

Lemma step_size_fnn (s : State) (p : Params) :
  positive_real (t_end_min p) = true -> positive_real (dt_min p) = true ->
  F_nn (st_t s) -> JS.geb (st_t s) (t_end_min p) = false ->
  F_fnn (step_size s p).
Proof.
  intros HT Hdt Ht Hge.
  destruct (step_time_below _ _ HT Ht Hge) as [Hfnn Hlt].
  pose proof (remaining_nn _ _ HT Hfnn Hlt) as Hd.
  pose proof (positive_real_F_fnn _ Hdt) as Hdt'.
  unfold step_size.
  destruct (Math_min_cases (dt_min p) (t_end_min p - st_t s)) as [[-> _]|[-> Hn]];
    auto using F_nn_not_nan, F_fnn_nn.
  rewrite FloatAxioms.ltb_spec in Hn.
  destruct (positive_real_fnn _ Hdt) as (m & e & E). rewrite E in Hn.
  unfold F_fnn, F_nn in *.
  destruct (Prim2SF (t_end_min p - st_t s)) as [[|]|[|]| |[|] md ed];
    try discriminate; try contradiction; try exact I; simpl in Hd; congruence.
Qed.

Lemma next_time_nn (t h : float) : F_fnn t -> F_fnn h -> F_nn (t + h).
Proof. unfold F_fnn, F_nn. rewrite add_spec. apply SFadd_nonneg. Qed.

(** *** The trace without dose *)

Lemma rk4_step_zero (s : State) (p : Params) :
  positive_real (t_end_min p) = true -> positive_real (dt_min p) = true ->
  no_dose p -> zero_state s -> JS.geb (st_t s) (t_end_min p) = false ->
  zero_state (rk4_step s p).
Proof.
  intros HT Hdt Hd (Ht & H1 & H2 & H3) Hge.
  pose proof (step_size_fnn s p HT Hdt Ht Hge) as Hh.
  destruct (step_time_below _ _ HT Ht Hge) as [Hfnn _].
  pose proof (rk4_masses_zero (step_size s p) s p Hd Hh H1 H2 H3) as HM.
  unfold rk4_step.
  destruct (rk4_masses (step_size s p) s p) as [[a1 a2] a3].
  cbn [fst snd] in HM. destruct HM as (M1 & M2 & M3).
  unfold zero_state. cbn [st_t st_A1 st_A2 st_A3].
  rewrite !Math_max_0_zero by assumption.
  repeat split; auto using next_time_nn, F_zero_0.
Qed.

(** *** Time stamps stay within the horizon *)

Lemma F_fnn_leb (a b : float) :
  F_fnn a -> F_fnn b -> (a <=? b) = (sc a <=? sc b)%Z.
Proof.
  intros Ha Hb. rewrite FloatAxioms.leb_spec.
  apply SFleb_scaled; auto using Prim2SF_valid.
Qed.

Lemma F_fnn_ltb (a b : float) :
  F_fnn a -> F_fnn b -> (a <? b) = (sc a <? sc b)%Z.
Proof.
  intros Ha Hb. rewrite FloatAxioms.ltb_spec.
  apply SFltb_scaled; auto using Prim2SF_valid.
Qed.

Lemma sc_zero (t : float) : F_fnn t -> sc t = 0%Z -> Prim2SF t = S754_zero false.
Proof.
  unfold F_fnn, sc. intros Hf Hs. pose proof (Prim2SF_valid t) as V.
  destruct (Prim2SF t) as [[|]|[|]| |[|] m e]; try contradiction;
    try reflexivity.
  pose proof (scaled_pos _ _ _ V). lia.
Qed.

(** The step the loop takes: at most [dt], at most what is left. *)
Lemma step_size_le (s : State) (p : Params) :
  positive_real (t_end_min p) = true -> positive_real (dt_min p) = true ->
  F_nn (st_t s) -> JS.geb (st_t s) (t_end_min p) = false ->
  let h := step_size s p in
  let d := t_end_min p - st_t s in
  F_fnn h /\ F_fnn d
  /\ ((h = dt_min p /\ (sc (dt_min p) <= sc d)%Z)
      \/ (h = d /\ (sc d <= sc (dt_min p))%Z)).
Proof.
  intros HT Hdt Ht Hge. cbv zeta.
  pose proof (step_size_fnn s p HT Hdt Ht Hge) as Hh.
  destruct (step_time_below _ _ HT Ht Hge) as [Hfnn Hlt].
  pose proof (positive_real_F_fnn _ HT) as HTf.
  pose proof (positive_real_F_fnn _ Hdt) as Hdtf.
  assert (Hd : F_fnn (t_end_min p - st_t s)).
  { unfold F_fnn. rewrite sub_spec.
    apply SFsub_bounded; auto using Prim2SF_valid.
    rewrite SFltb_scaled in Hlt by auto using Prim2SF_valid.
    now apply Z.ltb_lt. }
  split; [exact Hh|]. split; [exact Hd|].
  unfold step_size in *.
  destruct (Math_min_cases (dt_min p) (t_end_min p - st_t s))
    as [[E Hle]|[E Hn]]; auto using F_nn_not_nan, F_fnn_nn.
  - left. split; [exact E|].
    rewrite F_fnn_leb in Hle by assumption. now apply Z.leb_le.
  - right. split; [exact E|].
    rewrite F_fnn_ltb in Hn by assumption. now apply Z.ltb_ge.
Qed.

(** What is left of the horizon is computed exactly from the start and
    from the second half of the run. *)
Lemma rest_exact (t T : float) :
  F_fnn t -> positive_real T = true -> (sc t < sc T)%Z ->
  (sc t = 0 -> sc (T - t) = sc T)%Z
  /\ (sc T - sc t <= sc t -> sc (T - t) = sc T - sc t)%Z.
Proof.
  intros Hf HT Hlt.
  destruct (positive_real_fnn _ HT) as (mT & eT & ET).
  pose proof (Prim2SF_valid T) as VT. pose proof (Prim2SF_valid t) as Vt.
  split.
  - intros H0. unfold sc. rewrite sub_spec, (sc_zero t Hf H0), ET.
    reflexivity.
  - unfold sc in *. rewrite sub_spec. unfold F_fnn in Hf.
    rewrite ET in Hlt, VT |- *.
    destruct (Prim2SF t) as [[|]|[|]| |[|] mt et]; try contradiction.
    + cbn [scaled]. pose proof (scaled_pos _ _ _ VT). cbn [scaled] in *. lia.
    + intros Hhalf. apply SFsub_exact; auto.
Qed.

Lemma next_time_inv (s : State) (p : Params) :
  positive_real (t_end_min p) = true -> positive_real (dt_min p) = true ->
  time_inv p (st_t s) -> JS.geb (st_t s) (t_end_min p) = false ->
  time_inv p (st_t s + step_size s p).
Proof.
  intros HT Hdt (Hf & Hle & HJ) Hge.
  pose proof (F_fnn_nn _ Hf) as Hnn.
  destruct (step_size_le s p HT Hdt Hnn Hge) as (Hh & Hd & Hcase).
  destruct (step_time_below _ _ HT Hnn Hge) as [_ Hlt].
  pose proof (positive_real_F_fnn _ HT) as HTf.
  pose proof (positive_real_F_fnn _ Hdt) as Hdtf.
  rewrite SFltb_scaled in Hlt by auto using Prim2SF_valid.
  apply Z.ltb_lt in Hlt. fold (sc (st_t s)) (sc (t_end_min p)) in Hlt.
  destruct (positive_real_fnn _ HT) as (mT & eT & ET).
  pose proof (Prim2SF_valid (t_end_min p)) as VT.
  set (t := st_t s) in *. set (T := t_end_min p) in *.
  set (dt := dt_min p) in *. set (h := step_size s p) in *.
  (* what is left of the horizon *)
  pose proof (rest_exact t T Hf HT Hlt) as Hrest.
  destruct Hrest as [Hrest0 Hrest1].
  (* the exact sum does not pass the horizon *)
  assert (Hsum : (sc t + sc h <= sc T)%Z).
  { destruct (Z.eq_dec (sc t) 0) as [E0|N0].
    - specialize (Hrest0 E0). destruct Hcase as [[-> H]|[-> H]]; lia.
    - assert (Hdt_t : (sc dt <= sc t)%Z) by lia.
      destruct (Z.le_gt_cases (sc T - sc t) (sc t)) as [Hhalf|Hhalf].
      + specialize (Hrest1 Hhalf). destruct Hcase as [[-> H]|[-> H]]; lia.
      + destruct Hcase as [[-> H]|[-> H]]; lia. }
  (* a double below it *)
  assert (Hlo : exists lo, valid_binary lo = true
                  /\ (scaled lo <= sc t + sc h)%Z
                  /\ (sc dt <= scaled lo \/ sc T <= scaled lo)%Z).
  { pose proof (scaled_nonneg (Prim2SF t)) as Ht0.
    pose proof (scaled_nonneg (Prim2SF h)) as Hh0. fold (sc t) (sc h) in *.
    destruct Hcase as [[E H]|[E H]].
    - exists (Prim2SF dt). split; [apply Prim2SF_valid|].
      rewrite E. fold (sc dt). lia.
    - destruct (Z.eq_dec (sc t) 0) as [E0|N0].
      + exists (Prim2SF T). split; [apply Prim2SF_valid|].
        fold (sc T). rewrite E, (Hrest0 E0). lia.
      + exists (Prim2SF t). split; [apply Prim2SF_valid|].
        fold (sc t). lia. }
  destruct Hlo as (lo & Vlo & Hlo & Hlo').
  unfold sc in Hsum, Hlo. rewrite ET in Hsum.
  destruct (SFadd_between (Prim2SF t) (Prim2SF h) lo mT eT)
    as (Hfin & Hge' & Hle'); auto using Prim2SF_valid.
  { rewrite <- ET. apply Prim2SF_valid. }
  rewrite <- add_spec in Hfin, Hge', Hle'.
  unfold T, dt, t, h in *. unfold time_inv, F_fnn, sc. rewrite ET.
  split; [exact Hfin|]. split; [exact Hle'|].
  unfold sc in Hlo'. rewrite ET in Hlo'. lia.
Qed.

Lemma rk4_step_time (s : State) (p : Params) :
  st_t (rk4_step s p) = st_t s + step_size s p.
Proof.
  unfold rk4_step. destruct (rk4_masses _ s p) as [[a1 a2] a3]. reflexivity.
Qed.

Lemma init_time_inv (p : Params) : time_inv p (st_t (init_state p)).
Proof.
  unfold time_inv, init_state. cbn [st_t].
  split; [exact I|]. split; [apply scaled_nonneg | left; reflexivity].
Qed.

(** Every time stamp of a trace is a finite number between 0 and the
    horizon. *)
Lemma states_time_inv (p : Params) (fuel : nat) (l : list State) :
  normalized p -> states_fuel fuel p = Some l ->
  Forall (fun s => time_inv p (st_t s)) l.
Proof.
  intros Hn. destruct (normalized_fields p Hn) as (_ & _ & _ & _ & HT & Hdt).
  apply states_fuel_Forall.
  - intros s Hs Hge. rewrite rk4_step_time. now apply next_time_inv.
  - apply init_time_inv.
Qed.

Lemma time_inv_within (p : Params) (t : float) :
  positive_real (t_end_min p) = true -> time_inv p t -> within_horizon p t.
Proof.
  intros HT (Hf & Hle & _). split.
  - rewrite F_fnn_leb by (exact I || exact Hf). apply Z.leb_le.
    apply scaled_nonneg.
  - rewrite F_fnn_leb by (exact Hf || now apply positive_real_F_fnn).
    now apply Z.leb_le.
Qed.

Lemma F_fnn_sub (a b : float) : F_fnn a -> F_fnn b -> F_finz (a - b).
Proof.
  intros Ha Hb. unfold F_finz. rewrite sub_spec.
  apply SFsub_bounded; auto using Prim2SF_valid.
Qed.

(** Doubles that are not negative and have the same value are the same. *)
Lemma sc_inj (a b : float) : F_fnn a -> F_fnn b -> sc a = sc b -> a = b.
Proof.
  intros Ha Hb E. apply Prim2SF_inj.
  pose proof (Prim2SF_valid a) as Va. pose proof (Prim2SF_valid b) as Vb.
  pose proof (SFcompare_nonneg _ _ Va Vb Ha Hb) as Hc.
  unfold F_fnn, sc in *. rewrite E, Z.compare_refl in Hc.
  destruct (Prim2SF a) as [[|]|[|]| |[|] ma ea]; try contradiction;
    destruct (Prim2SF b) as [[|]|[|]| |[|] mb eb]; try contradiction;
    try reflexivity; try discriminate.
  cbn [SFcompare] in Hc.
  change (Pos.compare_cont Eq ma mb) with (Pos.compare ma mb) in Hc.
  destruct (Z.compare_spec ea eb); try discriminate.
  destruct (Pos.compare_spec ma mb); try discriminate.
  congruence.
Qed.

(** A time stamp that reaches the horizon is the horizon. *)
Lemma time_inv_reach (p : Params) (t : float) :
  positive_real (t_end_min p) = true -> time_inv p t ->
  JS.geb t (t_end_min p) = true -> t = t_end_min p.
Proof.
  intros HT (Hf & Hle & _) Hge.
  pose proof (positive_real_F_fnn _ HT) as HTf.
  unfold JS.geb in Hge. rewrite F_fnn_leb in Hge by assumption.
  apply Z.leb_le in Hge. apply sc_inj; auto. lia.
Qed.

(** *** Metrics of a trace of zeros *)

Lemma F_zero_above_neg_inf (c : float) : F_zero c -> above_neg_inf c.
Proof.
  intros [s H]. unfold above_neg_inf. rewrite FloatAxioms.ltb_spec, H.
  destruct s; reflexivity.
Qed.

Lemma metrics_body_auc_zero (sol : Sol) (i : nat) (m : Metrics) :
  (i < List.length (sol_C1 sol))%nat ->
  List.length (sol_t sol) = List.length (sol_C1 sol) ->
  Forall F_zero (sol_C1 sol) -> Forall F_fnn (sol_t sol) ->
  F_zero (auc m) -> F_zero (auc (metrics_body sol i m)).
Proof.
  intros Hi Hlen HC HT Ha. unfold metrics_body.
  destruct (if JS.gtb _ _ then _ else _) as [cm tm]. cbn [auc].
  destruct i as [|j]; [exact Ha|].
  apply F_zero_add; [exact Ha|].
  apply F_zero_mul_l.
  - apply F_zero_mul_r; [exact I|].
    apply F_zero_add; apply Forall_at_index; auto; lia.
  - apply F_fnn_sub; apply Forall_at_index; auto; lia.
Qed.

Lemma metrics_loop_auc_zero (sol : Sol) :
  List.length (sol_t sol) = List.length (sol_C1 sol) ->
  Forall F_zero (sol_C1 sol) -> Forall F_fnn (sol_t sol) ->
  forall n i m,
    (i + n <= List.length (sol_C1 sol))%nat ->
    F_zero (auc m) -> F_zero (auc (metrics_loop sol n i m)).
Proof.
  intros Hlen HC HT. induction n as [|n IH]; intros i m Hn Ha; simpl;
    [exact Ha|].
  apply IH; [lia|]. apply metrics_body_auc_zero; auto. lia.
Qed.

Lemma metrics_of_zeros (sol : Sol) :
  sol_C1 sol <> [] -> Forall F_zero (sol_C1 sol) ->
  F_zero (cmax (computeMetrics sol))
  /\ (List.length (sol_t sol) = List.length (sol_C1 sol) ->
      Forall F_fnn (sol_t sol) ->
      F_zero (auc (computeMetrics sol))).
Proof.
  intros Hne HC. split.
  - unfold computeMetrics.
    destruct (List.length (sol_C1 sol)) as [|n] eqn:Hlen.
    { destruct (sol_C1 sol); [congruence | discriminate]. }
    cbn [metrics_loop].
    assert (Hat : forall j, (j < S n)%nat ->
                            above_neg_inf (at_index (sol_C1 sol) j)).
    { intros j Hj. apply F_zero_above_neg_inf, Forall_at_index; auto. lia. }
    destruct (metrics_loop_peak sol n 1
                (metrics_body sol 0
                   {| cmax := neg_infinity; tmax := 0; auc := 0 |}))
      as (k & Hk & -> & _).
    + apply metrics_body_first; [reflexivity | apply Hat; lia].
    + intros j Hj. apply Hat. lia.
    + apply Forall_at_index; auto. lia.
  - intros Hlen HT. unfold computeMetrics.
    apply metrics_loop_auc_zero; auto. apply F_zero_0.
Qed.

Lemma V1_nn (p : Params) : positive_real (weight p) = true -> F_nn (V1 p).
Proof.
  intros Hw. unfold F_nn, V1. rewrite mul_spec.
  apply SFmul_pos; [exact I | now apply positive_real_F_fnn].
Qed.

Lemma concentration_zero (p : Params) (a : float) :
  positive_real (weight p) = true -> is_zero (V1 p) = false ->
  F_zero a -> F_zero (a / V1 p).
Proof.
  intros Hw Hz Ha. unfold F_zero. rewrite div_spec.
  apply SFdiv_zero; [exact Ha | now apply V1_nn |].
  intros s E.
  assert (Hz' : zero_valued (V1 p)).
  { apply zero_valued_F_zero. exists s. exact E. }
  unfold zero_valued in Hz'. congruence.
Qed.

Lemma init_state_zero (p : Params) :
  zero_valued (bolus_mg p) -> zero_state (init_state p).
Proof.
  intros Hb. apply zero_valued_F_zero in Hb.
  unfold zero_state, init_state. cbn [st_t st_A1 st_A2 st_A3].
  split; [reflexivity | split; [exact Hb | split; apply F_zero_0]].
Qed.

(** Claim C7, as amended.  For a normalized parameter set with a bolus of
    zero and an infusion rate (or an infusion duration) of zero, A1, A2 and
    A3 are zero at every index of the trace.  When moreover
    [V1_per_kg * weight] is not rounded to zero, C1 is zero at every index
    and [cmax] and [auc] are zero.  The trace exists as soon as the loop
    counter is bounded, which it is, by [2^18], for every parameter set that
    [readParams] returns. *)
Theorem no_dose_trace_is_zero (p : Params) :
  normalized p ->
  zero_valued (bolus_mg p) ->
  zero_valued (infusion_mg_min p) \/ zero_valued (infusion_duration_min p) ->
  (forall fuel sol,
      solveRK4_fuel fuel p = Some sol ->
      Forall zero_valued (sol_A1 sol)
      /\ Forall zero_valued (sol_A2 sol)
      /\ Forall zero_valued (sol_A3 sol)
      /\ (is_zero (V1 p) = false ->
          Forall zero_valued (sol_C1 sol)
          /\ zero_valued (cmax (computeMetrics sol))
          /\ zero_valued (auc (computeMetrics sol))))
  /\ (forall n, counter_bound p n ->
                exists sol, solveRK4_fuel (S (Z.to_nat n)) p = Some sol)
  /\ (forall raw, p = readParams raw -> counter_bound p (2 ^ 18)).
Proof.
  intros Hn Hb Hi. split; [|split; [apply solveRK4_terminates|]].
  2: { intros raw ->. apply readParams_counter_bound. }
  destruct (normalized_fields p Hn) as (Hw & _ & _ & _ & HT & Hdt).
  pose proof (no_dose_of_zero p Hi) as Hd.
  intros fuel sol Hsol.
  destruct (solveRK4_fuel_states _ _ _ Hsol) as (l & Hl & ->).
  assert (HF : Forall zero_state l).
  { eapply states_fuel_Forall; [| |exact Hl].
    - intros s Hs Hge. now apply rk4_step_zero.
    - apply init_state_zero. exact Hb. }
  assert (HA : forall f, (forall s, zero_state s -> F_zero (f s)) ->
                         Forall zero_valued (map f l)).
  { intros f Hf. rewrite Forall_map. eapply Forall_impl; [|exact HF].
    intros s Hs. apply zero_valued_F_zero. now apply Hf. }
  cbn [sol_A1 sol_A2 sol_A3 sol_C1 sol_of_states].
  split; [apply HA; intros s Hs; apply Hs|].
  split; [apply HA; intros s Hs; apply Hs|].
  split; [apply HA; intros s Hs; apply Hs|].
  intros HV.
  assert (HC : Forall F_zero (map (fun a => a / V1 p) (map st_A1 l))).
  { rewrite !Forall_map. eapply Forall_impl; [|exact HF].
    intros s Hs. apply concentration_zero; auto. apply Hs. }
  assert (Hne : map (fun a => a / V1 p) (map st_A1 l) <> []).
  { destruct (states_fuel_head _ _ _ Hl) as [l' ->]. discriminate. }
  destruct (metrics_of_zeros (sol_of_states p l) Hne HC) as [Hc Ha].
  split; [|split].
  - eapply Forall_impl; [|exact HC]. intros c. apply zero_valued_F_zero.
  - apply zero_valued_F_zero. exact Hc.
  - apply zero_valued_F_zero. apply Ha.
    + cbn [sol_t sol_C1 sol_of_states]. now rewrite !length_map.
    + cbn [sol_t sol_of_states]. rewrite Forall_map.
      eapply Forall_impl; [|exact (states_time_inv p fuel l Hn Hl)].
      intros s Hs. apply Hs.
Qed.

Lemma no_dose_trace_is_zero_witness :
  normalized (readParams raw_no_dose)
  /\ zero_valued (bolus_mg (readParams raw_no_dose))
  /\ exists sol,
       solveRK4_fuel 3 (readParams raw_no_dose) = Some sol
       /\ Forall zero_valued (sol_A1 sol)
       /\ Forall zero_valued (sol_C1 sol)
       /\ zero_valued (cmax (computeMetrics sol))
       /\ zero_valued (auc (computeMetrics sol)).
Proof.
  assert (Hn : normalized (readParams raw_no_dose))
    by (vm_compute; reflexivity).
  assert (Hb : zero_valued (bolus_mg (readParams raw_no_dose)))
    by reflexivity.
  split; [exact Hn|]. split; [exact Hb|].
  destruct (no_dose_trace_is_zero (readParams raw_no_dose) Hn Hb)
    as (H1 & H2 & _).
  - left. reflexivity.
  - destruct (H2 2%Z) as [sol Hsol].
    + split; [lia | vm_compute; reflexivity].
    + exists sol. split; [exact Hsol|].
      destruct (H1 _ _ Hsol) as (HA1 & _ & _ & HC).
      destruct HC as (HC1 & Hcmax & Hauc); [vm_compute; reflexivity|].
      split; [exact HA1|]. split; [exact HC1|]. split; [exact Hcmax|].
      exact Hauc.
Defined.

(** ** The step cap and the end of the trace *)

(** Claim C2.  When the quotient [t_end / dt] of the guarded values
    exceeds 20000, [readParams] sets the step to [t_end / 20000]; otherwise
    it leaves the step alone.  Either way the loop of [solveRK4] makes fewer
    than [2^18] passes.  But the bound of the claim fails: with a horizon of
    4.9 min and a requested step of 0.0001 min the guard fires and sets the
    step to [4.9 / 20000]; the step count [Math.ceil(t_end / dt)] of that
    step is 20001, above [MAX_STEPS], and the integrator does take 20001
    steps: its trace has 20002 points. *)
Theorem step_cap_exceeded :
  (forall raw,
      let g := guardrails raw in
      dt_min (readParams raw)
      = (if JS.gtb (t_end_min g / dt_min g) MAX_STEPS
         then t_end_min g / MAX_STEPS else dt_min g)
      /\ counter_bound (readParams raw) (2 ^ 18))
  /\ (let p := readParams raw_short_horizon in
      JS.gtb (t_end_min (guardrails raw_short_horizon)
              / dt_min (guardrails raw_short_horizon)) MAX_STEPS = true
      /\ dt_min p = t_end_min p / MAX_STEPS
      /\ nSteps p = 20001
      /\ JS.gtb (nSteps p) MAX_STEPS = true
      /\ option_map (fun sol => Z.of_nat (List.length (sol_t sol)))
           (solveRK4_fuel (Z.to_nat 20002) p) = Some 20002%Z).
Proof.
  split.
  - intros raw. cbv zeta. split; [|apply readParams_counter_bound].
    unfold readParams, readParams_ui, cap_steps.
    destruct (JS.gtb _ MAX_STEPS); reflexivity.
  - cbv zeta.
    split; [vm_compute; reflexivity|]. split; [vm_compute; reflexivity|].
    split; [vm_compute; reflexivity|]. split; vm_compute; reflexivity.
Qed.

(** Claim C3.  No time stamp of a trace exceeds the horizon: for a
    normalized parameter set every time of the trace is a number from 0 to
    the horizon, and a time at which the loop would [break] is the horizon
    itself; the run returns such a trace for every parameter set that
    [readParams] produces.  But the last time need not be the horizon: with
    every field left to its default (horizon 240, step 0.2) the loop runs
    its 1200 passes and stops, and the last time of the trace is
    239.99999999999491. *)
Theorem run_stops_short_of_horizon :
  (forall p fuel sol,
      normalized p -> solveRK4_fuel fuel p = Some sol ->
      Forall (fun t => within_horizon p t
                       /\ (JS.geb t (t_end_min p) = true -> t = t_end_min p))
             (sol_t sol))
  /\ (forall raw,
         exists sol,
           solveRK4_fuel (S (Z.to_nat (2 ^ 18))) (readParams raw) = Some sol)
  /\ (let p := readParams all_missing in
      p = defaults
      /\ nSteps p = 1200
      /\ option_map (fun sol => (Z.of_nat (List.length (sol_t sol)),
                                 last (sol_t sol) 0))
           (solveRK4_fuel 1201 p) = Some (1201%Z, 239.99999999999491)
      /\ (239.99999999999491 <? t_end_min p) = true).
Proof.
  split.
  - intros p fuel sol Hn Hsol.
    destruct (solveRK4_fuel_states _ _ _ Hsol) as (l & Hl & ->).
    destruct (normalized_fields p Hn) as (_ & _ & _ & _ & HT & _).
    cbn [sol_t sol_of_states]. rewrite Forall_map.
    eapply Forall_impl; [|exact (states_time_inv p fuel l Hn Hl)].
    intros s Hs. split; [now apply time_inv_within|].
    now apply time_inv_reach.
  - split; [apply solveRK4_total|]. cbv zeta.
    split; [vm_compute; reflexivity|]. split; [vm_compute; reflexivity|].
    split; vm_compute; reflexivity.
Qed.

(** ** Inputs on which a claim fails as stated *)

(** Two doubles that a comparison tells apart are distinct. *)
Lemma float_neq (x y : float) : (x =? y) = false -> is_nan x = false -> x <> y.
Proof.
  intros H Hx E. subst y. unfold is_nan in Hx.
  rewrite H in Hx. discriminate.
Qed.

(** Claim C4 as stated fails: with a bolus of 100 mg and one step of 1e308
    min the update overflows, and A1 is NaN after the step. *)
Lemma mass_can_be_nan :
  normalized (readParams raw_huge_step)
  /\ exists sol,
       solveRK4_fuel 2 (readParams raw_huge_step) = Some sol
       /\ sol_A1 sol = [100; nan]
       /\ ~ Forall nonneg (sol_A1 sol).
Proof.
  split; [vm_compute; reflexivity|].
  eexists. split; [vm_compute; reflexivity|]. split; [reflexivity|].
  intros H. inversion H as [|? ? _ Htl]. inversion Htl as [|? ? Hnan _].
  vm_compute in Hnan. discriminate.
Qed.

(** Claim C5 as stated fails: the loop skips a NaN sample, so for a trace
    made of one NaN sample at time 5 [tmax] stays 0 and [cmax] stays
    [-Infinity], which is no sample of the trace. *)
Lemma peak_misses_nan_sample :
  sol_C1 nan_sample <> []
  /\ ~ peak_at_first_max nan_sample (computeMetrics nan_sample).
Proof.
  split; [discriminate|].
  intros (k & Hk & _ & Ht & _). simpl in Hk.
  assert (k = 0%nat) by lia. subst k.
  vm_compute in Ht. revert Ht. apply float_neq; reflexivity.
Qed.

(** Claim C9 as stated fails on a trace of one point: when its
    concentration is NaN the metrics are those of the empty trace, not the
    concentration and the time of the point. *)
Lemma single_nan_sample_ignored :
  computeMetrics nan_sample = {| cmax := neg_infinity; tmax := 0; auc := 0 |}
  /\ computeMetrics nan_sample
     <> {| cmax := at_index (sol_C1 nan_sample) 0;
           tmax := at_index (sol_t nan_sample) 0; auc := 0 |}.
Proof.
  split; [reflexivity|].
  intros H. apply (f_equal tmax) in H. vm_compute in H.
  revert H. apply float_neq; reflexivity.
Qed.

(** Claim C7 as stated fails: for the weight 2^-1074 the volume
    [V1_per_kg * weight] is rounded to 0, so without any dose every
    concentration is [0 / 0], NaN, and neither [cmax] nor [auc] is zero. *)
Lemma no_dose_concentration_nan :
  let p := readParams raw_tiny_weight in
  normalized p
  /\ bolus_mg p = 0 /\ infusion_mg_min p = 0
  /\ exists sol,
       solveRK4_fuel 3 p = Some sol
       /\ sol_C1 sol = [nan; nan; nan]
       /\ cmax (computeMetrics sol) = neg_infinity
       /\ ~ Forall zero_valued (sol_C1 sol)
       /\ ~ zero_valued (cmax (computeMetrics sol))
       /\ ~ zero_valued (auc (computeMetrics sol)).
Proof.
  cbv zeta. split; [vm_compute; reflexivity|].
  split; [reflexivity|]. split; [reflexivity|].
  eexists. split; [vm_compute; reflexivity|].
  split; [reflexivity|]. split; [vm_compute; reflexivity|].
  split; [|split].
  - intros H. inversion H as [|? ? H1 _]. vm_compute in H1. discriminate.
  - vm_compute. discriminate.
  - vm_compute. discriminate.
Qed.

(** Claim C8 as stated fails: for a horizon of 1 min and a requested step
    of 0.000001 min the step in use is 0.00005 (the double nearest to it),
    and the page is given the text "0.0001", which reads back as twice that
    step. *)
Lemma reflected_step_differs :
  readParams_ui raw_unit_horizon
  = (set_dt (guardrails raw_unit_horizon) 5.0000000000000002e-05,
     {| input_dt_value := Some (JS.Fixed false 1);
        display_dt_text := Some (JS.Fixed false 1) |})
  /\ JS.render false 1 = "0.0001"%string
  /\ JS.read_back (JS.Fixed false 1) = 0.0001
  /\ ~ reflected_equals_effective raw_unit_horizon.
Proof.
  split; [vm_compute; reflexivity|]. split; [reflexivity|].
  split; [vm_compute; reflexivity|].
  unfold reflected_equals_effective. vm_compute.
  apply float_neq; reflexivity.
Qed.

(** ** The step written back to the page *)

Lemma toFixed4_Plain (x y : float) : JS.toFixed4 x = JS.Plain y -> y = x.
Proof.
  unfold JS.toFixed4.
  destruct (Prim2SF x) as [s|s| |s m e]; try congruence.
  destruct (0 <=? e)%Z.
  - destruct (_ <? _)%Z; congruence.
  - destruct (_ <? _)%Z; congruence.
Qed.

Lemma round_half_up_bound (a k : Z) :
  (0 < k)%Z ->
  let n := ((2 * a + k) / (2 * k))%Z in
  (- k <= 2 * (n * k - a) <= k)%Z.
Proof.
  intros Hk n.
  pose proof (Z.mul_div_le (2 * a + k) (2 * k) ltac:(lia)) as H1.
  pose proof (Z.mul_succ_div_gt (2 * a + k) (2 * k) ltac:(lia)) as H2.
  fold n in H1, H2. nia.
Qed.

Lemma toFixed4_near (x : float) (neg : bool) (n : Z) :
  JS.toFixed4 x = JS.Fixed neg n ->
  (Qabs (fixed_exact n - abs_exact (Prim2SF x)) <= 1 # 20000)%Q.
Proof.
  unfold JS.toFixed4, abs_exact, fixed_exact.
  destruct (Prim2SF x) as [s|s| |s m e]; try discriminate.
  - intros [= _ <-]. vm_compute. discriminate.
  - destruct (0 <=? e)%Z eqn:He.
    + destruct (_ <? _)%Z; [|discriminate]. intros H.
      assert (Hn : n = (Z.pos m * 2 ^ e * 10000)%Z) by congruence.
      rewrite Hn.
      apply Qabs_Qle_condition. unfold Qle, Qminus, Qplus, Qopp, inject_Z.
      cbn [Qnum Qden]. lia.
    + destruct (_ <? _)%Z; [|discriminate]. intros H.
      assert (Hn : n = ((2 * (Z.pos m * 10000) + 2 ^ (- e)) / (2 * 2 ^ (- e)))%Z)
        by congruence.
      clear H. apply Z.leb_gt in He.
      assert (Hk : (0 < 2 ^ (- e))%Z) by (apply Z.pow_pos_nonneg; lia).
      pose proof (round_half_up_bound (Z.pos m * 10000) (2 ^ (- e)) Hk) as Hb.
      cbv zeta in Hb.
      rewrite <- Hn in Hb.
      set (k := (2 ^ (- e))%Z) in *.
      apply Qabs_Qle_condition. unfold Qle, Qminus, Qplus, Qopp.
      cbn [Qnum Qden].
      rewrite !Pos2Z.inj_mul, Z2Pos.id by exact Hk.
      nia.
Qed.

(** Claim C8, as amended.  Whenever the guard enlarges the step, the
    parameter set handed to the integrator carries [t_end / 20000], and the
    page is given that step formatted by [toFixed(4)], the same text for the
    input and for its display: the multiple of 0.0001 nearest to the step,
    within 0.00005 of it (or, from 1e21 on, the text of the step itself,
    which reads back as the step). *)
Theorem reflected_step_is_rounded (raw : Params) :
  JS.gtb (t_end_min (guardrails raw) / dt_min (guardrails raw)) MAX_STEPS
    = true ->
  dt_min (readParams raw) = t_end_min (guardrails raw) / MAX_STEPS
  /\ input_dt_value (snd (readParams_ui raw))
       = Some (JS.toFixed4 (dt_min (readParams raw)))
  /\ display_dt_text (snd (readParams_ui raw))
       = input_dt_value (snd (readParams_ui raw))
  /\ (forall neg n,
         JS.toFixed4 (dt_min (readParams raw)) = JS.Fixed neg n ->
         (Qabs (fixed_exact n - abs_exact (Prim2SF (dt_min (readParams raw))))
          <= 1 # 20000)%Q)
  /\ (forall x,
         JS.toFixed4 (dt_min (readParams raw)) = JS.Plain x ->
         JS.read_back (JS.Plain x) = dt_min (readParams raw)).
Proof.
  intros Hcap. unfold readParams, readParams_ui, cap_steps.
  rewrite Hcap. cbn [fst snd dt_min set_dt input_dt_value display_dt_text].
  repeat split.
  - intros neg n. apply toFixed4_near.
  - intros x Hx. simpl. now apply toFixed4_Plain.
Qed.

Lemma reflected_step_is_rounded_witness :
  JS.gtb (t_end_min (guardrails raw_unit_horizon)
          / dt_min (guardrails raw_unit_horizon)) MAX_STEPS = true
  /\ dt_min (readParams raw_unit_horizon) = 1 / MAX_STEPS
  /\ input_dt_value (snd (readParams_ui raw_unit_horizon))
       = Some (JS.toFixed4 (dt_min (readParams raw_unit_horizon))).
Proof.
  assert (H : JS.gtb (t_end_min (guardrails raw_unit_horizon)
                      / dt_min (guardrails raw_unit_horizon)) MAX_STEPS = true)
    by (vm_compute; reflexivity).
  split; [exact H|].
  destruct (reflected_step_is_rounded raw_unit_horizon H) as (H1 & H2 & _).
  split; [exact H1 | exact H2].
Defined.

(** ** Lists whose consecutive entries are related *)

Lemma chain_snoc {A : Type} (R : A -> A -> Prop) (l : list A) (a b : A) :
  chain R (l ++ [a]) -> R a b -> chain R ((l ++ [a]) ++ [b]).
Proof.
  induction l as [|c l IH]; intros H Hab; [simpl; auto|].
  destruct l as [|d l]; [simpl in *; tauto|].
  change (chain R (c :: (d :: l) ++ [a])) with
    (R c d /\ chain R ((d :: l) ++ [a])) in H.
  change (R c d /\ chain R (((d :: l) ++ [a]) ++ [b])).
  destruct H as [H1 H2]. split; [exact H1 | now apply IH].
Qed.

Lemma chain_rev {A : Type} (R : A -> A -> Prop) (l : list A) :
  chain (fun b a => R a b) l -> chain R (rev l).
Proof.
  induction l as [|x l IH]; intros H; [exact I|].
  destruct l as [|y l]; [exact I|].
  destruct H as [H1 H2]. specialize (IH H2).
  cbn [rev] in *. apply chain_snoc; assumption.
Qed.

Lemma chain_nth {A : Type} (R : A -> A -> Prop) (l : list A) (d : A) :
  chain R l ->
  forall j, (S j < List.length l)%nat -> R (nth j l d) (nth (S j) l d).
Proof.
  induction l as [|a l IH]; intros H j Hj; [simpl in Hj; lia|].
  destruct l as [|b l]; [simpl in Hj; lia|].
  destruct H as [H1 H2]. destruct j as [|j]; [exact H1|].
  apply (IH H2 j). simpl in *. lia.
Qed.

Lemma chain_impl {A : Type} (P : A -> Prop) (R R' : A -> A -> Prop)
    (l : list A) :
  (forall a b, P a -> P b -> R a b -> R' a b) ->
  Forall P l -> chain R l -> chain R' l.
Proof.
  intros HR. induction l as [|a l IH]; intros HP H; [exact I|].
  destruct l as [|b l]; [exact I|].
  destruct H as [H1 H2]. inversion HP as [|? ? Pa HP']; subst.
  inversion HP' as [|? ? Pb _]; subst.
  split; [now apply HR | now apply IH].
Qed.

Lemma chain_map {A B : Type} (f : A -> B) (R : B -> B -> Prop) (l : list A) :
  chain (fun a b => R (f a) (f b)) l -> chain R (map f l).
Proof.
  induction l as [|a l IH]; intros H; [exact I|].
  destruct l as [|b l]; [exact I|].
  destruct H as [H1 H2]. split; [exact H1 | now apply IH].
Qed.

(** Later entries of a chain of a transitive relation. *)
Lemma chain_nth_later {A : Type} (R : A -> A -> Prop) (l : list A) (d : A) :
  (forall a b c, R a b -> R b c -> R a c) ->
  chain R l ->
  forall i j, (i < j)%nat -> (j < List.length l)%nat ->
              R (nth i l d) (nth j l d).
Proof.
  intros Htr H i j Hij. induction j as [|j IH]; [lia|]. intros Hj.
  destruct (Nat.eq_dec i j) as [->|Hne].
  - now apply chain_nth.
  - eapply Htr; [apply IH; lia | now apply chain_nth].
Qed.

(** ** Order and quotients in the binary64 format *)

Section Binary64_order.

Local Open Scope Z_scope.

(** *** Numbers that are not negative *)

Lemma signed_nan_or_nonneg (x : spec_float) :
  signed false x -> nan_or_nonneg x.
Proof. destruct x as [[|]|[|]| |[|] m e]; simpl; congruence || tauto. Qed.

Lemma SFadd_nan_or_nonneg (x y : spec_float) :
  nan_or_nonneg x -> nan_or_nonneg y -> nan_or_nonneg (SF64add x y).
Proof.
  destruct x as [[|]|[|]| |[|] mx ex]; try contradiction;
    destruct y as [[|]|[|]| |[|] my ey]; try contradiction;
    intros _ _; try exact I.
  apply signed_nan_or_nonneg. unfold SF64add, SFadd.
  apply binary_normalize_signed. simpl. lia.
Qed.

Lemma SFmul_nan_or_nonneg (x y : spec_float) :
  nan_or_nonneg x -> nan_or_nonneg y -> nan_or_nonneg (SF64mul x y).
Proof.
  destruct x as [[|]|[|]| |[|] mx ex]; try contradiction;
    destruct y as [[|]|[|]| |[|] my ey]; try contradiction;
    intros _ _; try exact I.
  apply signed_nan_or_nonneg. unfold SF64mul, SFmul. cbn [xorb].
  apply binary_round_aux_signed. lia.
Qed.

Lemma SFdiv_nan_or_nonneg (x y : spec_float) :
  nan_or_nonneg x -> signed false y -> nan_or_nonneg (SF64div x y).
Proof.
  destruct x as [[|]|[|]| |[|] mx ex]; try contradiction;
    destruct y as [[|]|[|]| |[|] my ey]; try contradiction;
    try discriminate; intros _ _; try exact I.
  apply signed_nan_or_nonneg. apply SFdiv_signed.
Qed.

(** A difference of doubles that are not negative, the larger one first,
    is not negative. *)
Lemma SFsub_le (x y : spec_float) :
  valid_binary x = true -> valid_binary y = true ->
  finite_nonneg x -> finite_nonneg y -> scaled y <= scaled x ->
  finite_nonneg (SF64sub x y).
Proof.
  intros Vx Vy Fx Fy Hle.
  destruct (Z.eq_dec (scaled x) (scaled y)) as [E|Hne].
  - pose proof (SFcompare_nonneg x y Vx Vy Fx Fy) as Hc.
    rewrite E, Z.compare_refl in Hc.
    destruct x as [[|]|[|]| |[|] mx ex]; try contradiction;
      destruct y as [[|]|[|]| |[|] my ey]; try contradiction;
      try discriminate; [exact I|].
    cbn [SFcompare] in Hc.
    change (Pos.compare_cont Eq mx my) with (Pos.compare mx my) in Hc.
    destruct (Z.compare_spec ex ey) as [Ee|Ee|Ee]; try discriminate.
    destruct (Pos.compare_spec mx my) as [Em|Em|Em]; try discriminate.
    subst. unfold SF64sub, SFsub. cbn [cond_Zopp].
    rewrite Z.sub_diag. exact I.
  - apply SFsub_bounded; auto. lia.
Qed.

(** A difference is not rounded below a double under the exact one. *)
Lemma SFsub_lower (x y lo : spec_float) :
  valid_binary x = true -> valid_binary y = true -> valid_binary lo = true ->
  finite_nonneg x -> finite_nonneg y ->
  scaled y < scaled x -> scaled lo <= scaled x - scaled y ->
  scaled lo <= scaled (SF64sub x y).
Proof.
  intros Vx Vy Vl Fx Fy Hlt Hlo.
  destruct x as [[|]|[|]| |[|] mx ex]; try contradiction;
    destruct y as [[|]|[|]| |[|] my ey]; try contradiction.
  - cbn [scaled] in *. lia.
  - pose proof (scaled_pos _ _ _ Vy). cbn [scaled] in *. lia.
  - unfold SF64sub. cbn [SFsub]. cbn [scaled] in *. lia.
  - destruct (SFsub_value mx my ex ey Vx Vy ltac:(lia)) as (r & Hr & Hz).
    cbv zeta in Hz.
    set (sx := scaled (S754_finite false mx ex)) in *.
    set (sy := scaled (S754_finite false my ey)) in *.
    pose proof (scaled_pos _ _ _ Vy) as Py. fold sy in Py.
    rewrite Z.abs_eq in * by lia.
    assert (HN : 0 <= sx - sy <= scaled (S754_finite false mx ex))
      by (fold sx; lia).
    destruct (rounded_le _ r mx ex Vx HN Hr) as [_ Hb].
    destruct (Hz Hb) as (_ & _ & Hv). rewrite Hv.
    apply rounded_ge; assumption.
Qed.

(** *** Quotients against a power of two *)

(** A double with its leading bit at [17] or above is above the step cap. *)
Lemma above_cap (m : positive) (e : Z) :
  valid_binary (S754_finite false m e) = true ->
  17 <= Zdigits2 (Z.pos m) + e ->
  SFltb cap_number (S754_finite false m e) = true.
Proof.
  intros V Hm. rewrite SFltb_scaled by (reflexivity || assumption || exact I).
  apply Z.ltb_lt. pose proof (valid_finite _ _ _ V) as (He & Hd & _).
  pose proof (Zdigits2_bounds (Z.pos m) ltac:(lia)) as [Hb _].
  pose proof (Zdigits2_pos (Z.pos m) ltac:(lia)) as Hd0.
  cbn [scaled cap_number].
  change (Z.pos 5497558138880000 * 2 ^ (-38 + 1074))
    with (20000 * 2 ^ 1074).
  apply Z.lt_le_trans with (2 ^ 16 * 2 ^ 1074).
  { apply Z.mul_lt_mono_pos_r; [apply Z.pow_pos_nonneg; lia | reflexivity]. }
  rewrite <- Z.pow_add_r by lia.
  transitivity (2 ^ (Zdigits2 (Z.pos m) - 1) * 2 ^ (e + 1074)).
  { rewrite <- Z.pow_add_r by lia. apply Z.pow_le_mono_r; lia. }
  apply Z.mul_le_mono_nonneg_r; [apply Z.pow_nonneg; lia | exact Hb].
Qed.

(** A quotient whose operands lie 17 binary orders apart is above the
    step cap. *)
Lemma SFdiv_large (mx my : positive) (ex ey : Z) :
  valid_binary (S754_finite false mx ex) = true ->
  valid_binary (S754_finite false my ey) = true ->
  valid_binary (SF64div (S754_finite false mx ex) (S754_finite false my ey))
  = true ->
  17 <= Zdigits2 (Z.pos mx) + ex - (Zdigits2 (Z.pos my) + ey) ->
  SFltb cap_number
        (SF64div (S754_finite false mx ex) (S754_finite false my ey)) = true.
Proof.
  intros Vx Vy Vq Hmag.
  pose proof (valid_finite _ _ _ Vx) as (Hex & Hdx & Hcx).
  pose proof (valid_finite _ _ _ Vy) as (Hey & Hdy & Hcy).
  pose proof (Zdigits2_pos (Z.pos mx) ltac:(lia)) as Hdx0.
  pose proof (Zdigits2_pos (Z.pos my) ltac:(lia)) as Hdy0.
  pose proof (SFdiv_signed mx my ex ey) as Sg.
  destruct (SFdiv_core_spec mx my ex ey) as [Hs Hc]. cbv zeta in Hs, Hc.
  rewrite fexp_eq in *.
  set (dx := Zdigits2 (Z.pos mx)) in *. set (dy := Zdigits2 (Z.pos my)) in *.
  set (e' := Z.min (Z.max (dx + ex - (dy + ey) - 53) (-1074)) (ex - ey)) in *.
  set (s := ex - ey - e') in *.
  unfold SF64div, SFdiv in *. cbn [xorb] in *. rewrite Hc in *.
  set (a := Z.pos mx * 2 ^ s) in *.
  set (q := a / Z.pos my) in *.
  assert (He' : -1074 <= e') by (unfold e'; lia).
  assert (Hsd : dy <= dx + s - 1) by (unfold s, e'; lia).
  assert (Hq : 2 ^ (dx + s - 1 - dy) <= q).
  { unfold q. apply Z.div_le_lower_bound; [lia|].
    pose proof (Zdigits2_bounds (Z.pos mx) ltac:(lia)) as [Bx _].
    pose proof (Zdigits2_bounds (Z.pos my) ltac:(lia)) as [_ By].
    fold dx in Bx. fold dy in By.
    assert (P1 : 0 < 2 ^ (dx + s - 1 - dy)) by (apply Z.pow_pos_nonneg; lia).
    assert (E : 2 ^ dy * 2 ^ (dx + s - 1 - dy) = 2 ^ (dx - 1) * 2 ^ s).
    { rewrite <- !Z.pow_add_r by lia. f_equal. lia. }
    assert (P2 : 0 < 2 ^ s) by (apply Z.pow_pos_nonneg; lia).
    unfold a. nia. }
  assert (Hq1 : 1 <= q).
  { pose proof (Z.pow_pos_nonneg 2 (dx + s - 1 - dy) ltac:(lia) ltac:(lia)).
    lia. }
  assert (Hdq : dx + s - dy <= Zdigits2 q).
  { pose proof (Zdigits2_le _ _ (conj (Z.pow_nonneg 2 (dx + s - 1 - dy)
                                         ltac:(lia)) Hq)) as H.
    replace (2 ^ (dx + s - 1 - dy)) with (1 * 2 ^ (dx + s - 1 - dy)) in H
      by lia.
    rewrite Zdigits2_mul_pow2 in H by lia. change (Zdigits2 1) with 1 in H.
    lia. }
  pose proof (binary_round_aux_nonzero false q e'
                (new_location (Z.pos my) (a mod Z.pos my)) Hq1 He') as Hnz.
  destruct (binary_round_aux prec emax false q e' _) as [b|b| |b m e] eqn:E;
    try contradiction; cbn [signed] in Sg; subst.
  - exfalso. now apply (Hnz false).
  - reflexivity.
  - apply above_cap; [exact Vq|].
    pose proof (binary_round_aux_magnitude_ge _ _ _ _ _ _ _ Hq1 E) as H.
    unfold s in *. lia.
Qed.

(** Doubles within 16 binary orders of each other. *)
Lemma scaled_ratio (mx my : positive) (ex ey : Z) :
  valid_binary (S754_finite false mx ex) = true ->
  valid_binary (S754_finite false my ey) = true ->
  Zdigits2 (Z.pos mx) + ex - (Zdigits2 (Z.pos my) + ey) <= 16 ->
  scaled (S754_finite false mx ex)
  < 2 ^ 17 * scaled (S754_finite false my ey).
Proof.
  intros Vx Vy Hmag.
  pose proof (valid_finite _ _ _ Vx) as (Hex & Hdx & _).
  pose proof (valid_finite _ _ _ Vy) as (Hey & Hdy & _).
  pose proof (Zdigits2_pos (Z.pos mx) ltac:(lia)) as Hdx0.
  pose proof (Zdigits2_pos (Z.pos my) ltac:(lia)) as Hdy0.
  pose proof (Zdigits2_bounds (Z.pos mx) ltac:(lia)) as [_ Bx].
  pose proof (Zdigits2_bounds (Z.pos my) ltac:(lia)) as [By _].
  cbn [scaled].
  set (dx := Zdigits2 (Z.pos mx)) in *. set (dy := Zdigits2 (Z.pos my)) in *.
  assert (Px : 0 < 2 ^ (ex + 1074)) by (apply Z.pow_pos_nonneg; lia).
  assert (Py : 0 < 2 ^ (ey + 1074)) by (apply Z.pow_pos_nonneg; lia).
  assert (H1 : Z.pos mx * 2 ^ (ex + 1074) < 2 ^ dx * 2 ^ (ex + 1074)) by nia.
  assert (H2 : 2 ^ dx * 2 ^ (ex + 1074)
               <= 2 ^ 17 * (2 ^ (dy - 1) * 2 ^ (ey + 1074))).
  { rewrite <- !Z.pow_add_r by lia. apply Z.pow_le_mono_r; lia. }
  assert (H3 : 2 ^ (dy - 1) * 2 ^ (ey + 1074) <= Z.pos my * 2 ^ (ey + 1074))
    by nia.
  lia.
Qed.

(** *** Quotients that are at most one *)

Lemma new_location_exact (n : Z) : new_location n 0 = loc_Exact.
Proof.
  unfold new_location, new_location_even, new_location_odd.
  destruct (Z.even n); reflexivity.
Qed.

Lemma SFdiv_same (m : positive) (e : Z) :
  valid_binary (S754_finite false m e) = true ->
  SF64div (S754_finite false m e) (S754_finite false m e)
  = S754_finite false 4503599627370496 (-52).
Proof.
  intros V. destruct (SFdiv_core_spec m m e e) as [Hs Hc].
  cbv zeta in Hs, Hc. unfold SF64div, SFdiv. cbn [xorb]. rewrite Hc.
  replace (Zdigits2 (Z.pos m) + e - (Zdigits2 (Z.pos m) + e)) with 0 by lia.
  rewrite Z.sub_diag.
  change (Z.min (fexp prec emax 0) 0) with (-53).
  change (0 - -53) with 53.
  rewrite Z.mul_comm, Z.mod_mul, Z.div_mul by lia.
  rewrite new_location_exact. reflexivity.
Qed.

(** A quotient of positive doubles, the smaller one first, is at most
    one. *)
Lemma SFdiv_le_one (mx my : positive) (ex ey : Z) :
  valid_binary (S754_finite false mx ex) = true ->
  valid_binary (S754_finite false my ey) = true ->
  valid_binary (SF64div (S754_finite false mx ex) (S754_finite false my ey))
  = true ->
  scaled (S754_finite false mx ex) <= scaled (S754_finite false my ey) ->
  finite_nonneg (SF64div (S754_finite false mx ex) (S754_finite false my ey))
  /\ scaled (SF64div (S754_finite false mx ex) (S754_finite false my ey))
     <= 2 ^ 1074.
Proof.
  intros Vx Vy Vq Hle.
  destruct (Z.eq_dec (scaled (S754_finite false mx ex))
                     (scaled (S754_finite false my ey))) as [E|Hne].
  { pose proof (SFcompare_scaled mx my ex ey Vx Vy) as Hc.
    rewrite E, Z.compare_refl in Hc. cbn [SFcompare] in Hc.
    change (Pos.compare_cont Eq mx my) with (Pos.compare mx my) in Hc.
    destruct (Z.compare_spec ex ey) as [Ee|Ee|Ee]; try discriminate.
    destruct (Pos.compare_spec mx my) as [Em|Em|Em]; try discriminate.
    subst. rewrite SFdiv_same by assumption. split; [exact I|].
    cbn [scaled]. change (Z.pos 4503599627370496) with (2 ^ 52).
    rewrite <- Z.pow_add_r by lia. apply Z.pow_le_mono_r; lia. }
  assert (Hlt : scaled (S754_finite false mx ex)
                < scaled (S754_finite false my ey)) by lia.
  clear Hle Hne. cbn [scaled] in Hlt.
  pose proof (valid_finite _ _ _ Vx) as (Hex & Hdx & Hcx).
  pose proof (valid_finite _ _ _ Vy) as (Hey & Hdy & Hcy).
  pose proof (Zdigits2_pos (Z.pos mx) ltac:(lia)) as Hdx0.
  pose proof (Zdigits2_pos (Z.pos my) ltac:(lia)) as Hdy0.
  pose proof (SFdiv_signed mx my ex ey) as Sg.
  assert (Hmag : Zdigits2 (Z.pos mx) + ex <= Zdigits2 (Z.pos my) + ey).
  { apply (le_magnitude (S754_finite false mx ex) (S754_finite false my ey));
      try assumption; try exact I.
    rewrite SFleb_scaled by (assumption || exact I).
    apply Z.leb_le. cbn [scaled]. lia. }
  destruct (SFdiv_core_spec mx my ex ey) as [Hs Hc]. cbv zeta in Hs, Hc.
  rewrite fexp_eq in *.
  set (dx := Zdigits2 (Z.pos mx)) in *. set (dy := Zdigits2 (Z.pos my)) in *.
  set (e' := Z.min (Z.max (dx + ex - (dy + ey) - 53) (-1074)) (ex - ey)) in *.
  set (s := ex - ey - e') in *.
  unfold SF64div, SFdiv in *. cbn [xorb] in *. rewrite Hc in *.
  set (a := Z.pos mx * 2 ^ s) in *.
  set (q := a / Z.pos my) in *.
  assert (He' : e' <= 0) by (unfold e'; lia).
  assert (Ps : 0 < 2 ^ s) by (apply Z.pow_pos_nonneg; lia).
  assert (Pe : 0 < 2 ^ (- e')) by (apply Z.pow_pos_nonneg; lia).
  assert (Pc : 0 < 2 ^ (ey + 1074)) by (apply Z.pow_pos_nonneg; lia).
  assert (Ha : a < Z.pos my * 2 ^ (- e')).
  { assert (E1 : 2 ^ (ex + 1074) * 2 ^ (- e') = 2 ^ s * 2 ^ (ey + 1074)).
    { rewrite <- !Z.pow_add_r by lia. f_equal. unfold s. lia. }
    unfold a. nia. }
  assert (Hq0 : 0 <= q) by (apply Z.div_pos; unfold a; nia).
  assert (Hq : q < 2 ^ (0 - e')).
  { unfold q. apply Z.div_lt_upper_bound; [lia|]. rewrite Z.sub_0_l. lia. }
  pose proof (binary_round_aux_below false q e' 0
                (new_location (Z.pos my) (a mod Z.pos my)) Hq0 He'
                ltac:(lia) Hq) as Hb.
  destruct (binary_round_aux prec emax false q e' _) as [b|b| |b m e] eqn:E;
    try contradiction; cbn [signed] in Sg; subst.
  - split; [exact I|]. cbn [scaled]. apply Z.pow_nonneg. lia.
  - split; [exact I|]. destruct Hb as [Hb1 Hb2]. rewrite Z.sub_0_l in Hb2.
    pose proof (valid_finite _ _ _ Vq) as (He & _).
    cbn [scaled].
    assert (Pr : 0 < 2 ^ (e - e')) by (apply Z.pow_pos_nonneg; lia).
    destruct (Z.le_gt_cases (-1074) e') as [Hc1|Hc1].
    + assert (E1 : 2 ^ (e + 1074) = 2 ^ (e - e') * 2 ^ (e' + 1074)).
      { rewrite <- Z.pow_add_r by lia. f_equal. lia. }
      assert (E2 : 2 ^ 1074 = 2 ^ (- e') * 2 ^ (e' + 1074)).
      { rewrite <- Z.pow_add_r by lia. f_equal. lia. }
      assert (P3 : 0 < 2 ^ (e' + 1074)) by (apply Z.pow_pos_nonneg; lia).
      rewrite E1, E2. clear E1 E2. nia.
    + assert (E1 : 2 ^ (e - e') = 2 ^ (e + 1074) * 2 ^ (- e' - 1074)).
      { rewrite <- Z.pow_add_r by lia. f_equal. lia. }
      assert (E2 : 2 ^ (- e') = 2 ^ 1074 * 2 ^ (- e' - 1074)).
      { rewrite <- Z.pow_add_r by lia. f_equal. lia. }
      assert (P3 : 0 < 2 ^ (- e' - 1074)) by (apply Z.pow_pos_nonneg; lia).
      rewrite E1, E2 in Hb2. clear E1 E2.
      assert (P4 : 0 < 2 ^ (e + 1074)) by (apply Z.pow_pos_nonneg; lia).
      set (u := 2 ^ 1074) in *. clearbody u. nia.
Qed.

(** *** Sums that grow *)

(** A sum is above its first term when the second is not lost in the
    rounding. *)
Lemma SFadd_increases (x y : spec_float) (mh : positive) (eh : Z) :
  valid_binary x = true -> valid_binary y = true ->
  valid_binary (S754_finite false mh eh) = true ->
  finite_nonneg x -> finite_nonneg y ->
  0 < scaled y ->
  scaled x + scaled y <= scaled (S754_finite false mh eh) ->
  scaled (S754_finite false mh eh) < 2 ^ 50 * scaled y ->
  scaled x < scaled (SF64add x y).
Proof.
  intros Vx Vy Vh Fx Fy Hy Hsum Hres.
  destruct y as [[|]|[|]| |[|] my ey]; try contradiction;
    [cbn [scaled] in Hy; lia|].
  destruct x as [[|]|[|]| |[|] mx ex]; try contradiction.
  { cbn [SF64add SFadd scaled] in *. exact Hy. }
  destruct (SFadd_value mx my ex ey Vx Vy) as (r & Hr & Hz). cbv zeta in Hz.
  pose proof (scaled_pos _ _ _ Vx) as Px.
  set (sx := scaled (S754_finite false mx ex)) in *.
  set (sy := scaled (S754_finite false my ey)) in *.
  set (sh := scaled (S754_finite false mh eh)) in *.
  set (N := sx + sy) in *.
  assert (HN : 0 <= N <= sh) by lia.
  destruct (rounded_le N r mh eh Vh HN Hr) as [_ Hlt].
  destruct (Hz Hlt) as [_ Hv]. rewrite Hv.
  destruct Hr as [[Hr _] _].
  set (g := grid N) in *.
  assert (Hg0 : 0 <= g) by (unfold g, grid; lia).
  assert (Pg : 0 < 2 ^ g) by (apply Z.pow_pos_nonneg; lia).
  assert (Hg : 2 ^ g <= sy).
  { pose proof (Zdigits2_bounds sy Hy) as [By _].
    pose proof (Zdigits2_pos sy Hy) as Hd.
    assert (HdN : Zdigits2 N <= Zdigits2 sy + 50).
    { pose proof (Zdigits2_le N (sy * 2 ^ 50) ltac:(lia)) as H.
      rewrite Zdigits2_mul_pow2 in H by lia. exact H. }
    eapply Z.le_trans; [|exact By].
    destruct (Z.le_gt_cases (Zdigits2 N - 53) 0) as [H0|H0].
    - unfold g, grid. rewrite Z.max_r by lia. apply Z.pow_le_mono_r; lia.
    - unfold g, grid. rewrite Z.max_l by lia. apply Z.pow_le_mono_r; lia. }
  pose proof (Z.mul_succ_div_gt N (2 ^ g) Pg) as Hdiv.
  assert (Hfl : N / 2 ^ g * 2 ^ g <= r * 2 ^ g)
    by (apply Z.mul_le_mono_nonneg_r; lia).
  clear Hres. lia.
Qed.

(** *** Exact values of quotients *)

(** The digits of a quotient of positive numbers. *)
Lemma Zdigits2_quotient (a b : Z) :
  0 < b -> 1 <= a / b -> Zdigits2 a - Zdigits2 b <= Zdigits2 (a / b).
Proof.
  intros Hb Hq.
  pose proof (Zdigits2_pos b Hb) as Hdb.
  pose proof (Zdigits2_bounds b Hb) as [_ Bb].
  assert (Ha : b <= a).
  { destruct (Z.lt_ge_cases a b) as [H|H]; [|exact H].
    destruct (Z.lt_ge_cases a 0) as [H0|H0].
    - pose proof (Z.div_lt_upper_bound a b 0 Hb ltac:(lia)). lia.
    - rewrite Z.div_small in Hq by lia. lia. }
  assert (P : 0 < 2 ^ Zdigits2 b) by (apply Z.pow_pos_nonneg; lia).
  destruct (Z.lt_ge_cases (a / 2 ^ Zdigits2 b) 1) as [Hz|Hp].
  - assert (a < 2 ^ Zdigits2 b).
    { destruct (Z.lt_ge_cases a (2 ^ Zdigits2 b)) as [?|Hge]; [assumption|].
      pose proof (Z.div_le_lower_bound a (2 ^ Zdigits2 b) 1 P ltac:(lia)).
      lia. }
    pose proof (Zdigits2_lt_pow2 a (Zdigits2 b) ltac:(lia) ltac:(lia) H).
    pose proof (Zdigits2_pos (a / b) ltac:(lia)). lia.
  - rewrite <- (Zdigits2_div_pow2_eq a (Zdigits2 b) ltac:(lia) Hp).
    apply Zdigits2_le. split; [lia|].
    apply Z.div_le_compat_l; lia.
Qed.

(** *** Quotients of integers scaled by powers of two *)

Lemma div_scaled_bounds (a b q K : Z) :
  0 <= a -> 0 < b -> 0 < K -> q = a / b ->
  q * K <= a * K / b < (q + 1) * K.
Proof.
  intros Ha Hb HK ->.
  pose proof (Z.mul_div_le a b Hb) as H1.
  pose proof (Z.mul_succ_div_gt a b Hb) as H2.
  split.
  - apply Z.div_le_lower_bound; [exact Hb|].
    rewrite Z.mul_assoc. apply Z.mul_le_mono_nonneg_r; lia.
  - apply Z.div_lt_upper_bound; [exact Hb|].
    rewrite Z.mul_assoc. apply Z.mul_lt_mono_pos_r; lia.
Qed.

Lemma Zdigits2_between (q N k : Z) :
  1 <= q -> 0 <= k -> q * 2 ^ k <= N < (q + 1) * 2 ^ k ->
  Zdigits2 N = Zdigits2 q + k.
Proof.
  intros Hq Hk [Hlo Hhi].
  assert (Pk : 0 < 2 ^ k) by (apply Z.pow_pos_nonneg; lia).
  pose proof (Zdigits2_bounds q ltac:(lia)) as [_ Bq].
  pose proof (Zdigits2_pos q ltac:(lia)) as Dq.
  assert (H0 : 0 < q * 2 ^ k) by (apply Z.mul_pos_pos; lia).
  assert (D1 : Zdigits2 q + k <= Zdigits2 N).
  { rewrite <- (Zdigits2_mul_pow2 q k) by lia. apply Zdigits2_le. lia. }
  assert (D2 : Zdigits2 N <= Zdigits2 q + k).
  { apply Zdigits2_lt_pow2; [lia | lia|].
    rewrite Z.pow_add_r by lia.
    eapply Z.lt_le_trans; [exact Hhi|].
    apply Z.mul_le_mono_nonneg_r; lia. }
  lia.
Qed.

Lemma div_scaled_div (a b j k : Z) :
  0 < b -> 0 <= j -> 0 <= k ->
  a * 2 ^ k / b / 2 ^ (j + k) = a / b / 2 ^ j.
Proof.
  intros Hb Hj Hk.
  assert (Pk : 0 < 2 ^ k) by (apply Z.pow_pos_nonneg; lia).
  assert (Pj : 0 < 2 ^ j) by (apply Z.pow_pos_nonneg; lia).
  rewrite Z.pow_add_r, !Z.div_div by lia.
  rewrite Z.mul_assoc. apply Z.div_mul_cancel_r; lia.
Qed.

Lemma div_scaled_exact (a b n j k : Z) :
  0 < b -> 0 <= j -> 0 <= k ->
  a * 2 ^ k = b * (n * 2 ^ (j + k)) ->
  a mod b = 0 /\ (2 ^ j | a / b).
Proof.
  intros Hb Hj Hk E.
  assert (Pk : 0 < 2 ^ k) by (apply Z.pow_pos_nonneg; lia).
  assert (Ea : a = n * 2 ^ j * b).
  { apply (Z.mul_cancel_r _ _ (2 ^ k)); [lia|].
    rewrite E, Z.pow_add_r by lia. ring. }
  rewrite Ea. split; [apply Z.mod_mul; lia|].
  rewrite Z.div_mul by lia. exists n. reflexivity.
Qed.

(** The quotient of the exact values of two doubles, cut to a multiple of
    [2^-1074], against the quotient [q] of their mantissas at the exponent
    [e']. *)
Lemma quotient_cut (mx my ex ey e' : Z) :
  0 < mx -> 0 < my -> -1074 <= ex -> -1074 <= ey ->
  0 <= ex - ey - e' -> 0 <= e' + ey + 2148 ->
  let a := mx * 2 ^ (ex - ey - e') in
  let q := a / my in
  let e1 := Z.max (Zdigits2 q + e' - 53) (-1074) in
  let A := mx * 2 ^ (ex + 1074) * 2 ^ 1074 in
  let B := my * 2 ^ (ey + 1074) in
  let N := A / B in
  e' <= e1 ->
  grid N = e1 + 1074
  /\ N / 2 ^ (e1 + 1074) = q / 2 ^ (e1 - e')
  /\ (A mod B = 0 -> N mod 2 ^ (e1 + 1074) = 0 ->
      a mod my = 0 /\ (2 ^ (e1 - e') | q)).
Proof.
  intros Hmx Hmy Hex Hey Hs Hdk. cbv zeta.
  set (s := ex - ey - e') in *.
  set (a := mx * 2 ^ s).
  assert (Ps : 0 < 2 ^ s) by (apply Z.pow_pos_nonneg; lia).
  assert (Ha : 0 < a) by (apply Z.mul_pos_pos; lia).
  set (q := a / my).
  assert (Hq0 : 0 <= q) by (apply Z.div_pos; lia).
  set (e1 := Z.max (Zdigits2 q + e' - 53) (-1074)).
  assert (He1 : e1 = Z.max (Zdigits2 q + e' - 53) (-1074)) by reflexivity.
  clearbody e1.
  set (d := ey + 1074) in *.
  assert (Hd : 0 <= d) by (unfold d; lia).
  assert (Pd : 0 < 2 ^ d) by (apply Z.pow_pos_nonneg; lia).
  intros Hfe.
  destruct (Z.le_gt_cases 0 (e' + 1074)) as [Hk|Hk].
  - (* the quotient is cut above 2^-1074 *)
    set (k := e' + 1074) in *.
    set (j := e1 - e').
    assert (Hj : 0 <= j) by (unfold j; lia).
    assert (Eg : e1 + 1074 = j + k) by (unfold j, k; lia).
    assert (Pk : 0 < 2 ^ k) by (apply Z.pow_pos_nonneg; lia).
    assert (EA : mx * 2 ^ (ex + 1074) * 2 ^ 1074 = a * 2 ^ k * 2 ^ d).
    { unfold a. rewrite <- !Z.mul_assoc, <- !Z.pow_add_r by lia.
      f_equal. f_equal. unfold s, k, d. lia. }
    rewrite EA, Z.div_mul_cancel_r by lia.
    pose proof (div_scaled_bounds a my q (2 ^ k) ltac:(lia) Hmy Pk eq_refl)
      as Hb.
    set (N := a * 2 ^ k / my) in *.
    split; [|split].
    + destruct (Z.eq_dec q 0) as [E0|N0].
      * rewrite E0 in He1, Hb. change (Zdigits2 0) with 0 in He1.
        assert (Ek : k = 0) by (unfold k in *; lia).
        rewrite Ek, Z.pow_0_r in Hb.
        assert (EN : N = 0) by lia.
        rewrite EN. change (grid 0) with 0. unfold k in Ek. lia.
      * pose proof (Zdigits2_between q N k ltac:(lia) Hk Hb) as DN.
        unfold grid. rewrite DN. unfold k. lia.
    + rewrite Eg. apply div_scaled_div; lia.
    + intros HA HN.
      rewrite Z.mul_mod_distr_r in HA by lia.
      assert (HA' : (a * 2 ^ k) mod my = 0).
      { destruct (Z.eq_dec ((a * 2 ^ k) mod my) 0) as [E|E]; [exact E|].
        apply Z.mul_eq_0 in HA. lia. }
      apply Z.mod_divide in HN; [|lia]. destruct HN as [n' Hn'].
      apply (div_scaled_exact a my n' j k Hmy Hj Hk).
      rewrite <- Eg, <- Hn'. apply Z.div_exact; [lia | exact HA'].
  - (* the quotient is cut below 2^-1074 *)
    set (k := - (e' + 1074)) in *.
    assert (Hk0 : 0 < k) by (unfold k; lia).
    set (g := e1 + 1074).
    assert (Hg : 0 <= g) by (unfold g; lia).
    assert (Ej : e1 - e' = k + g) by (unfold k, g; lia).
    assert (Pk : 0 < 2 ^ k) by (apply Z.pow_pos_nonneg; lia).
    assert (Pg : 0 < 2 ^ g) by (apply Z.pow_pos_nonneg; lia).
    assert (Hdk' : 0 <= d - k) by (unfold d, k; lia).
    assert (Pc : 0 < 2 ^ (d - k)) by (apply Z.pow_pos_nonneg; lia).
    assert (EA : mx * 2 ^ (ex + 1074) * 2 ^ 1074 = a * 2 ^ (d - k)).
    { unfold a. rewrite <- !Z.mul_assoc, <- !Z.pow_add_r by lia.
      f_equal. f_equal. unfold s, k, d. lia. }
    assert (EB : my * 2 ^ d = my * 2 ^ k * 2 ^ (d - k)).
    { rewrite <- Z.mul_assoc, <- Z.pow_add_r by lia. f_equal. f_equal. lia. }
    rewrite EA, EB, Z.div_mul_cancel_r by lia.
    assert (EN : a / (my * 2 ^ k) = q / 2 ^ k)
      by (unfold q; rewrite Z.div_div by lia; reflexivity).
    rewrite EN. rewrite Ej.
    split; [|split].
    + destruct (Z.lt_ge_cases (q / 2 ^ k) 1) as [Hz0|Hp].
      * assert (HN0 : q / 2 ^ k = 0).
        { pose proof (Z.div_pos q (2 ^ k) Hq0 Pk). lia. }
        assert (Hqk : q < 2 ^ k).
        { destruct (Z.lt_ge_cases q (2 ^ k)) as [?|Hge]; [assumption|].
          pose proof (Z.div_le_lower_bound q (2 ^ k) 1 Pk ltac:(lia)).
          lia. }
        pose proof (Zdigits2_lt_pow2 q k Hq0 ltac:(lia) Hqk).
        rewrite HN0. change (grid 0) with 0. unfold g, k in *. lia.
      * pose proof (Zdigits2_div_pow2_eq q k ltac:(lia) Hp) as Dq.
        unfold grid. rewrite Dq. unfold g, k in *. lia.
    + rewrite Z.div_div, <- Z.pow_add_r by lia. reflexivity.
    + intros HA HN.
      rewrite Z.mul_mod_distr_r in HA by lia.
      assert (HA' : a mod (my * 2 ^ k) = 0).
      { destruct (Z.eq_dec (a mod (my * 2 ^ k)) 0) as [E|E]; [exact E|].
        apply Z.mul_eq_0 in HA. lia. }
      apply Z.mod_divide in HN; [|lia]. destruct HN as [n' Hn'].
      pose proof (Z.div_exact a (my * 2 ^ k) ltac:(lia)) as Hexact.
      apply proj2 in Hexact. specialize (Hexact HA').
      rewrite EN, Hn' in Hexact.
      assert (Ea : a = n' * 2 ^ (k + g) * my).
      { rewrite Hexact, Z.pow_add_r by lia. ring. }
      split.
      * rewrite Ea. apply Z.mod_mul. lia.
      * exists n'. unfold q. rewrite Ea, Z.div_mul by lia. reflexivity.
Qed.

(** The value of a quotient of positive doubles: with [N] the quotient of
    the exact values cut to a multiple of [2^-1074], the multiple of the
    grid of [N] just below or just above it, and [N] itself when the
    division is exact and [N] lies on the grid. *)
Lemma SFdiv_value (mx my : positive) (ex ey : Z) :
  valid_binary (S754_finite false mx ex) = true ->
  valid_binary (S754_finite false my ey) = true ->
  let A := scaled (S754_finite false mx ex) * 2 ^ 1074 in
  let B := scaled (S754_finite false my ey) in
  let N := A / B in
  let z := SF64div (S754_finite false mx ex) (S754_finite false my ey) in
  exists r,
    N / 2 ^ grid N <= r <= N / 2 ^ grid N + 1
    /\ (A mod B = 0 -> N mod 2 ^ grid N = 0 -> r = N / 2 ^ grid N)
    /\ (r * 2 ^ grid N < 2 ^ 2098 ->
        finite_nonneg z /\ scaled z = r * 2 ^ grid N).
Proof.
  intros Vx Vy. cbv zeta.
  pose proof (valid_finite _ _ _ Vx) as (Hex & Hdx & _).
  pose proof (valid_finite _ _ _ Vy) as (Hey & Hdy & _).
  pose proof (Zdigits2_pos (Z.pos mx) ltac:(lia)) as Hdx0.
  pose proof (Zdigits2_pos (Z.pos my) ltac:(lia)) as Hdy0.
  destruct (SFdiv_core_spec mx my ex ey) as [Hs Hc]. cbv zeta in Hs, Hc.
  rewrite fexp_eq in Hs, Hc.
  unfold SF64div, SFdiv. cbn [xorb scaled]. rewrite Hc. clear Hc.
  set (dx := Zdigits2 (Z.pos mx)) in *. set (dy := Zdigits2 (Z.pos my)) in *.
  set (e' := Z.min (Z.max (dx + ex - (dy + ey) - 53) (-1074)) (ex - ey)) in *.
  assert (He'1 : e' <= Z.max (dx + ex - (dy + ey) - 53) (-1074))
    by (unfold e'; lia).
  assert (Hdk : 0 <= e' + ey + 2148) by (unfold e'; lia).
  clearbody e'.
  set (a := Z.pos mx * 2 ^ (ex - ey - e')) in *.
  set (q := a / Z.pos my) in *.
  assert (Ps : 0 < 2 ^ (ex - ey - e')) by (apply Z.pow_pos_nonneg; lia).
  assert (Ha : 0 < a) by (apply Z.mul_pos_pos; lia).
  assert (Da : Zdigits2 a = dx + (ex - ey - e'))
    by (unfold a; rewrite Zdigits2_mul_pow2 by lia; reflexivity).
  assert (Hq0 : 0 <= q) by (apply Z.div_pos; lia).
  assert (Hfe : e' <= fexp prec emax (Zdigits2 q + e')).
  { rewrite fexp_eq. destruct (Z.eq_dec q 0) as [E0|N0].
    - rewrite E0. change (Zdigits2 0) with 0.
      pose proof (Z.mul_succ_div_gt a (Z.pos my) ltac:(lia)) as Hqb.
      fold q in Hqb. rewrite E0 in Hqb.
      pose proof (Zdigits2_le a (Z.pos my) ltac:(lia)) as Hle.
      fold dy in Hle. lia.
    - pose proof (Zdigits2_quotient a (Z.pos my) ltac:(lia) ltac:(fold q; lia))
        as Hd. fold q dy in Hd. lia. }
  destruct (binary_round_aux_value_loc false q e'
              (new_location (Z.pos my) (a mod Z.pos my)) Hq0 Hfe)
    as (r & Hr & Hx & Hz).
  cbv zeta in Hz. rewrite fexp_eq in Hfe, Hr, Hx, Hz.
  destruct (quotient_cut (Z.pos mx) (Z.pos my) ex ey e' ltac:(lia) ltac:(lia)
              ltac:(lia) ltac:(lia) Hs Hdk Hfe) as (Hg & Hdiv & Hexact).
  fold a q in Hg, Hdiv, Hexact.
  rewrite Hg, Hdiv.
  exists r. split; [exact Hr|]. split.
  - intros HA HN. destruct (Hexact HA HN) as [Hrem Hd].
    apply Hx; [rewrite Hrem; apply new_location_exact | exact Hd].
  - intros Hlt. destruct (Hz Hlt) as (Hf & Hsg & Hv).
    split; [now apply signed_finite_nonneg | exact Hv].
Qed.


(** A value below a double is not rounded above it. *)
Lemma rounded_below (N r : Z) (mh : positive) (eh : Z) :
  valid_binary (S754_finite false mh eh) = true ->
  0 <= N < scaled (S754_finite false mh eh) ->
  r <= N / 2 ^ grid N + 1 ->
  r * 2 ^ grid N <= scaled (S754_finite false mh eh).
Proof.
  intros V HN Hr.
  pose proof (grid_le_exponent N false mh eh V ltac:(lia)) as Hg.
  destruct (scaled_divide false mh eh (grid N) Hg) as [c Hc].
  set (g := grid N) in *.
  assert (Pg : 0 < 2 ^ g) by (apply Z.pow_pos_nonneg; lia).
  rewrite Hc in HN |- *.
  assert (N / 2 ^ g < c) by (apply Z.div_lt_upper_bound; lia).
  apply Z.mul_le_mono_nonneg_r; lia.
Qed.

(** A quotient that lies between two doubles is rounded to a double
    between them. *)
Lemma SFdiv_between (mx my : positive) (ex ey : Z) (lo : spec_float)
    (mh : positive) (eh : Z) :
  valid_binary (S754_finite false mx ex) = true ->
  valid_binary (S754_finite false my ey) = true ->
  valid_binary lo = true -> valid_binary (S754_finite false mh eh) = true ->
  scaled lo * scaled (S754_finite false my ey)
  <= scaled (S754_finite false mx ex) * 2 ^ 1074
  <= scaled (S754_finite false mh eh) * scaled (S754_finite false my ey) ->
  let z := SF64div (S754_finite false mx ex) (S754_finite false my ey) in
  finite_nonneg z
  /\ scaled lo <= scaled z <= scaled (S754_finite false mh eh).
Proof.
  intros Vx Vy Vl Vh [Hlo Hhi]. cbv zeta.
  destruct (SFdiv_value mx my ex ey Vx Vy) as (r & Hr & Hx & Hz).
  cbv zeta in Hr, Hx, Hz. revert Hz.
  pose proof (scaled_pos _ _ _ Vx) as Px.
  pose proof (scaled_pos _ _ _ Vy) as Py.
  set (A := scaled (S754_finite false mx ex) * 2 ^ 1074) in *.
  assert (HA0 : 0 <= A).
  { apply Z.mul_nonneg_nonneg; [apply Z.lt_le_incl, Px|].
    apply Z.pow_nonneg. lia. }
  clearbody A.
  set (B := scaled (S754_finite false my ey)) in *.
  set (sh := scaled (S754_finite false mh eh)) in *.
  set (N := A / B) in *. set (g := grid N) in *.
  assert (Hg0 : 0 <= g) by (unfold g, grid; lia).
  assert (Pg : 0 < 2 ^ g) by (apply Z.pow_pos_nonneg; lia).
  pose proof (Z.mul_div_le A B Py) as HNa.
  pose proof (Z.mul_succ_div_gt A B Py) as HNb. fold N in HNa, HNb.
  assert (HN0 : 0 <= N) by (apply Z.div_pos; [exact HA0 | exact Py]).
  assert (HNlo : scaled lo <= N)
    by (apply Z.div_le_lower_bound; [exact Py | lia]).
  assert (HNhi : N <= sh) by nia.
  assert (Hge : scaled lo <= r * 2 ^ g).
  { assert (Hfl : scaled lo <= N / 2 ^ g * 2 ^ g).
    { apply (rounded_ge N (N / 2 ^ g) lo Vl HNlo). fold g.
      split; [lia | reflexivity]. }
    eapply Z.le_trans; [exact Hfl|].
    apply Z.mul_le_mono_nonneg_r; lia. }
  assert (Hle : r * 2 ^ g <= sh).
  { destruct (Z.eq_dec N sh) as [E|Hne].
    - assert (EA : A = sh * B) by nia.
      pose proof (grid_le_exponent N false mh eh Vh ltac:(fold sh; lia))
        as Hg.
      destruct (scaled_divide false mh eh (grid N) Hg) as [c Hc].
      fold sh g in Hc.
      rewrite Hx.
      + rewrite E, Hc, Z.div_mul by lia. lia.
      + rewrite EA. apply Z.mod_mul. lia.
      + rewrite E, Hc. apply Z.mod_mul. lia.
    - apply rounded_below; [exact Vh | fold sh; lia | fold g; lia]. }
  intros Hz. pose proof (scaled_below_top _ _ _ Vh) as Hh. fold sh in Hh.
  destruct (Hz (Z.le_lt_trans _ _ _ Hle Hh)) as [Hf Hv]. rewrite Hv. auto.
Qed.


(** A quotient that is not rounded to zero is more than half the exact
    one. *)
Lemma SFdiv_above_half (mx my : positive) (ex ey : Z) (mh : positive)
    (eh : Z) :
  valid_binary (S754_finite false mx ex) = true ->
  valid_binary (S754_finite false my ey) = true ->
  valid_binary (S754_finite false mh eh) = true ->
  scaled (S754_finite false mx ex) * 2 ^ 1074
  < scaled (S754_finite false mh eh) * scaled (S754_finite false my ey) ->
  let z := SF64div (S754_finite false mx ex) (S754_finite false my ey) in
  0 < scaled z ->
  scaled (S754_finite false mx ex) * 2 ^ 1074
  < 2 * scaled z * scaled (S754_finite false my ey).
Proof.
  intros Vx Vy Vh Hhi. cbv zeta.
  destruct (SFdiv_value mx my ex ey Vx Vy) as (r & Hr & _ & Hz).
  cbv zeta in Hr, Hz. revert Hz.
  pose proof (scaled_pos _ _ _ Vx) as Px.
  pose proof (scaled_pos _ _ _ Vy) as Py.
  set (A := scaled (S754_finite false mx ex) * 2 ^ 1074) in *.
  assert (HA0 : 0 <= A).
  { apply Z.mul_nonneg_nonneg; [apply Z.lt_le_incl, Px|].
    apply Z.pow_nonneg. lia. }
  clearbody A.
  set (B := scaled (S754_finite false my ey)) in *.
  set (sh := scaled (S754_finite false mh eh)) in *.
  set (N := A / B) in *. set (g := grid N) in *.
  assert (Hg0 : 0 <= g) by (unfold g, grid; lia).
  assert (Pg : 0 < 2 ^ g) by (apply Z.pow_pos_nonneg; lia).
  pose proof (Z.mul_div_le A B Py) as HNa.
  pose proof (Z.mul_succ_div_gt A B Py) as HNb. fold N in HNa, HNb.
  assert (HN0 : 0 <= N) by (apply Z.div_pos; [exact HA0 | exact Py]).
  assert (HNhi : N < sh) by (apply Z.div_lt_upper_bound; lia).
  pose proof (rounded_below N r mh eh Vh ltac:(fold sh; lia)
                ltac:(fold g; lia)) as Hle.
  fold sh g in Hle.
  intros Hz. pose proof (scaled_below_top _ _ _ Vh) as Hh. fold sh in Hh.
  destruct (Hz (Z.le_lt_trans _ _ _ Hle Hh)) as [_ Hv]. rewrite Hv.
  clear Hz Hh. intros Hpos.
  assert (Hr1 : 1 <= r).
  { destruct (Z.lt_ge_cases r 1) as [H|H]; [|exact H].
    assert (r * 2 ^ g <= 0) by (apply Z.mul_nonpos_nonneg; lia). lia. }
  pose proof (Z.mul_succ_div_gt N (2 ^ g) Pg) as Hd.
  assert (Hr2 : (N / 2 ^ g + 1) * 2 ^ g <= (r + r) * 2 ^ g)
    by (apply Z.mul_le_mono_nonneg_r; lia).
  assert (HN1 : N + 1 <= 2 * (r * 2 ^ g)) by lia.
  apply Z.lt_le_trans with (1 := HNb).
  replace (2 * (r * 2 ^ g) * B) with (B * (2 * (r * 2 ^ g))) by ring.
  apply Z.mul_le_mono_nonneg_l; lia.
Qed.

End Binary64_order.

(** ** Traces, time stamps and metrics *)

(** *** The states of a trace *)


Lemma rk4_loop_chain (p : Params) (limit : option Z) :
  forall fuel i s acc l,
    chain (fun b a => pass p a b) (s :: acc) ->
    rk4_loop fuel p limit i s (s :: acc) = Some l ->
    chain (fun b a => pass p a b) l.
Proof.
  induction fuel as [|fuel IH]; intros i s acc l Hc; simpl; [discriminate|].
  destruct (JS.below i limit); [|congruence].
  destruct (JS.geb (st_t s) (t_end_min p)) eqn:Hge; [congruence|].
  apply IH. split; [split; [exact Hge | reflexivity] | exact Hc].
Qed.

(** Each state of a trace comes from the one before it by one pass. *)
Lemma states_fuel_chain (fuel : nat) (p : Params) (l : list State) :
  states_fuel fuel p = Some l -> chain (pass p) l.
Proof.
  unfold states_fuel.
  destruct (rk4_loop fuel p _ 0 (init_state p) [init_state p]) as [l'|] eqn:E;
    simpl; [|discriminate].
  intros [= <-]. rewrite <- rev_alt. apply chain_rev.
  eapply rk4_loop_chain; [|exact E]. exact I.
Qed.

Lemma rk4_loop_length (p : Params) (limit : option Z) (n : Z) :
  (0 <= n <= 2 ^ 53)%Z -> JS.below n limit = false ->
  forall fuel i s acc l,
    (0 <= i)%Z ->
    rk4_loop fuel p limit i s acc = Some l ->
    (Z.of_nat (List.length l)
     <= Z.of_nat (List.length acc) + Z.max 0 (n - i))%Z.
Proof.
  intros Hn Hb. induction fuel as [|fuel IH]; intros i s acc l Hi;
    cbn [rk4_loop]; [discriminate|].
  destruct (JS.below i limit) eqn:Hlt; [|intros [= <-]; lia].
  destruct (JS.geb (st_t s) (t_end_min p)); [intros [= <-]; lia|].
  assert (i < n)%Z.
  { destruct (Z.lt_ge_cases i n) as [?|Hge]; auto.
    rewrite (below_mono n i) in Hlt by (auto; lia). discriminate. }
  change (2 ^ 53)%Z with 9007199254740992%Z in Hn.
  intros H'. apply IH in H'.
  - unfold JS.incr in H'.
    destruct (i <? 9007199254740992)%Z eqn:E; [|apply Z.ltb_ge in E; lia].
    cbn [List.length] in H'. lia.
  - unfold JS.incr. destruct (i <? 9007199254740992)%Z; lia.
Qed.

Lemma states_fuel_length (fuel : nat) (p : Params) (n : Z) (l : list State) :
  counter_bound p n -> states_fuel fuel p = Some l ->
  (Z.of_nat (List.length l) <= n + 1)%Z.
Proof.
  intros [Hn Hb]. unfold states_fuel.
  destruct (rk4_loop fuel p _ 0 (init_state p) [init_state p]) as [l'|] eqn:E;
    simpl; [|discriminate].
  intros [= <-]. rewrite <- rev_alt, length_rev.
  pose proof (rk4_loop_length p _ n Hn Hb _ 0%Z _ _ _ (Z.le_refl 0) E) as H.
  cbn [List.length] in H. lia.
Qed.

(** *** Reading the parameters twice *)




(** *** The numbers shown beside the fields *)

Lemma shown_value_nonpositive (x : float) :
  positive_real x = false -> (shown_value x <=? 0) = true.
Proof.
  unfold shown_value, positive_real, JS.Number_isFinite.
  destruct (is_finite x) eqn:Hf; [|reflexivity]. cbn [andb]. intros H.
  apply ltb_false_leb; [now apply is_finite_not_nan | reflexivity | exact H].
Qed.

Lemma shown_value_positive (x d : float) :
  (d <=? 0) = false ->
  (shown_value x = guard_pos x d <-> positive_real x = true).
Proof.
  intros Hd. rewrite guard_pos_keeps.
  destruct (positive_real x) eqn:Hp.
  - split; [reflexivity|]. intros _. unfold shown_value, JS.Number_isFinite.
    unfold positive_real in Hp. apply andb_true_iff in Hp as [-> _].
    reflexivity.
  - split; [|discriminate]. intros E.
    pose proof (shown_value_nonpositive x Hp) as H. rewrite E in H.
    congruence.
Qed.

Lemma shown_value_nonneg (x : float) :
  shown_value x = guard_nonneg x 0
  <-> (is_finite x = true -> (x <? 0) = false).
Proof.
  unfold shown_value, guard_nonneg, JS.Number_isFinite.
  destruct (is_finite x) eqn:Hf; cbn [negb orb].
  - destruct (x <? 0) eqn:Hlt.
    + split; [|intros H; specialize (H eq_refl); discriminate].
      intros E. rewrite E in Hlt. discriminate.
    + split; auto.
  - split; [discriminate | reflexivity].
Qed.

(** Property X2. The number [readParams] shows beside a field is the number it
    simulates exactly when the field is in range: for the weight, the horizon
    and the step (before the cap) when the field holds a positive finite number,
    for the bolus, the infusion rate and the infusion duration unless the field
    holds a finite negative number. Otherwise the page shows the rejected
    number, or 0 for a field that is empty or infinite, while the default is
    simulated. *)
Theorem shown_value_agrees (raw : Params) :
  (shown_value (weight raw) = weight (guardrails raw)
   <-> positive_real (weight raw) = true)
  /\ (shown_value (t_end_min raw) = t_end_min (guardrails raw)
      <-> positive_real (t_end_min raw) = true)
  /\ (shown_value (dt_min raw) = dt_min (guardrails raw)
      <-> positive_real (dt_min raw) = true)
  /\ (shown_value (bolus_mg raw) = bolus_mg (guardrails raw)
      <-> (is_finite (bolus_mg raw) = true -> (bolus_mg raw <? 0) = false))
  /\ (shown_value (infusion_mg_min raw) = infusion_mg_min (guardrails raw)
      <-> (is_finite (infusion_mg_min raw) = true ->
           (infusion_mg_min raw <? 0) = false))
  /\ (shown_value (infusion_duration_min raw)
      = infusion_duration_min (guardrails raw)
      <-> (is_finite (infusion_duration_min raw) = true ->
           (infusion_duration_min raw <? 0) = false)).
Proof.
  unfold guardrails.
  cbn [weight bolus_mg infusion_mg_min infusion_duration_min t_end_min dt_min].
  split; [apply shown_value_positive; reflexivity|].
  split; [apply shown_value_positive; reflexivity|].
  split; [apply shown_value_positive; reflexivity|].
  split; [apply shown_value_nonneg|].
  split; apply shown_value_nonneg.
Qed.

(** *** The infusion over time *)

Lemma SFle_trans (a b c : spec_float) :
  SFleb a b = true -> SFleb b c = true -> SFleb a c = true.
Proof.
  unfold SFleb. sf_cases a; sf_cases b; sf_cases c; intros H1 H2;
    order_cases.
Qed.

Lemma leb_trans (a b c : float) :
  (a <=? b) = true -> (b <=? c) = true -> (a <=? c) = true.
Proof. rewrite !FloatAxioms.leb_spec. apply SFle_trans. Qed.

Lemma doseRate_nonneg_real (p : Params) (t : float) :
  normalized p -> nonneg_real (doseRate t p) = true.
Proof.
  intros Hn. destruct (normalized_fields p Hn) as (_ & _ & Hr & _).
  unfold doseRate.
  destruct (_ || _); [reflexivity|].
  destruct (t <=? infusion_duration_min p); [exact Hr | reflexivity].
Qed.

(** Property X4. For a normalized parameter set the infusion term is a finite
    number that is not negative at every time, a NaN or an infinite time
    included, and it never rises: at a later time it is at most what it was at
    an earlier one, so an infusion that has stopped stays off. *)
Theorem doseRate_never_rises (p : Params) :
  normalized p ->
  (forall t, nonneg_real (doseRate t p) = true)
  /\ (forall t1 t2, (t1 <=? t2) = true ->
                    (doseRate t2 p <=? doseRate t1 p) = true)
  /\ (forall t, is_nan t = true -> doseRate t p = 0).
Proof.
  intros Hn. split; [intros t; now apply doseRate_nonneg_real|].
  destruct (normalized_fields p Hn) as (_ & _ & Hr & Hd & _).
  pose proof (nonneg_real_not_nan _ Hr) as Hrn.
  unfold nonneg_real in Hr. apply andb_true_iff in Hr as [_ Hr0].
  split.
  - intros t1 t2 Hle. unfold doseRate.
    destruct (_ || _); [reflexivity|].
    destruct (t2 <=? infusion_duration_min p) eqn:E2.
    + rewrite (leb_trans _ _ _ Hle E2). now apply leb_refl.
    + destruct (t1 <=? infusion_duration_min p); [exact Hr0 | reflexivity].
  - intros t Ht. unfold doseRate.
    destruct (_ || _); [reflexivity|].
    destruct (t <=? infusion_duration_min p) eqn:E; [|reflexivity].
    rewrite FloatAxioms.leb_spec in E. unfold is_nan in Ht.
    rewrite FloatAxioms.eqb_spec in Ht.
    destruct (Prim2SF t) as [[|]|[|]| |[|] m e]; try discriminate;
      unfold SFeqb in Ht; simpl in Ht; rewrite ?Z.compare_refl in Ht;
      try discriminate;
      change (Pos.compare_cont Eq m m) with (Pos.compare m m) in Ht;
      rewrite Pos.compare_refl in Ht; discriminate.
Qed.

Lemma doseRate_never_rises_witness :
  normalized (readParams raw_infusion)
  /\ (doseRate 31 (readParams raw_infusion)
      <=? doseRate 30 (readParams raw_infusion)) = true
  /\ doseRate nan (readParams raw_infusion) = 0.
Proof.
  assert (Hn : normalized (readParams raw_infusion))
    by (vm_compute; reflexivity).
  split; [exact Hn|].
  destruct (doseRate_never_rises (readParams raw_infusion) Hn)
    as (_ & H2 & H3).
  split; [apply H2; reflexivity | apply H3; reflexivity].
Defined.

(** *** A bound on the loop counter *)

Lemma counter_limit_ceil_le (x : float) (N : Z) :
  finite_nonneg (Prim2SF x) -> (0 <= N < 2 ^ 53)%Z ->
  (sc x <= N * 2 ^ 1074)%Z ->
  exists n, JS.counter_limit (JS.Math_ceil x) = Some n
            /\ (0 <= n <= N)%Z /\ (0 < sc x -> 1 <= n)%Z.
Proof.
  intros Hf HN Hle. pose proof (Prim2SF_valid x) as V. unfold sc in *.
  destruct (Prim2SF x) as [[|]|[|]| |[|] m e] eqn:E; try contradiction.
  - exists 0%Z. unfold JS.Math_ceil. rewrite E. unfold JS.counter_limit.
    rewrite E. cbn [scaled]. split; [reflexivity | lia].
  - pose proof (valid_finite _ _ _ V) as (He & _).
    cbn [scaled] in *.
    assert (P0 : (0 < 2 ^ (e + 1074))%Z) by (apply Z.pow_pos_nonneg; lia).
    unfold JS.Math_ceil. rewrite E.
    destruct (0 <=? e)%Z eqn:He0.
    + apply Z.leb_le in He0. unfold JS.counter_limit. rewrite E.
      rewrite (proj2 (Z.leb_le 0 e) He0).
      exists (Z.pos m * 2 ^ e)%Z. split; [reflexivity|].
      assert (P1 : (0 < 2 ^ e)%Z) by (apply Z.pow_pos_nonneg; lia).
      assert (P2 : (0 < 2 ^ 1074)%Z) by (apply Z.pow_pos_nonneg; lia).
      rewrite Z.pow_add_r in Hle by lia.
      set (u := (2 ^ 1074)%Z) in *. clearbody u. nia.
    + apply Z.leb_gt in He0.
      set (K := (2 ^ (- e))%Z).
      assert (HK : (0 < K)%Z) by (apply Z.pow_pos_nonneg; lia).
      assert (EK : (2 ^ 1074 = K * 2 ^ (e + 1074))%Z).
      { unfold K. rewrite <- Z.pow_add_r by lia. f_equal. lia. }
      assert (Hm : (Z.pos m <= N * K)%Z) by (rewrite EK in Hle; clear EK; nia).
      assert (Hn : (1 <= (Z.pos m + K - 1) / K <= N)%Z).
      { split; [apply Z.div_le_lower_bound; lia|].
        apply Z.lt_succ_r. apply Z.div_lt_upper_bound; [exact HK|]. lia. }
      exists ((Z.pos m + K - 1) / K)%Z. split; [|lia].
      apply counter_limit_of_Z. lia.
Qed.

(** Without the cap, the quotient [t_end / dt] is at most [20000]. *)
Lemma steps_uncapped_le (T dt : float) :
  positive_real T = true -> positive_real dt = true ->
  JS.gtb (T / dt) MAX_STEPS = false ->
  finite_nonneg (Prim2SF (T / dt))
  /\ (sc (T / dt) <= 20000 * 2 ^ 1074)%Z.
Proof.
  intros HT Hdt Hgt.
  destruct (steps_uncapped T dt HT Hdt Hgt) as [Hf _].
  split; [exact Hf|].
  unfold JS.gtb in Hgt. rewrite FloatAxioms.ltb_spec in Hgt.
  rewrite SFltb_scaled in Hgt
    by (exact Hf || exact I || apply Prim2SF_valid).
  apply Z.ltb_ge in Hgt. exact Hgt.
Qed.

Lemma uncapped_counter_bound (p : Params) :
  normalized p ->
  JS.gtb (t_end_min p / dt_min p) MAX_STEPS = false ->
  counter_bound p 20000.
Proof.
  intros Hn G.
  destruct (normalized_fields p Hn) as (_ & _ & _ & _ & HT & Hdt).
  destruct (steps_uncapped_le _ _ HT Hdt G) as [Hf Hle].
  destruct (counter_limit_ceil_le _ 20000 Hf ltac:(lia) Hle)
    as (n & E & Hn' & _).
  unfold counter_bound, nSteps. rewrite E.
  split; [lia|]. apply Z.ltb_ge. lia.
Qed.

Lemma readParams_uncapped (raw : Params) :
  JS.gtb (t_end_min (guardrails raw) / dt_min (guardrails raw)) MAX_STEPS
  = false ->
  readParams raw = guardrails raw.
Proof.
  intros G. unfold readParams, readParams_ui, cap_steps. rewrite G.
  reflexivity.
Qed.

(** *** How far apart the horizon and the step lie *)

Lemma F_fnn_scaled_ratio (T dt : float) :
  positive_real T = true -> positive_real dt = true ->
  (magnitude (Prim2SF T) - magnitude (Prim2SF dt) <= 16)%Z ->
  (sc T < 2 ^ 17 * sc dt)%Z.
Proof.
  intros HT Hdt H.
  destruct (positive_real_fnn T HT) as (mx & ex & ET).
  destruct (positive_real_fnn dt Hdt) as (my & ey & ED).
  pose proof (Prim2SF_valid T) as VT. pose proof (Prim2SF_valid dt) as VD.
  unfold sc. rewrite ET, ED in *. cbn [magnitude] in H.
  apply scaled_ratio; assumption.
Qed.

Lemma uncapped_ratio (T dt : float) :
  positive_real T = true -> positive_real dt = true ->
  JS.gtb (T / dt) MAX_STEPS = false ->
  (sc T < 2 ^ 17 * sc dt)%Z.
Proof.
  intros HT Hdt G. apply F_fnn_scaled_ratio; try assumption.
  destruct (positive_real_fnn T HT) as (mx & ex & ET).
  destruct (positive_real_fnn dt Hdt) as (my & ey & ED).
  pose proof (Prim2SF_valid T) as VT. pose proof (Prim2SF_valid dt) as VD.
  pose proof (Prim2SF_valid (T / dt)) as VQ.
  unfold JS.gtb in G. rewrite FloatAxioms.ltb_spec in G.
  rewrite div_spec in G, VQ. rewrite ET, ED in *. cbn [magnitude].
  change (Prim2SF MAX_STEPS) with cap_number in G.
  destruct (Z.le_gt_cases
              (Zdigits2 (Z.pos mx) + ex - (Zdigits2 (Z.pos my) + ey)) 16)
    as [H|H]; [exact H|].
  rewrite (SFdiv_large mx my ex ey VT VD VQ ltac:(lia)) in G. discriminate.
Qed.

Lemma capped_ratio (T : float) :
  positive_real T = true -> positive_real (T / MAX_STEPS) = true ->
  (sc T < 2 ^ 17 * sc (T / MAX_STEPS))%Z.
Proof.
  intros HT Hdt. apply F_fnn_scaled_ratio; try assumption.
  destruct (positive_real_fnn T HT) as (mx & ex & ET).
  destruct (positive_real_fnn _ Hdt) as (my & ey & ED).
  pose proof (Prim2SF_valid T) as VT. rewrite ET in VT.
  pose proof (Prim2SF_valid (T / MAX_STEPS)) as VD. rewrite ED in VD.
  assert (E : SF64div (S754_finite false mx ex) cap_number
              = S754_finite false my ey).
  { rewrite <- ED, div_spec, ET. reflexivity. }
  pose proof (SFdiv_cap_magnitude mx my ex ey VT VD E) as G.
  rewrite ET, ED. cbn [magnitude]. lia.
Qed.

(** The step that [readParams] returns resolves the horizon. *)
Lemma readParams_step_resolved (raw : Params) : step_resolved (readParams raw).
Proof.
  unfold step_resolved, readParams, readParams_ui.
  pose proof (guardrails_ok raw) as Hp.
  set (p := guardrails raw) in *.
  destruct (normalized_fields p Hp) as (_ & _ & _ & _ & HT & Hdt).
  assert (M : forall a b, (0 <= b)%Z -> (a < 2 ^ 17 * b)%Z ->
                          (a < 2 ^ 50 * b)%Z) by (intros; lia).
  unfold cap_steps.
  destruct (JS.gtb (t_end_min p / dt_min p) MAX_STEPS) eqn:G;
    cbn [fst set_dt t_end_min dt_min]; apply M;
    try apply scaled_nonneg.
  - apply capped_ratio; [exact HT|].
    now apply (capped_step_positive _ _ HT Hdt).
  - now apply uncapped_ratio.
Qed.

(** *** The time variable from one pass to the next *)

Lemma positive_real_sc (x : float) : positive_real x = true -> (0 < sc x)%Z.
Proof.
  intros H. destruct (positive_real_fnn x H) as (m & e & E).
  pose proof (Prim2SF_valid x) as V. unfold sc. rewrite E in *.
  now apply scaled_pos.
Qed.

(** The step the loop takes is positive and does not pass the horizon; it
    is the requested step unless it lands on the horizon. *)
Lemma step_facts (s : State) (p : Params) :
  positive_real (t_end_min p) = true -> positive_real (dt_min p) = true ->
  time_inv p (st_t s) -> JS.geb (st_t s) (t_end_min p) = false ->
  F_fnn (st_t s) /\ F_fnn (step_size s p)
  /\ (0 < sc (step_size s p))%Z
  /\ (sc (st_t s) + sc (step_size s p) <= sc (t_end_min p))%Z
  /\ (sc (st_t s) + sc (step_size s p) = sc (t_end_min p)
      \/ sc (step_size s p) = sc (dt_min p))%Z.
Proof.
  intros HT Hdt (Hf & Hle & HJ) Hge.
  pose proof (F_fnn_nn _ Hf) as Hnn.
  destruct (step_size_le s p HT Hdt Hnn Hge) as (Hh & Hd & Hcase).
  destruct (step_time_below _ _ HT Hnn Hge) as [_ Hlt].
  pose proof (positive_real_F_fnn _ HT) as HTf.
  pose proof (positive_real_F_fnn _ Hdt) as Hdtf.
  pose proof (positive_real_sc _ HT) as PT.
  pose proof (positive_real_sc _ Hdt) as Pdt.
  rewrite SFltb_scaled in Hlt by auto using Prim2SF_valid.
  apply Z.ltb_lt in Hlt. fold (sc (st_t s)) (sc (t_end_min p)) in Hlt.
  destruct (rest_exact (st_t s) (t_end_min p) Hf HT Hlt) as [Hrest0 Hrest1].
  pose proof (scaled_nonneg (Prim2SF (st_t s))) as Ht0. fold (sc (st_t s)) in Ht0.
  assert (Hlow : (sc (t_end_min p) - sc (st_t s) > sc (st_t s) ->
                  sc (st_t s) <= sc (t_end_min p - st_t s))%Z).
  { intros Hhalf. unfold sc in *. rewrite sub_spec.
    apply SFsub_lower; auto using Prim2SF_valid. lia. }
  split; [exact Hf|]. split; [exact Hh|].
  set (t := st_t s) in *. set (T := t_end_min p) in *.
  set (dt := dt_min p) in *. set (h := step_size s p) in *.
  set (d := T - t) in *.
  destruct (Z.eq_dec (sc t) 0) as [E0|N0].
  - specialize (Hrest0 E0). destruct Hcase as [[-> H]|[-> H]]; lia.
  - assert (Hdt_t : (sc dt <= sc t)%Z) by lia.
    destruct (Z.le_gt_cases (sc T - sc t) (sc t)) as [Hhalf|Hhalf].
    + specialize (Hrest1 Hhalf). destruct Hcase as [[-> H]|[-> H]]; lia.
    + specialize (Hlow ltac:(lia)).
      destruct Hcase as [[-> H]|[-> H]]; lia.
Qed.

(** A pass does not move the time back. *)
Lemma step_time_le (s : State) (p : Params) :
  positive_real (t_end_min p) = true -> positive_real (dt_min p) = true ->
  time_inv p (st_t s) -> JS.geb (st_t s) (t_end_min p) = false ->
  (sc (st_t s) <= sc (st_t s + step_size s p))%Z.
Proof.
  intros HT Hdt Hinv Hge.
  destruct (step_facts s p HT Hdt Hinv Hge) as (Hf & Hh & _ & Hsum & _).
  destruct (positive_real_fnn _ HT) as (mT & eT & ET).
  pose proof (Prim2SF_valid (t_end_min p)) as VT.
  unfold sc in *. rewrite ET in *. rewrite add_spec.
  apply (SFadd_between _ _ (Prim2SF (st_t s)) mT eT);
    auto using Prim2SF_valid.
  split; [|exact Hsum].
  pose proof (scaled_nonneg (Prim2SF (step_size s p))). lia.
Qed.

(** A pass moves the time forward when the step resolves the horizon. *)
Lemma step_time_lt (s : State) (p : Params) :
  positive_real (t_end_min p) = true -> positive_real (dt_min p) = true ->
  step_resolved p ->
  time_inv p (st_t s) -> JS.geb (st_t s) (t_end_min p) = false ->
  (sc (st_t s) < sc (st_t s + step_size s p))%Z.
Proof.
  intros HT Hdt Hres Hinv Hge.
  destruct (step_facts s p HT Hdt Hinv Hge)
    as (Hf & Hh & Hpos & Hsum & Hcase).
  destruct (positive_real_fnn _ HT) as (mT & eT & ET).
  pose proof (Prim2SF_valid (t_end_min p)) as VT.
  unfold step_resolved in Hres.
  destruct (step_time_below _ _ HT (F_fnn_nn _ Hf) Hge) as [_ Hlt].
  rewrite SFltb_scaled in Hlt
    by (auto using Prim2SF_valid; now apply positive_real_F_fnn).
  apply Z.ltb_lt in Hlt.
  unfold sc in *. rewrite ET in *. rewrite add_spec.
  destruct Hcase as [Hc|Hc].
  - destruct (SFadd_between (Prim2SF (st_t s)) (Prim2SF (step_size s p))
                (S754_finite false mT eT) mT eT) as (_ & H1 & _);
      auto using Prim2SF_valid; lia.
  - apply (SFadd_increases _ _ mT eT); auto using Prim2SF_valid.
    rewrite Hc. exact Hres.
Qed.

(** *** Time stamps in order *)

Lemma states_times_le (p : Params) (fuel : nat) (l : list State) :
  normalized p -> states_fuel fuel p = Some l ->
  chain (fun a b => (a <=? b) = true) (map st_t l).
Proof.
  intros Hn Hl.
  destruct (normalized_fields p Hn) as (_ & _ & _ & _ & HT & Hdt).
  apply chain_map.
  apply (chain_impl (fun s => time_inv p (st_t s)) (pass p)).
  - intros a b Ha Hb [Hge ->]. rewrite rk4_step_time in *.
    rewrite F_fnn_leb by (apply Ha || apply Hb).
    apply Z.leb_le. now apply step_time_le.
  - now apply (states_time_inv p fuel).
  - now apply (states_fuel_chain fuel).
Qed.

Lemma states_times_lt (p : Params) (fuel : nat) (l : list State) :
  normalized p -> step_resolved p -> states_fuel fuel p = Some l ->
  chain (fun a b => (a <? b) = true) (map st_t l).
Proof.
  intros Hn Hres Hl.
  destruct (normalized_fields p Hn) as (_ & _ & _ & _ & HT & Hdt).
  apply chain_map.
  apply (chain_impl (fun s => time_inv p (st_t s)) (pass p)).
  - intros a b Ha Hb [Hge ->]. rewrite rk4_step_time in *.
    rewrite F_fnn_ltb by (apply Ha || apply Hb).
    apply Z.ltb_lt. now apply step_time_lt.
  - now apply (states_time_inv p fuel).
  - now apply (states_fuel_chain fuel).
Qed.

(** *** The step cap only enlarges the step *)

Lemma cap_scaled : scaled cap_number = (20000 * 2 ^ 1074)%Z.
Proof. reflexivity. Qed.

(** The cap fires only when the horizon is more than 20000 steps long. *)
Lemma cap_fires_exact (T dt : float) :
  positive_real T = true -> positive_real dt = true ->
  JS.gtb (T / dt) MAX_STEPS = true ->
  (20000 * sc dt < sc T)%Z.
Proof.
  intros HT Hdt G.
  destruct (positive_real_fnn T HT) as (mx & ex & ET).
  destruct (positive_real_fnn dt Hdt) as (my & ey & ED).
  pose proof (Prim2SF_valid T) as VT. pose proof (Prim2SF_valid dt) as VD.
  pose proof (Prim2SF_valid (T / dt)) as VQ.
  unfold JS.gtb in G. rewrite FloatAxioms.ltb_spec in G.
  rewrite div_spec in G, VQ. unfold sc. rewrite ET, ED in *.
  change (Prim2SF MAX_STEPS) with cap_number in G.
  destruct (Z.lt_ge_cases (20000 * scaled (S754_finite false my ey))
              (scaled (S754_finite false mx ex))) as [H|H]; [exact H|].
  exfalso.
  destruct (SFdiv_between mx my ex ey (S754_zero false)
              5497558138880000 (-38) VT VD eq_refl eq_refl)
    as (Hf & _ & Hle).
  { fold cap_number. rewrite cap_scaled.
    change (scaled (S754_zero false)) with 0%Z.
    pose proof (scaled_pos _ _ _ VT).
    pose proof (Z.pow_pos_nonneg 2 1074 ltac:(lia) ltac:(lia)).
    set (u := (2 ^ 1074)%Z) in *. clearbody u. nia. }
  fold cap_number in Hle.
  rewrite SFltb_scaled in G by (reflexivity || assumption || exact I).
  apply Z.ltb_lt in G. lia.
Qed.

(** The step the cap installs is at least the step it replaces. *)
Lemma capped_step_ge (T dt : float) :
  positive_real T = true -> positive_real dt = true ->
  JS.gtb (T / dt) MAX_STEPS = true ->
  (sc dt <= sc (T / MAX_STEPS))%Z.
Proof.
  intros HT Hdt G.
  pose proof (cap_fires_exact T dt HT Hdt G) as Hex.
  destruct (positive_real_fnn T HT) as (mx & ex & ET).
  pose proof (Prim2SF_valid T) as VT. pose proof (Prim2SF_valid dt) as VD.
  unfold sc in *. rewrite div_spec. rewrite ET in *.
  change (Prim2SF MAX_STEPS) with cap_number.
  destruct (SFdiv_between mx 5497558138880000 ex (-38) (Prim2SF dt)
              mx ex VT eq_refl VD VT) as (_ & Hlo & _); [|exact Hlo].
  fold cap_number. rewrite cap_scaled.
  pose proof (scaled_pos _ _ _ VT).
  pose proof (Z.pow_pos_nonneg 2 1074 ltac:(lia) ltac:(lia)).
  set (u := (2 ^ 1074)%Z) in *. clearbody u. nia.
Qed.

(** Property X3. The step cap of [readParams] only ever enlarges the step: the
    step it returns is at least the step the guardrails accepted, it is that
    step or the horizon divided by 20000, and the other five fields are what the
    guardrails made of them. The cap fires only when the horizon is more than
    20000 of the accepted steps long, in exact arithmetic. *)
Theorem cap_never_shrinks_step (raw : Params) :
  (dt_min (guardrails raw) <=? dt_min (readParams raw)) = true
  /\ (dt_min (readParams raw) = dt_min (guardrails raw)
      \/ dt_min (readParams raw) = t_end_min (guardrails raw) / MAX_STEPS)
  /\ (dt_min (readParams raw) <> dt_min (guardrails raw) ->
      (20000 * sc (dt_min (guardrails raw))
       < sc (t_end_min (guardrails raw)))%Z)
  /\ set_dt (readParams raw) (dt_min (guardrails raw)) = guardrails raw.
Proof.
  pose proof (guardrails_ok raw) as Hp.
  unfold readParams, readParams_ui, cap_steps.
  set (p := guardrails raw) in *.
  destruct (normalized_fields p Hp) as (_ & _ & _ & _ & HT & Hdt).
  pose proof (positive_real_F_fnn _ Hdt) as Hdtf.
  destruct (JS.gtb (t_end_min p / dt_min p) MAX_STEPS) eqn:G;
    cbn [fst set_dt weight bolus_mg infusion_mg_min infusion_duration_min
         t_end_min dt_min].
  - pose proof (capped_step_positive _ _ HT Hdt G) as Hc.
    split; [|split; [right; reflexivity|split]].
    + rewrite F_fnn_leb by (assumption || now apply positive_real_F_fnn).
      apply Z.leb_le. now apply capped_step_ge.
    + intros _. now apply cap_fires_exact.
    + destruct p; reflexivity.
  - split; [|split; [left; reflexivity|split]].
    + apply leb_refl. now apply F_nn_not_nan, F_fnn_nn.
    + congruence.
    + destruct p; reflexivity.
Qed.

(** *** The number of passes under the cap *)

(** [40000] in the format: [5497558138880000 * 2^-37]. *)
Lemma twice_cap_scaled :
  scaled (S754_finite false 5497558138880000 (-37)) = (40000 * 2 ^ 1074)%Z.
Proof. reflexivity. Qed.

(** The horizon is less than 40000 times the step the cap installs. *)
Lemma capped_step_half (T : float) :
  positive_real T = true -> positive_real (T / MAX_STEPS) = true ->
  (sc T < 40000 * sc (T / MAX_STEPS))%Z.
Proof.
  intros HT Hc.
  destruct (positive_real_fnn T HT) as (mx & ex & ET).
  pose proof (Prim2SF_valid T) as VT.
  pose proof (positive_real_sc _ Hc) as Hpos.
  unfold sc in *. rewrite div_spec in *. rewrite ET in *.
  change (Prim2SF MAX_STEPS) with cap_number in *.
  pose proof (scaled_pos _ _ _ VT) as PT.
  pose proof (Z.pow_pos_nonneg 2 1074 ltac:(lia) ltac:(lia)) as P.
  pose proof (SFdiv_above_half mx 5497558138880000 ex (-38) mx ex
                VT eq_refl VT) as H.
  fold cap_number in H. rewrite cap_scaled in H. cbv zeta in H.
  set (u := (2 ^ 1074)%Z) in *. clearbody u.
  specialize (H ltac:(nia) Hpos). nia.
Qed.

(** With the cap, the quotient [t_end / dt] is at most [40000]. *)
Lemma steps_capped_le (T : float) :
  positive_real T = true -> positive_real (T / MAX_STEPS) = true ->
  finite_nonneg (Prim2SF (T / (T / MAX_STEPS)))
  /\ (sc (T / (T / MAX_STEPS)) <= 40000 * 2 ^ 1074)%Z.
Proof.
  intros HT Hc.
  pose proof (capped_step_half T HT Hc) as Hh.
  destruct (positive_real_fnn T HT) as (mx & ex & ET).
  destruct (positive_real_fnn _ Hc) as (my & ey & ED).
  pose proof (Prim2SF_valid T) as VT.
  pose proof (Prim2SF_valid (T / MAX_STEPS)) as VD.
  unfold sc in *. rewrite (div_spec T (T / MAX_STEPS)).
  rewrite ED in *. rewrite ET in *.
  rewrite <- twice_cap_scaled.
  destruct (SFdiv_between mx my ex ey (S754_zero false)
              5497558138880000 (-37) VT VD eq_refl eq_refl)
    as (Hf & _ & Hle); [|split; assumption].
  rewrite twice_cap_scaled. change (scaled (S754_zero false)) with 0%Z.
  pose proof (scaled_pos _ _ _ VT). pose proof (scaled_pos _ _ _ VD).
  pose proof (Z.pow_pos_nonneg 2 1074 ltac:(lia) ltac:(lia)).
  set (u := (2 ^ 1074)%Z) in *. clearbody u. nia.
Qed.

(** Every parameter set [readParams] returns stops the loop counter of
    [solveRK4] at [40000] at the latest. *)
Lemma readParams_counter_bound_cap (raw : Params) :
  counter_bound (readParams raw) 40000.
Proof.
  unfold readParams, readParams_ui.
  pose proof (guardrails_ok raw) as Hp.
  set (p := guardrails raw) in *.
  destruct (normalized_fields p Hp) as (_ & _ & _ & _ & HT & Hdt).
  unfold cap_steps.
  destruct (JS.gtb (t_end_min p / dt_min p) MAX_STEPS) eqn:G; cbn [fst].
  - pose proof (capped_step_positive _ _ HT Hdt G) as Hc.
    destruct (steps_capped_le _ HT Hc) as [Hf Hle].
    destruct (counter_limit_ceil_le _ 40000 Hf ltac:(lia) Hle)
      as (n & E & Hn' & _).
    unfold counter_bound, nSteps. cbn [set_dt t_end_min dt_min].
    rewrite E. split; [lia|]. apply Z.ltb_ge. lia.
  - destruct (uncapped_counter_bound p Hp G) as [_ Hb].
    split; [lia|]. eapply below_mono; [|exact Hb]. lia.
Qed.

(** *** NaN and numbers that are not negative *)

Lemma is_nan_true (x : float) : is_nan x = true <-> Prim2SF x = S754_nan.
Proof.
  split.
  - intros H. destruct (Prim2SF x) eqn:E; try reflexivity;
      rewrite not_nan_is_nan in H by (rewrite E; discriminate);
      discriminate.
  - intros E. unfold is_nan. rewrite FloatAxioms.eqb_spec, E. reflexivity.
Qed.

Lemma not_negative_spec (x : float) :
  not_negative x <-> nan_or_nonneg (Prim2SF x).
Proof.
  unfold not_negative. rewrite is_nan_true.
  rewrite FloatAxioms.ltb_spec, FloatAxioms.leb_spec.
  change (Prim2SF 0) with (S754_zero false).
  destruct (Prim2SF x) as [[|]|[|]| |[|] m e]; cbn; split;
    try tauto; try (intros [H _]; discriminate);
    try (intros _; split; [reflexivity | right; reflexivity]);
    try (intros _; split; [reflexivity | left; reflexivity]).
Qed.

Lemma nan_not_negative (x : float) : is_nan x = true -> not_negative x.
Proof.
  intros H. apply not_negative_spec. apply is_nan_true in H. rewrite H.
  exact I.
Qed.

Lemma not_negative_add (a b : float) :
  not_negative a -> not_negative b -> not_negative (a + b).
Proof.
  rewrite !not_negative_spec, add_spec. apply SFadd_nan_or_nonneg.
Qed.

Lemma not_negative_mul (a b : float) :
  not_negative a -> not_negative b -> not_negative (a * b).
Proof.
  rewrite !not_negative_spec, mul_spec. apply SFmul_nan_or_nonneg.
Qed.

Lemma not_negative_div (a b : float) :
  not_negative a -> F_nn b -> not_negative (a / b).
Proof.
  rewrite !not_negative_spec, div_spec. apply SFdiv_nan_or_nonneg.
Qed.

Lemma not_negative_number (x : float) :
  not_negative x -> is_nan x = false -> (0 <=? x) = true.
Proof. intros [_ [H|H]] Hn; congruence. Qed.

Lemma SFlt_le_trans (a b c : spec_float) :
  SFltb a b = true -> SFleb b c = true -> SFltb a c = true.
Proof.
  unfold SFleb, SFltb. sf_cases a; sf_cases b; sf_cases c; intros H1 H2;
    order_cases.
Qed.

Lemma nonneg_above_neg_inf (x : float) :
  (0 <=? x) = true -> (neg_infinity <? x) = true.
Proof.
  rewrite FloatAxioms.ltb_spec, FloatAxioms.leb_spec.
  apply SFlt_le_trans. reflexivity.
Qed.

Lemma nan_add_l (a b : float) : is_nan a = true -> is_nan (a + b) = true.
Proof.
  rewrite !is_nan_true, add_spec. intros ->. reflexivity.
Qed.

Lemma nan_add_r (a b : float) : is_nan b = true -> is_nan (a + b) = true.
Proof.
  rewrite !is_nan_true, add_spec. intros ->.
  destruct (Prim2SF a); reflexivity.
Qed.

Lemma nan_sub_l (a b : float) : is_nan a = true -> is_nan (a - b) = true.
Proof.
  rewrite !is_nan_true, sub_spec. intros ->. reflexivity.
Qed.

Lemma nan_sub_r (a b : float) : is_nan b = true -> is_nan (a - b) = true.
Proof.
  rewrite !is_nan_true, sub_spec. intros ->.
  destruct (Prim2SF a); reflexivity.
Qed.

Lemma nan_mul_r (a b : float) : is_nan b = true -> is_nan (a * b) = true.
Proof.
  rewrite !is_nan_true, mul_spec. intros ->.
  destruct (Prim2SF a); reflexivity.
Qed.

Lemma nan_div_l (a b : float) : is_nan a = true -> is_nan (a / b) = true.
Proof.
  rewrite !is_nan_true, div_spec. intros ->. reflexivity.
Qed.

Lemma Math_max_0_nan (a : float) :
  is_nan a = true -> is_nan (JS.Math_max 0 a) = true.
Proof.
  intros H. unfold JS.Math_max. rewrite H, orb_true_r. reflexivity.
Qed.

(** *** Entries of the sequences of a trace *)

Lemma at_index_map (f : State -> float) (l : list State) (i : nat)
    (d : State) :
  (i < List.length l)%nat -> at_index (map f l) i = f (nth i l d).
Proof.
  intros Hi. unfold at_index.
  rewrite (nth_indep _ nan (f d)) by (rewrite length_map; exact Hi).
  apply map_nth.
Qed.

Lemma at_index_past (a : list float) (i : nat) :
  (List.length a <= i)%nat -> at_index a i = nan.
Proof. intros H. unfold at_index. now apply nth_overflow. Qed.

(** *** Concentrations are never negative *)

Lemma states_masses_not_negative (p : Params) (fuel : nat) (l : list State) :
  normalized p -> states_fuel fuel p = Some l ->
  Forall masses_not_negative l.
Proof.
  intros Hn Hl. eapply states_fuel_Forall; [| |exact Hl].
  - intros s _ _. apply rk4_step_not_negative.
  - destruct (normalized_fields p Hn) as (_ & Hb & _).
    unfold nonneg_real in Hb. apply andb_true_iff in Hb as [_ Hb].
    split; [apply nonneg_not_negative; exact Hb|].
    split; apply nonneg_not_negative; reflexivity.
Qed.

Lemma concentrations_not_negative (p : Params) (fuel : nat) (sol : Sol) :
  normalized p -> solveRK4_fuel fuel p = Some sol ->
  Forall not_negative (sol_C1 sol).
Proof.
  intros Hn Hsol.
  destruct (solveRK4_fuel_states _ _ _ Hsol) as (l & Hl & ->).
  destruct (normalized_fields p Hn) as (Hw & _).
  cbn [sol_C1 sol_of_states]. rewrite !Forall_map.
  eapply Forall_impl; [|exact (states_masses_not_negative p fuel l Hn Hl)].
  intros s Hs. apply not_negative_div; [apply Hs | now apply V1_nn].
Qed.

Lemma at_index_not_negative (a : list float) (i : nat) :
  Forall not_negative a -> not_negative (at_index a i).
Proof.
  intros H. destruct (Nat.lt_ge_cases i (List.length a)) as [Hi|Hi].
  - now apply Forall_at_index.
  - rewrite at_index_past by exact Hi. now apply nan_not_negative.
Qed.

(** *** The area under the curve *)

Lemma F_fnn_diff (a b : float) :
  F_fnn a -> F_fnn b -> (a <=? b) = true -> not_negative (b - a).
Proof.
  intros Ha Hb Hle. rewrite F_fnn_leb in Hle by assumption.
  apply Z.leb_le in Hle. apply not_negative_spec. rewrite sub_spec.
  apply signed_nan_or_nonneg, finite_nonneg_signed.
  apply SFsub_le; auto using Prim2SF_valid.
Qed.

(** The time between two samples of a trace is not negative. *)
Lemma time_steps_not_negative (p : Params) (fuel : nat) (sol : Sol) :
  normalized p -> solveRK4_fuel fuel p = Some sol ->
  forall j, not_negative (at_index (sol_t sol) (S j) - at_index (sol_t sol) j).
Proof.
  intros Hn Hsol j.
  destruct (solveRK4_fuel_states _ _ _ Hsol) as (l & Hl & ->).
  cbn [sol_t sol_of_states].
  destruct (Nat.lt_ge_cases (S j) (List.length (map st_t l))) as [Hj|Hj].
  - pose proof (states_times_le p fuel l Hn Hl) as Hc.
    pose proof (chain_nth _ _ nan Hc j Hj) as Hle.
    assert (HF : Forall F_fnn (map st_t l)).
    { rewrite Forall_map.
      eapply Forall_impl; [|exact (states_time_inv p fuel l Hn Hl)].
      intros s Hs. apply Hs. }
    apply F_fnn_diff; try exact Hle; apply Forall_at_index; auto; lia.
  - rewrite (at_index_past _ (S j)) by exact Hj.
    apply nan_not_negative, nan_sub_l. reflexivity.
Qed.

Lemma metrics_body_auc (sol : Sol) (i : nat) (m : Metrics) :
  Forall not_negative (sol_C1 sol) ->
  (forall j, not_negative (at_index (sol_t sol) (S j)
                           - at_index (sol_t sol) j)) ->
  not_negative (auc m) -> not_negative (auc (metrics_body sol i m)).
Proof.
  intros HC HT Ha. unfold metrics_body.
  destruct (if JS.gtb _ _ then _ else _) as [cm tm]. cbn [auc].
  destruct i as [|j]; [exact Ha|].
  apply not_negative_add; [exact Ha|].
  apply not_negative_mul; [|apply HT].
  apply not_negative_mul.
  - apply not_negative_spec. exact I.
  - apply not_negative_add; now apply at_index_not_negative.
Qed.

Lemma metrics_loop_auc (sol : Sol) :
  Forall not_negative (sol_C1 sol) ->
  (forall j, not_negative (at_index (sol_t sol) (S j)
                           - at_index (sol_t sol) j)) ->
  forall n i m,
    not_negative (auc m) -> not_negative (auc (metrics_loop sol n i m)).
Proof.
  intros HC HT. induction n as [|n IH]; intros i m Ha; simpl; [exact Ha|].
  apply IH. now apply metrics_body_auc.
Qed.

(** *** The peak *)

Lemma metrics_body_peak (sol : Sol) (i : nat) (m : Metrics) :
  Forall not_negative (sol_C1 sol) ->
  peak_found sol i m -> peak_found sol (S i) (metrics_body sol i m).
Proof.
  intros HC Hinv.
  pose proof (at_index_not_negative _ i HC) as Hc.
  unfold metrics_body, JS.gtb.
  destruct (cmax m <? at_index (sol_C1 sol) i) eqn:E.
  - right. exists i. cbn [cmax tmax]. split; [lia|].
    split; [reflexivity|]. split; [reflexivity|].
    apply not_negative_number; [exact Hc|]. eapply ltb_not_nan_r; eauto.
  - destruct Hinv as [(Hm & Ht & Hall)|(k & Hk & Hm & Ht & H0)].
    + left. cbn [cmax tmax]. split; [exact Hm|]. split; [exact Ht|].
      intros j Hj. destruct (Nat.eq_dec j i) as [->|Hne]; [|apply Hall; lia].
      destruct (is_nan (at_index (sol_C1 sol) i)) eqn:Hnan; [reflexivity|].
      rewrite Hm in E.
      rewrite (nonneg_above_neg_inf _ (not_negative_number _ Hc Hnan)) in E.
      discriminate.
    + right. exists k. cbn [cmax tmax]. split; [lia|]. auto.
Qed.

Lemma metrics_loop_peak_found (sol : Sol) :
  Forall not_negative (sol_C1 sol) ->
  forall n i m,
    peak_found sol i m -> peak_found sol (i + n) (metrics_loop sol n i m).
Proof.
  intros HC. induction n as [|n IH]; intros i m Hinv; simpl.
  - now rewrite Nat.add_0_r.
  - replace (i + S n)%nat with (S i + n)%nat by lia.
    apply IH. now apply metrics_body_peak.
Qed.

Lemma computeMetrics_peak_found (sol : Sol) :
  Forall not_negative (sol_C1 sol) ->
  peak_found sol (List.length (sol_C1 sol)) (computeMetrics sol).
Proof.
  intros HC. unfold computeMetrics.
  apply (metrics_loop_peak_found sol HC (List.length (sol_C1 sol)) 0).
  left. cbn [cmax tmax]. split; [reflexivity|]. split; [reflexivity|].
  intros j Hj. lia.
Qed.

Lemma within_horizon_0 (p : Params) :
  positive_real (t_end_min p) = true -> within_horizon p 0.
Proof.
  intros HT. apply time_inv_within; [exact HT|].
  apply (init_time_inv p).
Qed.

Lemma trace_times_within (p : Params) (fuel : nat) (sol : Sol) :
  normalized p -> solveRK4_fuel fuel p = Some sol ->
  Forall (within_horizon p) (sol_t sol).
Proof.
  intros Hn Hsol.
  destruct (solveRK4_fuel_states _ _ _ Hsol) as (l & Hl & ->).
  destruct (normalized_fields p Hn) as (_ & _ & _ & _ & HT & _).
  cbn [sol_t sol_of_states]. rewrite Forall_map.
  eapply Forall_impl; [|exact (states_time_inv p fuel l Hn Hl)].
  intros s Hs. now apply time_inv_within.
Qed.

(** *** The shape of a trace *)

(** Property X5. A trace of [solveRK4] is never empty: its first point is the
    initial condition (time 0, the bolus in A1, nothing in A2 and A3, the
    concentration [bolus / V1]), its five sequences have the same length, and it
    holds at most [n + 1] points when the loop counter stops at [n]. *)
Theorem trace_shape (p : Params) (fuel : nat) (sol : Sol) :
  solveRK4_fuel fuel p = Some sol ->
  (exists ts a1 a2 a3 c1,
      sol = {| sol_t := 0 :: ts; sol_A1 := bolus_mg p :: a1;
               sol_A2 := 0 :: a2; sol_A3 := 0 :: a3;
               sol_C1 := bolus_mg p / V1 p :: c1 |})
  /\ (List.length (sol_A1 sol) = List.length (sol_t sol)
      /\ List.length (sol_A2 sol) = List.length (sol_t sol)
      /\ List.length (sol_A3 sol) = List.length (sol_t sol)
      /\ List.length (sol_C1 sol) = List.length (sol_t sol))
  /\ (forall n, counter_bound p n ->
                (Z.of_nat (List.length (sol_t sol)) <= n + 1)%Z).
Proof.
  intros Hsol. split; [|split; [exact (solveRK4_lengths _ _ _ Hsol)|]].
  - destruct (solveRK4_fuel_states _ _ _ Hsol) as (l & Hl & ->).
    destruct (states_fuel_head _ _ _ Hl) as [l' ->].
    unfold sol_of_states. cbn [map init_state st_t st_A1 st_A2 st_A3].
    eauto 6.
  - intros n Hb.
    destruct (solveRK4_fuel_states _ _ _ Hsol) as (l & Hl & ->).
    cbn [sol_t sol_of_states]. rewrite length_map.
    now apply (states_fuel_length fuel p).
Qed.

Lemma trace_shape_witness :
  exists sol ts,
    solveRK4_fuel 3 (readParams raw_infusion) = Some sol
    /\ sol_t sol = 0 :: ts
    /\ (Z.of_nat (List.length (sol_t sol)) <= 2 + 1)%Z.
Proof.
  assert (Hb : counter_bound (readParams raw_infusion) 2)
    by (split; [lia | vm_compute; reflexivity]).
  destruct (solveRK4_terminates _ _ Hb) as [sol Hsol].
  destruct (trace_shape _ _ _ Hsol)
    as ((ts & a1 & a2 & a3 & c1 & E) & _ & Hlen).
  exists sol, ts. split; [exact Hsol|].
  split; [rewrite E; reflexivity | exact (Hlen _ Hb)].
Defined.

(** Property X6. On the parameters [readParams] returns, whatever the six fields
    hold, a trace has at most 40001 points, and at most 20001 when the step cap
    did not fire: a request of at most 20000 steps is never exceeded, and the
    cap holds the run within twice its bound. *)
Theorem trace_length_bounded (raw : Params) (fuel : nat) (sol : Sol) :
  solveRK4_fuel fuel (readParams raw) = Some sol ->
  (Z.of_nat (List.length (sol_t sol)) <= 40001)%Z
  /\ (JS.gtb (t_end_min (guardrails raw) / dt_min (guardrails raw)) MAX_STEPS
      = false ->
      (Z.of_nat (List.length (sol_t sol)) <= 20001)%Z).
Proof.
  intros Hsol.
  destruct (solveRK4_fuel_states _ _ _ Hsol) as (l & Hl & ->).
  cbn [sol_t sol_of_states]. rewrite length_map. split.
  - change 40001%Z with (40000 + 1)%Z.
    apply (states_fuel_length fuel (readParams raw)); [|exact Hl].
    apply readParams_counter_bound_cap.
  - intros G. rewrite (readParams_uncapped raw G) in Hl.
    change 20001%Z with (20000 + 1)%Z.
    apply (states_fuel_length fuel (guardrails raw)); [|exact Hl].
    apply uncapped_counter_bound; [apply guardrails_ok | exact G].
Qed.

Lemma trace_length_bounded_witness :
  exists sol,
    solveRK4_fuel 3 (readParams raw_infusion) = Some sol
    /\ (Z.of_nat (List.length (sol_t sol)) <= 20001)%Z.
Proof.
  assert (Hb : counter_bound (readParams raw_infusion) 2)
    by (split; [lia | vm_compute; reflexivity]).
  destruct (solveRK4_terminates _ _ Hb) as [sol Hsol].
  exists sol. split; [exact Hsol|].
  apply (trace_length_bounded raw_infusion 3 sol Hsol). reflexivity.
Defined.

(** *** Time stamps in order *)

Lemma ltb_trans (a b c : float) :
  (a <? b) = true -> (b <? c) = true -> (a <? c) = true.
Proof. intros H1 H2. eapply leb_ltb_trans; [apply ltb_leb|]; eauto. Qed.

(** Property X7. For a normalized parameter set the time stamps of a trace never
    decrease: a later point of the trace is not earlier in time. *)
Theorem time_stamps_never_decrease (p : Params) (fuel : nat) (sol : Sol) :
  normalized p -> solveRK4_fuel fuel p = Some sol ->
  forall i j, (i < j)%nat -> (j < List.length (sol_t sol))%nat ->
              (at_index (sol_t sol) i <=? at_index (sol_t sol) j) = true.
Proof.
  intros Hn Hsol i j.
  destruct (solveRK4_fuel_states _ _ _ Hsol) as (l & Hl & ->).
  cbn [sol_t sol_of_states]. unfold at_index.
  apply (chain_nth_later (fun a b => (a <=? b) = true)).
  - exact leb_trans.
  - now apply (states_times_le p fuel).
Qed.

Lemma time_stamps_never_decrease_witness :
  normalized (readParams raw_infusion)
  /\ exists sol,
       solveRK4_fuel 3 (readParams raw_infusion) = Some sol
       /\ (at_index (sol_t sol) 0 <=? at_index (sol_t sol) 2) = true.
Proof.
  assert (Hn : normalized (readParams raw_infusion))
    by (vm_compute; reflexivity).
  split; [exact Hn|]. eexists. split; [vm_compute; reflexivity|].
  apply (time_stamps_never_decrease (readParams raw_infusion) 3 _ Hn);
    [vm_compute; reflexivity | lia | simpl; lia].
Defined.

(** Property X8. On the parameters [readParams] returns, whatever the six fields
    hold, the time stamps of a trace strictly increase: the step is never so
    small against the horizon that adding it leaves the time unchanged, so no
    two points of a trace share a time. *)
Theorem time_stamps_increase (raw : Params) (fuel : nat) (sol : Sol) :
  solveRK4_fuel fuel (readParams raw) = Some sol ->
  forall i j, (i < j)%nat -> (j < List.length (sol_t sol))%nat ->
              (at_index (sol_t sol) i <? at_index (sol_t sol) j) = true.
Proof.
  intros Hsol i j.
  destruct (solveRK4_fuel_states _ _ _ Hsol) as (l & Hl & ->).
  cbn [sol_t sol_of_states]. unfold at_index.
  apply (chain_nth_later (fun a b => (a <? b) = true)).
  - exact ltb_trans.
  - apply (states_times_lt (readParams raw) fuel); [| |exact Hl].
    + apply readParams_ok.
    + apply readParams_step_resolved.
Qed.

Lemma time_stamps_increase_witness :
  exists sol,
    solveRK4_fuel 3 (readParams raw_infusion) = Some sol
    /\ (at_index (sol_t sol) 1 <? at_index (sol_t sol) 2) = true.
Proof.
  eexists. split; [vm_compute; reflexivity|].
  apply (time_stamps_increase raw_infusion 3);
    [vm_compute; reflexivity | lia | simpl; lia].
Defined.

(** *** Runs of no pass and of one pass *)

Lemma nSteps_zero (p : Params) :
  is_zero (t_end_min p / dt_min p) = true ->
  JS.counter_limit (nSteps p) = Some 0%Z.
Proof.
  intros H. apply (proj1 (zero_valued_F_zero _)) in H. destruct H as [s E].
  unfold nSteps, JS.Math_ceil. rewrite E. unfold JS.counter_limit.
  rewrite E. reflexivity.
Qed.

(** Property X9. When the quotient [t_end / dt] is rounded to zero (a horizon
    that small against the step) the loop of [solveRK4] makes no pass: the trace
    is the initial point alone, its only time stamp is 0 and not the horizon,
    and [computeMetrics] reports [tmax = 0] and [auc = 0]. *)
Theorem zero_pass_run (p : Params) (fuel : nat) :
  is_zero (t_end_min p / dt_min p) = true ->
  let sol := {| sol_t := [0]; sol_A1 := [bolus_mg p]; sol_A2 := [0];
                sol_A3 := [0]; sol_C1 := [bolus_mg p / V1 p] |} in
  solveRK4_fuel (S fuel) p = Some sol
  /\ tmax (computeMetrics sol) = 0
  /\ auc (computeMetrics sol) = 0.
Proof.
  intros H sol. split.
  - unfold solveRK4_fuel, states_fuel. rewrite (nSteps_zero p H).
    reflexivity.
  - unfold computeMetrics, sol.
    cbn [sol_C1 List.length metrics_loop]. unfold metrics_body.
    cbn [sol_C1 sol_t at_index nth cmax tmax auc].
    destruct (JS.gtb _ _); split; reflexivity.
Qed.

Lemma zero_pass_run_witness :
  normalized (readParams raw_tiny_horizon)
  /\ is_zero (t_end_min (readParams raw_tiny_horizon)
              / dt_min (readParams raw_tiny_horizon)) = true
  /\ exists sol,
       solveRK4_fuel 5 (readParams raw_tiny_horizon) = Some sol
       /\ sol_t sol = [0]
       /\ auc (computeMetrics sol) = 0.
Proof.
  assert (H : is_zero (t_end_min (readParams raw_tiny_horizon)
                       / dt_min (readParams raw_tiny_horizon)) = true)
    by (vm_compute; reflexivity).
  split; [vm_compute; reflexivity|]. split; [exact H|].
  destruct (zero_pass_run (readParams raw_tiny_horizon) 4 H) as (H1 & _ & H3).
  eexists. split; [exact H1|]. split; [reflexivity | exact H3].
Defined.

Lemma nSteps_one (p : Params) :
  normalized p ->
  (t_end_min p <=? dt_min p) = true ->
  is_zero (t_end_min p / dt_min p) = false ->
  JS.counter_limit (nSteps p) = Some 1%Z.
Proof.
  intros Hn Hle Hz.
  destruct (normalized_fields p Hn) as (_ & _ & _ & _ & HT & Hdt).
  rewrite F_fnn_leb in Hle by now apply positive_real_F_fnn.
  apply Z.leb_le in Hle.
  destruct (positive_real_fnn _ HT) as (mx & ex & ET).
  destruct (positive_real_fnn _ Hdt) as (my & ey & ED).
  pose proof (Prim2SF_valid (t_end_min p)) as VT.
  pose proof (Prim2SF_valid (dt_min p)) as VD.
  pose proof (Prim2SF_valid (t_end_min p / dt_min p)) as VQ.
  assert (Hq : finite_nonneg (Prim2SF (t_end_min p / dt_min p))
               /\ (sc (t_end_min p / dt_min p) <= 1 * 2 ^ 1074)%Z).
  { unfold sc in *. rewrite div_spec in *. rewrite ET, ED in *.
    rewrite Z.mul_1_l. now apply SFdiv_le_one. }
  destruct Hq as [Hf Hq].
  destruct (counter_limit_ceil_le _ 1 Hf ltac:(lia) Hq) as (n & E & Hn1 & Hn2).
  unfold nSteps. rewrite E. f_equal.
  assert (0 < sc (t_end_min p / dt_min p))%Z; [|lia].
  unfold sc.
  destruct (Prim2SF (t_end_min p / dt_min p)) as [[|]|[|]| |[|] m e] eqn:EQ;
    try contradiction.
  - exfalso.
    assert (Hz' : zero_valued (t_end_min p / dt_min p)).
    { apply zero_valued_F_zero. exists false. exact EQ. }
    unfold zero_valued in Hz'. congruence.
  - now apply scaled_pos.
Qed.

Lemma sub_zero_r (x : float) : positive_real x = true -> x - 0 = x.
Proof.
  intros H. destruct (positive_real_fnn x H) as (m & e & E).
  apply Prim2SF_inj. rewrite sub_spec, E. reflexivity.
Qed.

Lemma add_zero_l (x : float) : positive_real x = true -> 0 + x = x.
Proof.
  intros H. destruct (positive_real_fnn x H) as (m & e & E).
  apply Prim2SF_inj. rewrite add_spec, E. reflexivity.
Qed.

Lemma first_step_whole (p : Params) :
  normalized p -> (t_end_min p <=? dt_min p) = true ->
  st_t (rk4_step (init_state p) p) = t_end_min p.
Proof.
  intros Hn Hle.
  destruct (normalized_fields p Hn) as (_ & _ & _ & _ & HT & Hdt).
  pose proof (positive_real_F_fnn _ HT) as HTf.
  pose proof (positive_real_F_fnn _ Hdt) as Hdtf.
  rewrite rk4_step_time. unfold step_size, init_state. cbn [st_t].
  rewrite (sub_zero_r _ HT).
  assert (E : JS.Math_min (dt_min p) (t_end_min p) = t_end_min p).
  { destruct (Math_min_cases (dt_min p) (t_end_min p))
      as [[-> H]|[-> _]]; auto using F_nn_not_nan, F_fnn_nn.
    rewrite F_fnn_leb in H, Hle by assumption.
    apply Z.leb_le in H, Hle. apply sc_inj; auto. lia. }
  rewrite E. now apply add_zero_l.
Qed.

(** Property X10. For a normalized parameter set whose step is at least the
    horizon (the quotient [t_end / dt] not being rounded to zero), the loop of
    [solveRK4] makes exactly one pass, over the whole horizon: the trace has two
    points, at time 0 and at the horizon itself. *)
Theorem single_step_run (p : Params) (fuel : nat) :
  normalized p ->
  (t_end_min p <=? dt_min p) = true ->
  is_zero (t_end_min p / dt_min p) = false ->
  exists sol,
    solveRK4_fuel (S (S fuel)) p = Some sol
    /\ sol_t sol = [0; t_end_min p]
    /\ List.length (sol_C1 sol) = 2%nat.
Proof.
  intros Hn Hle Hz.
  destruct (normalized_fields p Hn) as (_ & _ & _ & _ & HT & _).
  exists (sol_of_states p [init_state p; rk4_step (init_state p) p]).
  split; [|split; [|reflexivity]].
  - unfold solveRK4_fuel, states_fuel. rewrite (nSteps_one p Hn Hle Hz).
    cbn [rk4_loop JS.below]. change (0 <? 1)%Z with true. cbv iota.
    assert (G : JS.geb (st_t (init_state p)) (t_end_min p) = false).
    { unfold JS.geb, init_state. cbn [st_t]. apply ltb_leb_false.
      unfold positive_real in HT. now apply andb_true_iff in HT as [_ HT]. }
    rewrite G. reflexivity.
  - cbn [sol_t sol_of_states map]. rewrite (first_step_whole p Hn Hle).
    reflexivity.
Qed.

Lemma single_step_run_witness :
  normalized (readParams raw_long_step)
  /\ exists sol,
       solveRK4_fuel 2 (readParams raw_long_step) = Some sol
       /\ sol_t sol = [0; 1].
Proof.
  assert (Hn : normalized (readParams raw_long_step))
    by (vm_compute; reflexivity).
  split; [exact Hn|].
  destruct (single_step_run (readParams raw_long_step) 0 Hn)
    as (sol & H1 & H2 & _); [reflexivity | reflexivity |].
  exists sol. split; [exact H1 | exact H2].
Defined.

(** *** A mass that is NaN *)

Lemma deriv_nan (t A1 A2 A3 : float) (p : Params) :
  is_nan A1 = true \/ is_nan A2 = true \/ is_nan A3 = true ->
  is_nan (fst (fst (deriv t A1 A2 A3 p))) = true.
Proof.
  unfold deriv. cbn [fst]. intros [H|[H|H]].
  - apply nan_sub_r, nan_mul_r, H.
  - apply nan_sub_l, nan_add_l, nan_add_r, nan_mul_r, H.
  - apply nan_sub_l, nan_add_r, nan_mul_r, H.
Qed.

Lemma deriv_nan_A1 (t A1 A2 A3 : float) (p : Params) :
  is_nan A1 = true ->
  is_nan (fst (fst (deriv t A1 A2 A3 p))) = true
  /\ is_nan (snd (fst (deriv t A1 A2 A3 p))) = true
  /\ is_nan (snd (deriv t A1 A2 A3 p)) = true.
Proof.
  intros H. split; [apply deriv_nan; auto|].
  unfold deriv. cbn [fst snd].
  split; apply nan_sub_l, nan_mul_r, H.
Qed.

Lemma rk4_masses_nan (h : float) (s : State) (p : Params) :
  some_mass_nan s ->
  is_nan (fst (fst (rk4_masses h s p))) = true
  /\ is_nan (snd (fst (rk4_masses h s p))) = true
  /\ is_nan (snd (rk4_masses h s p)) = true.
Proof.
  intros Hs. unfold rk4_masses. cbv zeta.
  pose proof (deriv_nan (st_t s) (st_A1 s) (st_A2 s) (st_A3 s) p Hs) as H1.
  destruct (deriv (st_t s) (st_A1 s) (st_A2 s) (st_A3 s) p)
    as [[k1_0 k1_1] k1_2].
  cbn [fst] in H1.
  assert (HA : is_nan (st_A1 s + 0.5 * h * k1_0) = true)
    by (apply nan_add_r, nan_mul_r, H1).
  pose proof (deriv_nan_A1 (st_t s + 0.5 * h) _ (st_A2 s + 0.5 * h * k1_1)
                (st_A3 s + 0.5 * h * k1_2) p HA) as H2.
  destruct (deriv (st_t s + 0.5 * h) (st_A1 s + 0.5 * h * k1_0) _ _ p)
    as [[k2_0 k2_1] k2_2].
  cbn [fst snd] in H2. destruct H2 as (H20 & H21 & H22).
  destruct (deriv (st_t s + 0.5 * h) (st_A1 s + 0.5 * h * k2_0) _ _ p)
    as [[k3_0 k3_1] k3_2].
  destruct (deriv (st_t s + h) _ _ _ p) as [[k4_0 k4_1] k4_2].
  cbn [fst snd].
  repeat split; apply nan_add_r, nan_mul_r, nan_add_l, nan_add_l, nan_add_r,
    nan_mul_r; assumption.
Qed.

(** One pass turns a state with a NaN mass into a state whose masses are
    all NaN. *)
Lemma rk4_step_nan (s : State) (p : Params) :
  some_mass_nan s -> all_masses_nan (rk4_step s p).
Proof.
  intros Hs.
  pose proof (rk4_masses_nan (step_size s p) s p Hs) as H.
  unfold rk4_step, all_masses_nan.
  destruct (rk4_masses (step_size s p) s p) as [[a1 a2] a3].
  cbn [fst snd] in H. destruct H as (H1 & H2 & H3).
  cbn [st_A1 st_A2 st_A3]. auto using Math_max_0_nan.
Qed.

Lemma states_nan_later (p : Params) (fuel : nat) (l : list State)
    (d : State) :
  states_fuel fuel p = Some l ->
  forall i j, (i < j)%nat -> (j < List.length l)%nat ->
              some_mass_nan (nth i l d) -> all_masses_nan (nth j l d).
Proof.
  intros Hl.
  apply (chain_nth_later (fun s s' => some_mass_nan s -> all_masses_nan s')).
  - intros a b c Hab Hbc Ha. apply Hbc.
    destruct (Hab Ha) as (H & _). left. exact H.
  - apply (chain_impl (fun _ => True) (pass p)).
    + intros a b _ _ [_ ->]. apply rk4_step_nan.
    + apply Forall_forall. auto.
    + now apply (states_fuel_chain fuel).
Qed.

(** Property X11. A mass that is NaN never recovers: once one of A1, A2 and A3
    is NaN at a point of a trace, all three masses and the concentration are NaN
    at every later point. *)
Theorem nan_mass_spreads (p : Params) (fuel : nat) (sol : Sol) :
  solveRK4_fuel fuel p = Some sol ->
  forall i j, (i < j)%nat -> (j < List.length (sol_t sol))%nat ->
    is_nan (at_index (sol_A1 sol) i) = true
    \/ is_nan (at_index (sol_A2 sol) i) = true
    \/ is_nan (at_index (sol_A3 sol) i) = true ->
    is_nan (at_index (sol_A1 sol) j) = true
    /\ is_nan (at_index (sol_A2 sol) j) = true
    /\ is_nan (at_index (sol_A3 sol) j) = true
    /\ is_nan (at_index (sol_C1 sol) j) = true.
Proof.
  intros Hsol i j Hij Hj.
  destruct (solveRK4_fuel_states _ _ _ Hsol) as (l & Hl & ->).
  cbn [sol_t sol_A1 sol_A2 sol_A3 sol_C1 sol_of_states] in *.
  rewrite length_map in Hj. rewrite map_map.
  rewrite !(at_index_map _ l i (init_state p)) by lia.
  rewrite !(at_index_map _ l j (init_state p)) by lia.
  intros Hi.
  destruct (states_nan_later p fuel l (init_state p) Hl i j Hij Hj Hi)
    as (H1 & H2 & H3).
  repeat split; try assumption. now apply nan_div_l.
Qed.

Lemma nan_mass_spreads_witness :
  exists sol,
    solveRK4_fuel 3 (readParams raw_overflow) = Some sol
    /\ is_nan (at_index (sol_A1 sol) 1) = true
    /\ is_nan (at_index (sol_A3 sol) 2) = true
    /\ is_nan (at_index (sol_C1 sol) 2) = true.
Proof.
  eexists. split; [vm_compute; reflexivity|]. split; [reflexivity|].
  destruct (nan_mass_spreads (readParams raw_overflow) 3 _
              ltac:(vm_compute; reflexivity) 1%nat 2%nat)
    as (_ & _ & H3 & H4); [lia | simpl; lia | left; reflexivity |].
  split; [exact H3 | exact H4].
Defined.

(** *** Concentrations and metrics of a trace *)

(** Property X12. For a normalized parameter set every concentration of a trace
    is the mass A1 at the same index divided by [V1_per_kg * weight], and none
    is negative: every C1 is [>= 0] or NaN. *)
Theorem concentrations_never_negative (p : Params) (fuel : nat) (sol : Sol) :
  normalized p -> solveRK4_fuel fuel p = Some sol ->
  sol_C1 sol = map (fun a => a / V1 p) (sol_A1 sol)
  /\ Forall not_negative (sol_C1 sol).
Proof.
  intros Hn Hsol. split.
  - destruct (solveRK4_fuel_states _ _ _ Hsol) as (l & _ & ->). reflexivity.
  - now apply (concentrations_not_negative p fuel).
Qed.

Lemma concentrations_never_negative_witness :
  normalized (readParams raw_infusion)
  /\ exists sol,
       solveRK4_fuel 3 (readParams raw_infusion) = Some sol
       /\ Forall not_negative (sol_C1 sol).
Proof.
  assert (Hn : normalized (readParams raw_infusion))
    by (vm_compute; reflexivity).
  assert (Hb : counter_bound (readParams raw_infusion) 2)
    by (split; [lia | vm_compute; reflexivity]).
  split; [exact Hn|].
  destruct (solveRK4_terminates _ _ Hb) as [sol Hsol].
  exists sol. split; [exact Hsol|].
  exact (proj2 (concentrations_never_negative _ _ _ Hn Hsol)).
Defined.

(** Property X13. For a normalized parameter set the area under the curve that
    [computeMetrics] accumulates over a trace is never negative: it is [>= 0] or
    NaN, every trapezoid being the product of a sum of concentrations and of a
    time difference that are not negative. *)
Theorem auc_never_negative (p : Params) (fuel : nat) (sol : Sol) :
  normalized p -> solveRK4_fuel fuel p = Some sol ->
  not_negative (auc (computeMetrics sol)).
Proof.
  intros Hn Hsol. unfold computeMetrics. apply metrics_loop_auc.
  - now apply (concentrations_not_negative p fuel).
  - now apply (time_steps_not_negative p fuel).
  - apply nonneg_not_negative. reflexivity.
Qed.

Lemma auc_never_negative_witness :
  normalized (readParams raw_infusion)
  /\ exists sol,
       solveRK4_fuel 3 (readParams raw_infusion) = Some sol
       /\ not_negative (auc (computeMetrics sol)).
Proof.
  assert (Hn : normalized (readParams raw_infusion))
    by (vm_compute; reflexivity).
  assert (Hb : counter_bound (readParams raw_infusion) 2)
    by (split; [lia | vm_compute; reflexivity]).
  split; [exact Hn|].
  destruct (solveRK4_terminates _ _ Hb) as [sol Hsol].
  exists sol. split; [exact Hsol|].
  exact (auc_never_negative _ _ _ Hn Hsol).
Defined.

(** Property X14. For a normalized parameter set the time of the peak that
    [computeMetrics] reports lies between 0 and the horizon, both included. *)
Theorem tmax_within_horizon (p : Params) (fuel : nat) (sol : Sol) :
  normalized p -> solveRK4_fuel fuel p = Some sol ->
  within_horizon p (tmax (computeMetrics sol)).
Proof.
  intros Hn Hsol.
  destruct (normalized_fields p Hn) as (_ & _ & _ & _ & HT & _).
  pose proof (concentrations_not_negative p fuel sol Hn Hsol) as HC.
  destruct (solveRK4_lengths _ _ _ Hsol) as (_ & _ & _ & Hlen).
  destruct (computeMetrics_peak_found sol HC)
    as [(_ & -> & _)|(k & Hk & _ & -> & _)].
  - now apply within_horizon_0.
  - apply Forall_at_index; [now apply (trace_times_within p fuel) | lia].
Qed.

Lemma tmax_within_horizon_witness :
  normalized (readParams raw_infusion)
  /\ exists sol,
       solveRK4_fuel 3 (readParams raw_infusion) = Some sol
       /\ within_horizon (readParams raw_infusion) (tmax (computeMetrics sol)).
Proof.
  assert (Hn : normalized (readParams raw_infusion))
    by (vm_compute; reflexivity).
  assert (Hb : counter_bound (readParams raw_infusion) 2)
    by (split; [lia | vm_compute; reflexivity]).
  split; [exact Hn|].
  destruct (solveRK4_terminates _ _ Hb) as [sol Hsol].
  exists sol. split; [exact Hsol|].
  exact (tmax_within_horizon _ _ _ Hn Hsol).
Defined.

Lemma Forall_of_at_index (P : float -> Prop) (a : list float) :
  (forall j, (j < List.length a)%nat -> P (at_index a j)) -> Forall P a.
Proof.
  intros H. apply Forall_nth. intros i d Hi.
  rewrite (nth_indep _ d nan) by exact Hi. now apply H.
Qed.

(** Property X15. For a normalized parameter set the page shows a dash for the
    peak exactly when every concentration of the trace is NaN; [cmax] is then
    [-Infinity] and [tmax] is 0. Otherwise the peak shown is a concentration of
    the trace that is not negative, and [tmax] is the time stamp of that sample. *)
Theorem peak_or_dash (p : Params) (fuel : nat) (sol : Sol) :
  normalized p -> solveRK4_fuel fuel p = Some sol ->
  (cmax_shown (computeMetrics sol) = None
   <-> Forall (fun c => is_nan c = true) (sol_C1 sol))
  /\ (cmax_shown (computeMetrics sol) = None ->
      cmax (computeMetrics sol) = neg_infinity
      /\ tmax (computeMetrics sol) = 0)
  /\ (forall c, cmax_shown (computeMetrics sol) = Some c ->
                (0 <=? c) = true
                /\ exists k, (k < List.length (sol_C1 sol))%nat
                             /\ c = at_index (sol_C1 sol) k
                             /\ tmax (computeMetrics sol)
                                = at_index (sol_t sol) k).
Proof.
  intros Hn Hsol.
  pose proof (concentrations_not_negative p fuel sol Hn Hsol) as HC.
  unfold cmax_shown, JS.geb.
  destruct (computeMetrics_peak_found sol HC)
    as [(Hm & Ht & Hall)|(k & Hk & Hm & Ht & H0)].
  - rewrite Hm. change (0 <=? neg_infinity) with false.
    split; [split; [intros _; now apply Forall_of_at_index | reflexivity]|].
    split; [auto | discriminate].
  - rewrite H0. split; [split; [discriminate|]|split; [discriminate|]].
    + intros HF. apply (Forall_at_index _ _ k) in HF; [|exact Hk].
      rewrite <- Hm in HF. apply leb_not_nan_r in H0. congruence.
    + intros c [= <-]. split; [exact H0|]. exists k. auto.
Qed.

Lemma peak_or_dash_witness :
  normalized (readParams raw_tiny_weight)
  /\ exists sol,
       solveRK4_fuel 3 (readParams raw_tiny_weight) = Some sol
       /\ cmax_shown (computeMetrics sol) = None
       /\ Forall (fun c => is_nan c = true) (sol_C1 sol).
Proof.
  assert (Hn : normalized (readParams raw_tiny_weight))
    by (vm_compute; reflexivity).
  split; [exact Hn|]. eexists. split; [vm_compute; reflexivity|].
  split; [vm_compute; reflexivity|].
  apply (peak_or_dash (readParams raw_tiny_weight) 3 _ Hn);
    vm_compute; reflexivity.
Defined.

(** *** One update of the page *)

Lemma update_eq (fuel : nat) (raw : Params) :
  update fuel raw
  = option_map (fun sol => (snd (readParams_ui raw), sol, computeMetrics sol))
      (solveRK4_fuel fuel (readParams raw)).
Proof.
  unfold update, readParams. destruct (readParams_ui raw) as [p ui].
  reflexivity.
Qed.

(** Property X16. Whatever the six fields hold, [update] goes through: the loop
    of [solveRK4] ends within 40000 passes, and the trace and the metrics the
    page is given are well formed. The time stamps run from 0 to the horizon at
    most, no mass and no concentration is negative, the area under the curve is
    not negative and the time of the peak lies within the horizon. *)
Theorem update_completes (raw : Params) :
  exists ui sol m,
    (forall fuel, (S (Z.to_nat 40000) <= fuel)%nat ->
                  update fuel raw = Some (ui, sol, m))
    /\ Forall (within_horizon (readParams raw)) (sol_t sol)
    /\ Forall not_negative (sol_A1 sol)
    /\ Forall not_negative (sol_A2 sol)
    /\ Forall not_negative (sol_A3 sol)
    /\ Forall not_negative (sol_C1 sol)
    /\ not_negative (auc m)
    /\ within_horizon (readParams raw) (tmax m).
Proof.
  pose proof (readParams_ok raw) as Hn.
  destruct (solveRK4_terminates _ _ (readParams_counter_bound_cap raw))
    as [sol Hsol].
  exists (snd (readParams_ui raw)), sol, (computeMetrics sol).
  pose proof (concentrations_not_negative _ _ _ Hn Hsol) as HC.
  split.
  { intros fuel Hfuel. rewrite update_eq.
    rewrite (solveRK4_fuel_more _ _ fuel _ Hfuel Hsol). reflexivity. }
  split; [now apply (trace_times_within _ _ _ Hn Hsol)|].
  assert (HM : Forall not_negative (sol_A1 sol)
               /\ Forall not_negative (sol_A2 sol)
               /\ Forall not_negative (sol_A3 sol)).
  { destruct (solveRK4_fuel_states _ _ _ Hsol) as (l & Hl & ->).
    pose proof (states_masses_not_negative _ _ _ Hn Hl) as HF.
    cbn [sol_A1 sol_A2 sol_A3 sol_of_states]. rewrite !Forall_map.
    repeat split; eapply Forall_impl; try exact HF; intros s Hs; apply Hs. }
  destruct HM as (H1 & H2 & H3).
  split; [exact H1|]. split; [exact H2|]. split; [exact H3|].
  split; [exact HC|]. split.
  - unfold computeMetrics. apply metrics_loop_auc.
    + exact HC.
    + now apply (time_steps_not_negative _ _ _ Hn Hsol).
    + apply nonneg_not_negative. reflexivity.
  - destruct (normalized_fields _ Hn) as (_ & _ & _ & _ & HT & _).
    destruct (solveRK4_lengths _ _ _ Hsol) as (_ & _ & _ & Hlen).
    destruct (computeMetrics_peak_found sol HC)
      as [(_ & -> & _)|(k & Hk & _ & -> & _)].
    + now apply within_horizon_0.
    + apply Forall_at_index;
        [now apply (trace_times_within _ _ _ Hn Hsol) | lia].
Qed.
